(** * Neuro-Fade: the scoring and effect core, embedded and verified

    A shallow embedding of the signal-processing and control-loop core of
    the Neuro-Fade extension:

    - [FrameAnalyzer]  (content/frame-analyzer.js): colour histogram,
      chi-squared histogram distance, motion, scene-cut window;
    - [NPUBridge]      (npu/npu-bridge.js): the WebNN distance graph and
      its JavaScript fallback;
    - [NeuroFadeDetector] (detector): trailing event windows and the
      composite score with its exponential smoothing;
    - [FadeEngine]     (effect engine): score-to-target mapping, the
      animation step, and the breathe override with its timer;
    - [AudioProcessor], [Rendering], [EnginePage] (audio chain and
      what the engine writes to the page);
    - [FrameRuns], [DetectorRuns], [DomRuns], [Monitoring] (runs of
      the analyzer and of the detector under the events of a page);
    - [ContentScript], [ServiceWorker], [Popup] (indicator, badge,
      session log, popup view and number animation);
    - [BridgeInit], [Benchmark], [Classifier], [Hardware] (start of
      the NPU bridge, benchmark rows, heuristic classifier, chip
      table).

    JavaScript numbers are modelled as exact rationals ([Q]): rounding of
    binary64 / float32 arithmetic is not modelled, and a bound that
    rounding could cross is stated with room for it (the smoothing
    step is also run on binary64 numbers, [Binary64]).  [NaN] is modelled
    explicitly in the histogram distance, whose final division is by a
    length that may be zero; the frame buffers of the 160 x 90 canvas
    are never empty.  [Math.log10] is a parameter of the score update.
    Wall-clock readings ([Date.now()]) are integer milliseconds ([Z])
    handed to each operation by its caller.  Timers ([setTimeout]) and
    animation frames ([requestAnimationFrame]) are modelled by an
    explicit event loop over a page state; exceptions by a state monad
    with an exceptional outcome. *)

From Stdlib Require Import QArith Qabs Qminmax Qround.
From Stdlib Require Import Reals Qreals Psatz.
From Stdlib Require Import ZArith List Bool Lia.
From Stdlib Require Floats String DecimalString.
Import ListNotations.

Open Scope Q_scope.

(** ** JavaScript comparison and arithmetic helpers *)

(** [a < b] on numbers. *)
Definition Qlt_bool (a b : Q) : bool := negb (Qle_bool b a).

(** [a > b] on numbers. *)
Definition Qgt_bool (a b : Q) : bool := Qlt_bool b a.

(** ** Shared configuration ([NEURO_FADE_CONSTANTS]) *)

Module C.

Module THRESHOLDS.
Definition LOW : Q := 25.
Definition MODERATE : Q := 45.
Definition HIGH : Q := 65.
Definition CRITICAL : Q := 85.
End THRESHOLDS.

Module TIMING.
Definition FRAME_SAMPLE_INTERVAL : Z := 500.
Definition SCORE_UPDATE_INTERVAL : Z := 1000.
Definition SCENE_CUT_WINDOW : Z := 3000.
End TIMING.

Record range := mkRange { min : Q; max : Q }.

Module EFFECTS.
Definition GRAYSCALE := mkRange 0 1.
Definition PLAYBACK_RATE := mkRange 0.85 1.0.
Definition BRIGHTNESS := mkRange 0.7 1.0.
Definition SATURATION := mkRange 0.2 1.0.
Definition BLUR := mkRange 0 1.5.
End EFFECTS.

Module SCENE_CUT.
Definition HISTOGRAM_BINS : nat := 16.
Definition DIFF_THRESHOLD : Q := 0.35.
Definition HIGH_CUT_RATE : Q := 8.
Definition MOTION_THRESHOLD : Q := 0.25.
End SCENE_CUT.

Module SCROLL.
Definition VELOCITY_THRESHOLD : Q := 800.
Definition RAPID_SCROLL_COUNT : Q := 5.
Definition RAPID_SCROLL_WINDOW : Z := 10000.
Definition INFINITE_SCROLL_THRESHOLD : Q := 20.
End SCROLL.

Module SCORE_WEIGHTS.
Definition SCENE_CUTS : Q := 0.30.
Definition SCROLL_VELOCITY : Q := 0.25.
Definition TIME_ON_PAGE : Q := 0.20.
Definition CONTENT_CHANGES : Q := 0.15.
Definition VIDEO_COUNT : Q := 0.10.
End SCORE_WEIGHTS.

End C.

(** ** Effect state *)

(** The six effect channels, in the key order of [currentEffects]. *)
Inductive Channel :=
| Grayscale | Saturation | Brightness | Blur | PlaybackRate | AudioIntensity.

Definition channels : list Channel :=
  [Grayscale; Saturation; Brightness; Blur; PlaybackRate; AudioIntensity].

Record Effects := mkEffects {
  grayscale : Q;
  saturation : Q;
  brightness : Q;
  blur : Q;
  playbackRate : Q;
  audioIntensity : Q
}.

(** [effects[key]]. *)
Definition get (k : Channel) (e : Effects) : Q :=
  match k with
  | Grayscale => grayscale e
  | Saturation => saturation e
  | Brightness => brightness e
  | Blur => blur e
  | PlaybackRate => playbackRate e
  | AudioIntensity => audioIntensity e
  end.

(** Channel-wise numeric equality of two effect sets. *)
Definition Effects_eq (a b : Effects) : Prop :=
  forall k, get k a == get k b.

Definition Effects_eqb (a b : Effects) : bool :=
  forallb (fun k => Qeq_bool (get k a) (get k b)) channels.

(** The neutral effect set (no intervention). *)
Definition neutral : Effects := mkEffects 0 1 1 0 1 0.

(** The fixed calming state that [breathe] forces. *)
Definition calming : Effects := mkEffects 0.6 0.4 0.85 0.8 0.9 0.5.

(** ** FadeEngine *)

Module FadeEngine.

Import C.

Record t := mk {
  currentEffects : Effects;
  targetEffects : Effects;
  isAnimating : bool;
  breatheMode : bool
}.

(** [constructor]: both effect sets neutral, nothing animating. *)
Definition constructor : t := mk neutral neutral false false.

(** [_startAnimation]: marks the engine animating; the first [step]
    runs at the next animation frame. *)
Definition _startAnimation (e : t) : t :=
  mk (currentEffects e) (targetEffects e) true (breatheMode e).

(** The intensity computed in the [else] branch of [update], for a
    score that is not below [THRESHOLDS.LOW], before the clamp. *)
Definition raw_intensity (dopamineScore : Q) : Q :=
  if Qlt_bool dopamineScore THRESHOLDS.MODERATE then
    (dopamineScore - THRESHOLDS.LOW)
      / (THRESHOLDS.MODERATE - THRESHOLDS.LOW) * 0.25
  else if Qlt_bool dopamineScore THRESHOLDS.HIGH then
    0.25 + (dopamineScore - THRESHOLDS.MODERATE)
             / (THRESHOLDS.HIGH - THRESHOLDS.MODERATE) * 0.35
  else if Qlt_bool dopamineScore THRESHOLDS.CRITICAL then
    0.60 + (dopamineScore - THRESHOLDS.HIGH)
             / (THRESHOLDS.CRITICAL - THRESHOLDS.HIGH) * 0.25
  else
    0.85 + (dopamineScore - THRESHOLDS.CRITICAL)
             / (100 - THRESHOLDS.CRITICAL) * 0.15.

(** The target set built from an intensity in the [else] branch. *)
Definition effects_of_intensity (intensity : Q) : Effects :=
  mkEffects
    (intensity * max EFFECTS.GRAYSCALE)
    (max EFFECTS.SATURATION
       - intensity * (max EFFECTS.SATURATION - min EFFECTS.SATURATION))
    (max EFFECTS.BRIGHTNESS
       - intensity * (max EFFECTS.BRIGHTNESS - min EFFECTS.BRIGHTNESS))
    (intensity * max EFFECTS.BLUR)
    (max EFFECTS.PLAYBACK_RATE
       - intensity * (max EFFECTS.PLAYBACK_RATE - min EFFECTS.PLAYBACK_RATE))
    intensity.

(** The target set that [update] assigns for a score. *)
Definition score_target (dopamineScore : Q) : Effects :=
  if Qlt_bool dopamineScore THRESHOLDS.LOW then
    mkEffects 0 1 1 0 1 0
  else
    let intensity := raw_intensity dopamineScore in
    let intensity := Qmin intensity 1 in
    effects_of_intensity intensity.

(** [update(dopamineScore)]. *)
Definition update (dopamineScore : Q) (e : t) : t :=
  let e' := mk (currentEffects e) (score_target dopamineScore)
               (isAnimating e) (breatheMode e) in
  if negb (isAnimating e') then _startAnimation e' else e'.

(** The score-to-intensity map: the clamped intensity of the [else]
    branch, and 0 below [LOW], where [update] assigns the neutral
    set (which is [effects_of_intensity 0], see
    [score_target_intensity]). *)
Definition intensity (dopamineScore : Q) : Q :=
  if Qlt_bool dopamineScore THRESHOLDS.LOW then 0
  else Qmin (raw_intensity dopamineScore) 1.

(** [reset()], restricted to the engine's own fields. *)
Definition reset (e : t) : t :=
  let e' := mk (currentEffects e) (mkEffects 0 1 1 0 1 0)
               (isAnimating e) (breatheMode e) in
  if negb (isAnimating e') then _startAnimation e' else e'.

(** [breathe()], the synchronous part: the flag is raised, a copy of
    the current target is saved and the target is forced to the
    calming state.  The saved copy is returned: it is what the timer
    callback closes over. *)
Definition breathe (e : t) : t * Effects :=
  let savedTarget := targetEffects e in
  (mk (currentEffects e) (mkEffects 0.6 0.4 0.85 0.8 0.9 0.5)
      (isAnimating e) true,
   savedTarget).

(** The callback that [breathe] hands to [setTimeout(..., 5000)]. *)
Definition breathe_timeout (savedTarget : Effects) (e : t) : t :=
  mk (currentEffects e) savedTarget (isAnimating e) false.

Definition BREATHE_DURATION : Z := 5000.

(** One channel of the loop body of [step]: the new current value and
    whether the channel is still animating. *)
Definition lerp : Q := 0.06.

Definition step_channel (target current : Q) : Q * bool :=
  let diff := target - current in
  if Qgt_bool (Qabs diff) 0.001 then (current + diff * lerp, true)
  else (target, false).

(** The closure [step] of [_startAnimation]: one animation frame. *)
Definition step (e : t) : t :=
  let ch k := step_channel (get k (targetEffects e))
                           (get k (currentEffects e)) in
  let cur := mkEffects (fst (ch Grayscale)) (fst (ch Saturation))
                       (fst (ch Brightness)) (fst (ch Blur))
                       (fst (ch PlaybackRate)) (fst (ch AudioIntensity)) in
  let stillAnimating := existsb (fun k => snd (ch k)) channels in
  mk cur (targetEffects e) stillAnimating (breatheMode e).

(** An animation frame fires [step] only while a frame is requested,
    which is exactly while [isAnimating] holds. *)
Definition frame (e : t) : t :=
  if isAnimating e then step e else e.

(** One channel after [n] animation steps towards a fixed target. *)
Definition channel_after (n : nat) (target current : Q) : Q :=
  Nat.iter n (fun c => fst (step_channel target c)) current.

(** The engine after [n] animation steps. *)
Definition steps (n : nat) (e : t) : t := Nat.iter n step e.

(** The engine after [n] animation frames: the loop as it runs, a
    frame doing nothing once the loop has stopped. *)
Definition frames (n : nat) (e : t) : t := Nat.iter n frame e.

(** The distance of a channel from its target. *)
Definition distance (k : Channel) (e : t) : Q :=
  Qabs (get k (targetEffects e) - get k (currentEffects e)).

(** [0.94 ^ n], the factor left of a difference after [n] steps. *)
Fixpoint Qpow (q : Q) (n : nat) : Q :=
  match n with
  | O => 1
  | S n' => q * Qpow q n'
  end.

(** [Math.ceil] on the reals. *)
Definition Rceil (x : R) : Z := (- Int_part (- x))%Z.

(** [ceil(log(initial_diff / 0.001) / log(1 / 0.94))]. *)
Definition ticks_bound (initial_diff : Q) : nat :=
  Z.to_nat (Rceil (ln (Q2R initial_diff / 0.001) / ln (1 / 0.94))%R).

End FadeEngine.

(** ** The page's event loop around the engine

    [breathe] registers a [setTimeout] callback; [_startAnimation] and
    [step] request animation frames.  The page state holds the engine,
    the clock and the pending timers (due time and the [savedTarget]
    the callback closes over), in registration order. *)

Module Page.

Record t := mk {
  engine : FadeEngine.t;
  now : Z;
  timers : list (Z * Effects)
}.

Inductive Event :=
| Update (dopamineScore : Q)   (* detector.onScoreUpdate -> fadeEngine.update *)
| Breathe                      (* the BREATHE message -> fadeEngine.breathe *)
| Reset                        (* fadeEngine.reset *)
| Frame                        (* an animation frame *)
| Wait (ms : Z).               (* time passes *)

Definition load (e : FadeEngine.t) (start : Z) : t := mk e start [].

Definition is_due (clock : Z) (tm : Z * Effects) : bool :=
  (fst tm <=? clock)%Z.

(** Runs the callbacks of the timers that are due, oldest first. *)
Definition fire_due (p : t) : t :=
  let due := filter (is_due (now p)) (timers p) in
  let pending := filter (fun tm => negb (is_due (now p) tm)) (timers p) in
  mk (fold_left (fun e tm => FadeEngine.breathe_timeout (snd tm) e)
                due (engine p))
     (now p) pending.

Definition handle (p : t) (ev : Event) : t :=
  match ev with
  | Update s => mk (FadeEngine.update s (engine p)) (now p) (timers p)
  | Breathe =>
      let '(e, savedTarget) := FadeEngine.breathe (engine p) in
      mk e (now p)
         (timers p ++ [((now p + FadeEngine.BREATHE_DURATION)%Z, savedTarget)])
  | Reset => mk (FadeEngine.reset (engine p)) (now p) (timers p)
  | Frame => mk (FadeEngine.frame (engine p)) (now p) (timers p)
  | Wait ms => fire_due (mk (engine p) (now p + Z.max 0 ms)%Z (timers p))
  end.

Definition run (evs : list Event) (p : t) : t := fold_left handle evs p.

(** Events that can occur while a breathe override is pending, other
    than a second [Breathe]: their waits add up to [elapsed]. *)
Fixpoint elapsed (evs : list Event) : Z :=
  match evs with
  | [] => 0
  | Wait ms :: evs' => (Z.max 0 ms + elapsed evs')%Z
  | _ :: evs' => elapsed evs'
  end.

Definition is_breathe (ev : Event) : bool :=
  match ev with Breathe => true | _ => false end.

Definition touches_target (ev : Event) : bool :=
  match ev with Update _ | Reset | Breathe => true | _ => false end.

Definition quiet (ev : Event) : bool := negb (touches_target ev).
Definition not_breathe (ev : Event) : bool := negb (is_breathe ev).

End Page.

(** ** Exceptions and state

    Code that can raise is modelled in a state monad with exceptions: a
    computation maps the state before to an outcome and the state after.
    A raised exception keeps the state reached so far (JavaScript has
    no rollback). *)

Inductive outcome (A : Type) : Type :=
| Returned (a : A)
| Thrown.
Arguments Returned {A} a.
Arguments Thrown {A}.

Definition M (S A : Type) : Type := S -> outcome A * S.

Definition ret {S A} (a : A) : M S A := fun s => (Returned a, s).

Definition bind {S A B} (m : M S A) (k : A -> M S B) : M S B :=
  fun s => match m s with
           | (Returned a, s') => k a s'
           | (Thrown, s') => (Thrown, s')
           end.

Definition lift {S A} (o : outcome A) : M S A := fun s => (o, s).

Definition gets {S A} (f : S -> A) : M S A := fun s => (Returned (f s), s).

Definition modify {S} (f : S -> S) : M S unit := fun s => (Returned tt, f s).

(** [try { m } catch (e) { h }]. *)
Definition try_catch {S A} (m : M S A) (h : M S A) : M S A :=
  fun s => match m s with
           | (Returned a, s') => (Returned a, s')
           | (Thrown, s') => h s'
           end.

Declare Scope js_scope.
Delimit Scope js_scope with js.
Notation "x <- m ;; k" := (bind m (fun x => k))
  (at level 61, m at next level, right associativity) : js_scope.
Notation "m ;;; k" := (bind m (fun _ => k))
  (at level 61, right associativity) : js_scope.

(** ** Histogram distance

    [FrameAnalyzer._histogramDiff] and [NPUBridge._jsHistogramDistance]
    are the same loop.  [h2[i]] beyond the end of [h2] is [undefined],
    the bin sum is then [NaN] and the test [sum > 0] fails.  The final
    division by [h1.length] is [0 / 0 = NaN] for an empty [h1]: the
    result is [None] then. *)

Fixpoint chi_squared_loop (h1 h2 : list Q) (diff : Q) : Q :=
  match h1, h2 with
  | [], _ => diff
  | _ :: h1', [] => chi_squared_loop h1' [] diff
  | a :: h1', b :: h2' =>
      let sum := a + b in
      chi_squared_loop h1' h2'
        (if Qgt_bool sum 0 then diff + (a - b) ^ 2 / sum else diff)
  end.

Definition chi_squared_distance (h1 h2 : list Q) : option Q :=
  let diff := chi_squared_loop h1 h2 0 in
  match h1 with
  | [] => None
  | _ => Some (diff / inject_Z (Z.of_nat (length h1)))
  end.

(** ** NPUBridge: the WebNN graph and the JavaScript fallback *)

Module NPUBridge.

(** The tensor shape of both graph inputs: [1 x 48]. *)
Definition GRAPH_BINS : nat := 48.

Definition epsilon : Q := 1 # 10000000000.   (* 1e-10 *)

(** The element-wise operations of [_buildSceneCutGraph]:
    [sub], [mul], [add], [add epsilon], [div]. *)
Definition chiTerm (a b : Q) : Q :=
  let diff := a - b in
  let diffSquared := diff * diff in
  let sum := a + b in
  let denominator := sum + epsilon in
  diffSquared / denominator.

Fixpoint chiTerms (hist1 hist2 : list Q) : list Q :=
  match hist1, hist2 with
  | a :: h1', b :: h2' => chiTerm a b :: chiTerms h1' h2'
  | _, _ => []
  end.

Definition reduceSum (l : list Q) : Q := fold_left Qplus l 0.

(** [reduceMean] over axis 1 of a [1 x 48] tensor. *)
Definition reduceMean (l : list Q) : Q :=
  reduceSum l / inject_Z (Z.of_nat GRAPH_BINS).

(** [graph.compute]: inputs of another shape than [1 x 48] are
    rejected. *)
Definition graph_compute (hist1 hist2 : list Q) : outcome Q :=
  if (length hist1 =? GRAPH_BINS)%nat && (length hist2 =? GRAPH_BINS)%nat
  then Returned (reduceMean (chiTerms hist1 hist2))
  else Thrown.

(** [_jsHistogramDistance]. *)
Definition _jsHistogramDistance (h1 h2 : list Q) : option Q :=
  chi_squared_distance h1 h2.

Record t := mk {
  available : bool;
  graph : bool;           (* [this.graph] is built *)
  framesProcessed : Z
}.

(** [computeHistogramDistance], without its latency bookkeeping. *)
Definition computeHistogramDistance (hist1 hist2 : list Q)
  : M t (option Q) :=
  (hasGraph <- gets graph ;;
   distance <-
     (if hasGraph
      then try_catch
             (d <- lift (graph_compute hist1 hist2) ;; ret (Some d))
             (ret (_jsHistogramDistance hist1 hist2))
      else ret (_jsHistogramDistance hist1 hist2)) ;;
   modify (fun s => mk (available s) (graph s) (framesProcessed s + 1)%Z) ;;;
   ret distance)%js.

End NPUBridge.

(** ** FrameAnalyzer *)

(** A video element as the analyzer and the detector read it.
    [capture] is what [drawImage] followed by [getImageData] yields on
    the 160 x 90 canvas: the RGBA bytes, or an exception (a
    cross-origin frame taints the canvas and the pixel read raises).
    [visibleArea] is the product that [_getActiveVideo] computes from
    [getBoundingClientRect] and the window size. *)
Record VideoElement := mkVideo {
  paused : bool;
  ended : bool;
  readyState : Z;
  videoWidth : Z;
  offsetParent : bool;     (* the element is laid out *)
  visibleArea : Q;         (* area of its bounding box inside the window *)
  capture : outcome (list Z)
}.

Module FrameAnalyzer.

Import C.

Definition CANVAS_WIDTH : Z := 160.
Definition CANVAS_HEIGHT : Z := 90.

Definition BINS : nat := SCENE_CUT.HISTOGRAM_BINS.
Definition DIFF_THRESHOLD : Q := SCENE_CUT.DIFF_THRESHOLD.
Definition CUT_WINDOW : Z := TIMING.SCENE_CUT_WINDOW.

Record t := mk {
  previousHistogram : option (list Q);
  sceneCuts : list Z;
  motionScores : list Q;
  frameCount : Z;
  lastFrameData : option (list Z);
  npuBridge : option NPUBridge.t
}.

(** What [analyzeFrame] returns when it does not return [null]. *)
Record FrameResult := mkResult {
  isSceneCut : bool;
  motionScore : Q;
  cutRate : Q;
  avgMotion : Q;
  resultFrameCount : Z;
  histogram : list Q
}.

Record Metrics := mkMetrics {
  metricsCutRate : Q;
  metricsAvgMotion : Q;
  totalFrames : Z;
  recentCuts : Z
}.

(** [constructor], before the asynchronous NPU initialisation. *)
Definition constructor : t := mk None [] [] 0 None None.

(** [histogram[i]++] on a typed array: a write out of range is
    ignored. *)
Fixpoint incr (i : nat) (h : list Q) : list Q :=
  match h, i with
  | [], _ => []
  | x :: h', O => (x + 1) :: h'
  | x :: h', S i' => x :: incr i' h'
  end.

Definition incr_at (i : Z) (h : list Q) : list Q :=
  if (i <? 0)%Z then h else incr (Z.to_nat i) h.

(** [Math.floor(value / binSize)]. *)
Definition bin_of (binSize : Q) (value : Z) : Z :=
  Qfloor (inject_Z value / binSize).

(** The counting loop of [_computeHistogram], four bytes a pixel.
    A trailing partial pixel (never produced by [getImageData])
    counts the channels it has: the index of a missing one is [NaN]
    and its increment is lost. *)
Fixpoint count_pixels (bins : nat) (binSize : Q) (data : list Z)
                      (histogram : list Q) : list Q :=
  let at_r r h := incr_at (bin_of binSize r) h in
  let at_g g h := incr_at (Z.of_nat bins + bin_of binSize g)%Z h in
  let at_b b h := incr_at (Z.of_nat bins * 2 + bin_of binSize b)%Z h in
  match data with
  | [] => histogram
  | [r] => at_r r histogram
  | [r; g] => at_g g (at_r r histogram)
  | [r; g; b] => at_b b (at_g g (at_r r histogram))
  | r :: g :: b :: _ :: rest =>
      count_pixels bins binSize rest (at_b b (at_g g (at_r r histogram)))
  end.

(** [_computeHistogram(data)].  The division by [pixelCount] is
    exact division; an empty buffer (where JavaScript yields [NaN]
    bins) does not occur: the canvas has 160 x 90 pixels. *)
Definition _computeHistogram (data : list Z) : list Q :=
  let bins := BINS in
  let histogram := repeat 0 (bins * 3) in
  let binSize := 256 / inject_Z (Z.of_nat bins) in
  let pixelCount := inject_Z (Z.of_nat (length data)) / 4 in
  let histogram := count_pixels bins binSize data histogram in
  map (fun x => x / pixelCount) histogram.

(** [_histogramDiff]. *)
Definition _histogramDiff (h1 h2 : list Q) : option Q :=
  chi_squared_distance h1 h2.

Definition byte_at (data : list Z) (i : nat) : Q :=
  inject_Z (nth i data 0%Z).

(** [_computeMotion(currentData)]: every 16th pixel is compared with
    the previous buffer, which has the same size (both come from the
    same canvas). *)
Definition _computeMotion (lastFrameData : option (list Z))
                          (currentData : list Z) : Q :=
  match lastFrameData with
  | None => 0
  | Some last =>
      let pixelCount := inject_Z (Z.of_nat (length currentData)) / 4 in
      let step := 16%nat in
      let samples :=
        filter (fun i => (i <? length currentData)%nat)
               (map (fun k => (k * (4 * step))%nat)
                    (seq 0 (S (length currentData / (4 * step))))) in
      let diffSum :=
        fold_left
          (fun diffSum i =>
             let dr := Qabs (byte_at currentData i - byte_at last i) in
             let dg := Qabs (byte_at currentData (i + 1)
                             - byte_at last (i + 1)) in
             let db := Qabs (byte_at currentData (i + 2)
                             - byte_at last (i + 2)) in
             diffSum + (dr + dg + db) / (3 * 255))
          samples 0 in
      diffSum / (pixelCount / inject_Z (Z.of_nat step))
  end.

Definition sum (arr : list Q) : Q := fold_left Qplus arr 0.

(** [_average(arr)]. *)
Definition _average (arr : list Q) : Q :=
  match arr with
  | [] => 0
  | _ => sum arr / inject_Z (Z.of_nat (length arr))
  end.

Definition length_Q {A} (l : list A) : Q := inject_Z (Z.of_nat (length l)).

(** [t => now - t < CUT_WINDOW]. *)
Definition in_window (now window t : Z) : bool := (now - t <? window)%Z.

(** The histogram comparison of [analyzeFrame].  With an available
    NPU bridge the accelerated distance is requested and its result
    dropped; the decision uses the synchronous distance on both
    paths.  [NaN > threshold] is false. *)
Definition detect_cut (previous current : list Q) : M t bool :=
  (bridge <- gets npuBridge ;;
   diff <-
     match bridge with
     | Some b =>
         if NPUBridge.available b then
           let b' := snd (NPUBridge.computeHistogramDistance
                            previous current b) in
           modify (fun s => mk (previousHistogram s) (sceneCuts s)
                               (motionScores s) (frameCount s)
                               (lastFrameData s) (Some b')) ;;;
           ret (_histogramDiff previous current)
         else ret (_histogramDiff previous current)
     | None => ret (_histogramDiff previous current)
     end ;;
   ret match diff with
       | Some d => Qgt_bool d DIFF_THRESHOLD
       | None => false
       end)%js.

(** The body of the [try] block of [analyzeFrame]. *)
Definition analyzeFrame_try (videoElement : VideoElement) (now : Z)
  : M t (option FrameResult) :=
  (data <- lift (capture videoElement) ;;
   let histogram := _computeHistogram data in
   last <- gets lastFrameData ;;
   let motionScore := _computeMotion last data in
   previous <- gets previousHistogram ;;
   isSceneCut <-
     match previous with
     | Some prev => detect_cut prev histogram
     | None => ret false
     end ;;
   modify (fun s =>
     let cuts := if isSceneCut then sceneCuts s ++ [now] else sceneCuts s in
     mk (previousHistogram s)
        (filter (in_window now CUT_WINDOW) cuts)
        (motionScores s) (frameCount s) (lastFrameData s) (npuBridge s)) ;;;
   cuts <- gets sceneCuts ;;
   let windowSeconds := inject_Z CUT_WINDOW / 1000 in
   let cutRate := (length_Q cuts / windowSeconds) * 10 in
   modify (fun s =>
     let scores := motionScores s ++ [motionScore] in
     mk (Some histogram) (sceneCuts s)
        (if (20 <? length scores)%nat then tl scores else scores)
        (frameCount s + 1)%Z (Some data) (npuBridge s)) ;;;
   scores <- gets motionScores ;;
   count <- gets frameCount ;;
   ret (Some (mkResult isSceneCut motionScore cutRate
                       (_average scores) count histogram)))%js.

(** [analyzeFrame(videoElement)] at wall-clock time [now]. *)
Definition analyzeFrame (videoElement : option VideoElement) (now : Z)
  : M t (option FrameResult) :=
  match videoElement with
  | None => ret None
  | Some v =>
      if paused v || ended v || (readyState v <? 2)%Z
         || (videoWidth v =? 0)%Z
      then ret None
      else try_catch (analyzeFrame_try v now) (ret None)
  end.

(** [getMetrics()]. *)
Definition getMetrics (s : t) : Metrics :=
  mkMetrics
    (match sceneCuts s with
     | [] => 0
     | _ => (length_Q (sceneCuts s) / (inject_Z CUT_WINDOW / 1000)) * 10
     end)
    (_average (motionScores s))
    (frameCount s)
    (Z.of_nat (length (sceneCuts s))).

(** [reset()]. *)
Definition reset (s : t) : t := mk None [] [] 0 None (npuBridge s).

End FrameAnalyzer.

(** ** NeuroFadeDetector *)

Module NeuroFadeDetector.

Import C.

Record ScrollEvent := mkScroll {
  time : Z;
  velocity : Q;
  dy : Q
}.

Record t := mk {
  enabled : bool;
  sensitivity : Q;
  dopamineScore : Q;
  startTime : Z;
  videos : list VideoElement;
  scrollEvents : list ScrollEvent;
  lastScrollY : Q;
  lastScrollTime : Z;
  domHeightChanges : list Z;
  lastDOMHeight : Q;
  frameAnalyzer : FrameAnalyzer.t
}.

(** The breakdown handed to [onScoreUpdate]. *)
Record Details := mkDetails {
  sceneCutScore : Q;
  scrollScore : Q;
  timeScore : Q;
  contentChangeScore : Q;
  videoScore : Q;
  rawScore : Q;
  metrics : FrameAnalyzer.Metrics
}.

(** [constructor] followed by [start()] at time [now]: sensitivity
    0.5, score 0, empty windows. *)
Definition constructor (now : Z) (scrollY height : Q) : t :=
  mk true 0.5 0 now [] [] scrollY now [] height FrameAnalyzer.constructor.

Definition set_dopamineScore (score : Q) (d : t) : t :=
  mk (enabled d) (sensitivity d) score (startTime d) (videos d)
     (scrollEvents d) (lastScrollY d) (lastScrollTime d)
     (domHeightChanges d) (lastDOMHeight d) (frameAnalyzer d).

Definition set_frameAnalyzer (fa : FrameAnalyzer.t) (d : t) : t :=
  mk (enabled d) (sensitivity d) (dopamineScore d) (startTime d) (videos d)
     (scrollEvents d) (lastScrollY d) (lastScrollTime d)
     (domHeightChanges d) (lastDOMHeight d) fa.

(** [e => now - e.time < RAPID_SCROLL_WINDOW]. *)
Definition recent_scroll (now : Z) (e : ScrollEvent) : bool :=
  (now - time e <? SCROLL.RAPID_SCROLL_WINDOW)%Z.

(** [t => now - t < RAPID_SCROLL_WINDOW]. *)
Definition recent_change (now t : Z) : bool :=
  (now - t <? SCROLL.RAPID_SCROLL_WINDOW)%Z.

(** [_scrollHandler] at time [now] with [window.scrollY = scrollY]. *)
Definition _scrollHandler (now : Z) (scrollY : Q) (d : t) : t :=
  let dy := Qabs (scrollY - lastScrollY d) in
  let dt0 := inject_Z (now - lastScrollTime d) / 1000 in
  let dt := if Qeq_bool dt0 0 then 0.001 else dt0 in   (* [dt0 || 0.001] *)
  let velocity := dy / dt in
  let events := scrollEvents d ++ [mkScroll now velocity dy] in
  mk (enabled d) (sensitivity d) (dopamineScore d) (startTime d) (videos d)
     (filter (recent_scroll now) events) scrollY now
     (domHeightChanges d) (lastDOMHeight d) (frameAnalyzer d).

(** The DOM-height poll of [start()], run every 500 ms.  Its two
    readings of the clock are taken as one. *)
Definition domInterval (now : Z) (currentHeight : Q) (d : t) : t :=
  if negb (Qeq_bool currentHeight (lastDOMHeight d)) then
    mk (enabled d) (sensitivity d) (dopamineScore d) (startTime d)
       (videos d) (scrollEvents d) (lastScrollY d) (lastScrollTime d)
       (filter (recent_change now) (domHeightChanges d ++ [now]))
       currentHeight (frameAnalyzer d)
  else d.

(** [_getActiveVideo()]: the playing, laid-out video with the largest
    visible area. *)
Definition _getActiveVideo (d : t) : option VideoElement :=
  fst (fold_left
         (fun (best : option VideoElement * Q) video =>
            if paused video || ended video || negb (offsetParent video)
            then best
            else if Qgt_bool (visibleArea video) (snd best)
                 then (Some video, visibleArea video)
                 else best)
         (videos d) (None, 0)).

(** [_analyzeActiveVideo()] at time [now]. *)
Definition _analyzeActiveVideo (now : Z) : M t unit :=
  fun d =>
    match _getActiveVideo d with
    | None => (Returned tt, d)
    | Some video =>
        match FrameAnalyzer.analyzeFrame (Some video) now
                (frameAnalyzer d) with
        | (Returned _, fa) => (Returned tt, set_frameAnalyzer fa d)
        | (Thrown, fa) => (Thrown, set_frameAnalyzer fa d)
        end
    end.

(** The frame-sampling tick of [start()]. *)
Definition frameInterval (now : Z) : M t unit :=
  fun d => if enabled d then _analyzeActiveVideo now d
           else (Returned tt, d).

(** The number of fast scroll events that the score update counts. *)
Definition fastScrolls (d : t) : nat :=
  length (filter (fun e => Qgt_bool (velocity e) SCROLL.VELOCITY_THRESHOLD)
                 (scrollEvents d)).

Definition activeVideos (d : t) : nat :=
  length (filter (fun v => negb (paused v) && negb (ended v)) (videos d)).

Definition of_nat (n : nat) : Q := inject_Z (Z.of_nat n).

(** The exponential moving average that ends the score update. *)
Definition smooth (rawScore previous : Q) : Q :=
  let alpha := 0.15 in
  alpha * Qmin rawScore 100 + (1 - alpha) * previous.

Section Score.

(** [Math.log10]: irrational-valued, so a parameter of the model. *)
Variable log10 : Q -> Q.

(** The sub-scores and the weighted, sensitivity-scaled composite
    of [_updateDopamineScore] at time [now]. *)
Definition details (now : Z) (d : t) : Details :=
  let elapsed := inject_Z (now - startTime d) / 1000 in
  let metrics := FrameAnalyzer.getMetrics (frameAnalyzer d) in
  let cutRateNorm :=
    Qmin (FrameAnalyzer.metricsCutRate metrics / SCENE_CUT.HIGH_CUT_RATE) 1 in
  let motionNorm :=
    Qmin (FrameAnalyzer.metricsAvgMotion metrics
          / SCENE_CUT.MOTION_THRESHOLD) 1 in
  let sceneCutScore := (cutRateNorm * 0.7 + motionNorm * 0.3) * 100 in
  let scrollScore :=
    Qmin (of_nat (fastScrolls d) / SCROLL.RAPID_SCROLL_COUNT) 1 * 100 in
  let timeScore := Qmin (log10 (1 + elapsed / 60) * 50) 100 in
  let contentChangeScore :=
    Qmin (of_nat (length (domHeightChanges d))
          / SCROLL.INFINITE_SCROLL_THRESHOLD) 1 * 100 in
  let videoScore := Qmin (of_nat (activeVideos d) / 3) 1 * 100 in
  let rawScore :=
    sceneCutScore * SCORE_WEIGHTS.SCENE_CUTS
    + scrollScore * SCORE_WEIGHTS.SCROLL_VELOCITY
    + timeScore * SCORE_WEIGHTS.TIME_ON_PAGE
    + contentChangeScore * SCORE_WEIGHTS.CONTENT_CHANGES
    + videoScore * SCORE_WEIGHTS.VIDEO_COUNT in
  let rawScore := rawScore * (0.5 + sensitivity d * 1.5) in
  mkDetails sceneCutScore scrollScore timeScore contentChangeScore
            videoScore rawScore metrics.

(** [_updateDopamineScore()] at time [now]: the new detector state
    and the arguments of the [onScoreUpdate] notification. *)
Definition _updateDopamineScore (now : Z) (d : t) : t * (Q * Details) :=
  let ds := details now d in
  let score := smooth (rawScore ds) (dopamineScore d) in
  (set_dopamineScore score d, (score, ds)).

(** The score tick of [start()]. *)
Definition scoreInterval (now : Z) (d : t) : t :=
  if enabled d then fst (_updateDopamineScore now d) else d.

(** The scores observed over a sequence of score ticks.  Between
    two ticks every other field of the detector may change (frames
    are analysed, the page scrolls, the sensitivity is set): each
    tick comes with the time and the detector as it is then, and
    only the score is carried from tick to tick. *)
Fixpoint observed_scores (previous : Q) (ticks : list (Z * t)) : list Q :=
  match ticks with
  | [] => []
  | (now, d) :: ticks' =>
      let score :=
        dopamineScore
          (fst (_updateDopamineScore now (set_dopamineScore previous d))) in
      score :: observed_scores score ticks'
  end.

End Score.

(** What the score invariant assumes of the signals at a tick: a
    sensitivity in [0,1], a clock that has not run backwards since
    [start()], and a non-negative average motion. *)
Definition valid_signals (tick : Z * t) : Prop :=
  let (now, d) := tick in
  0 <= sensitivity d <= 1
  /\ (startTime d <= now)%Z
  /\ 0 <= FrameAnalyzer.metricsAvgMotion
            (FrameAnalyzer.getMetrics (frameAnalyzer d)).

(** A computable instance of the [log10] parameter, used to run the
    model on concrete inputs: the integer part of the decimal
    logarithm, which agrees with [Math.log10] at the powers of ten
    (in particular [log10 1 = 0]). *)
Fixpoint digits_above_one (fuel : nat) (n : Z) : Z :=
  match fuel with
  | O => 0
  | S fuel' =>
      if (n <? 10)%Z then 0%Z
      else (1 + digits_above_one fuel' (n / 10))%Z
  end.

Definition floor_log10 (x : Q) : Q :=
  inject_Z (digits_above_one (Z.to_nat (Qfloor x)) (Qfloor x)).

End NeuroFadeDetector.

(** ** Histogram distance as the specification words it

    The distance of the specification, for comparison with the loop of
    the code: each bin contributes [(h1[i] - h2[i])^2 / (h1[i] + h2[i])]
    when its bin sum is nonzero and 0 otherwise, and the total is
    divided by the bin count. *)

Definition spec_bin_term (a b : Q) : Q :=
  if Qeq_bool (a + b) 0 then 0 else (a - b) ^ 2 / (a + b).

Fixpoint spec_bin_total (h1 h2 : list Q) : Q :=
  match h1, h2 with
  | a :: h1', b :: h2' => spec_bin_term a b + spec_bin_total h1' h2'
  | _, _ => 0
  end.

Definition spec_distance (h1 h2 : list Q) : Q :=
  spec_bin_total h1 h2 / inject_Z (Z.of_nat (length h1)).

Definition nonnegative (h : list Q) : Prop := Forall (fun x => 0 <= x) h.

Definition total (h : list Q) : Q := fold_right Qplus 0 h.

(** A histogram normalised as a whole: non-negative bins that sum
    to 1. *)
Definition normalized (h : list Q) : Prop :=
  nonnegative h /\ total h == 1.

(** A histogram normalised per colour channel, as
    [_computeHistogram] builds it: three runs of [BINS] non-negative
    bins, each run summing to 1. *)
Definition channel_normalized (h : list Q) : Prop :=
  let bins := FrameAnalyzer.BINS in
  nonnegative h
  /\ length h = (bins * 3)%nat
  /\ total (firstn bins h) == 1
  /\ total (firstn bins (skipn bins h)) == 1
  /\ total (skipn (bins * 2) h) == 1.

(** Bins between 0 and 1, as the bins of a normalised histogram
    are. *)
Definition unit_bins (h : list Q) : Prop := Forall (fun x => 0 <= x <= 1) h.

(** The same with the sum of each run within [slack] of 1. *)
Definition channel_normalized_within (slack : Q) (h : list Q) : Prop :=
  let bins := FrameAnalyzer.BINS in
  nonnegative h
  /\ length h = (bins * 3)%nat
  /\ Qabs (total (firstn bins h) - 1) <= slack
  /\ Qabs (total (firstn bins (skipn bins h)) - 1) <= slack
  /\ Qabs (total (skipn (bins * 2) h) - 1) <= slack.

(** [a] and [b] agree within the relative tolerance [tol]. *)
Definition within_relative_tolerance (tol a b : Q) : Prop :=
  Qabs (a - b) <= tol * Qmax (Qabs a) (Qabs b).

(** The two distance paths agree within 1e-4 on every pair of
    histograms that satisfy [valid] and that the graph accepts. *)
Definition dual_path_equivalent (valid : list Q -> Prop) : Prop :=
  forall h1 h2 d_graph d_js,
    valid h1 -> valid h2 -> length h1 = length h2 ->
    NPUBridge.graph_compute h1 h2 = Returned d_graph ->
    NPUBridge._jsHistogramDistance h1 h2 = Some d_js ->
    within_relative_tolerance 0.0001 d_graph d_js.

(** Every bin sum is 0 or at least [floor]. *)
Fixpoint bin_sums_at_least (floor : Q) (h1 h2 : list Q) : Prop :=
  match h1, h2 with
  | a :: h1', b :: h2' =>
      (a + b == 0 \/ floor <= a + b) /\ bin_sums_at_least floor h1' h2'
  | _, _ => True
  end.

(** ** Statements about capture and about the trailing windows *)

(** A source from which no frame can be taken: no element, paused,
    ended, not ready, without dimensions, or with a pixel read that
    raises. *)
Definition unreadable (videoElement : option VideoElement) : Prop :=
  match videoElement with
  | None => True
  | Some v =>
      paused v = true \/ ended v = true \/ (readyState v < 2)%Z
      \/ videoWidth v = 0%Z \/ capture v = Thrown
  end.

(** The events of a queue whose age at [now] does not exceed the
    window. *)
Definition not_older_than (window now : Z) (stamps : list Z) : list Z :=
  filter (fun t => (now - t <=? window)%Z) stamps.

(** "Events older than their window are excluded at every read", for
    the two reads of the score update: the count that the read uses is
    at most the number of stored events that are not older than the
    window. *)
Definition scroll_read_excludes_old : Prop :=
  forall (d : NeuroFadeDetector.t) (now : Z),
    Forall (fun e => (NeuroFadeDetector.time e <= now)%Z)
           (NeuroFadeDetector.scrollEvents d) ->
    (NeuroFadeDetector.fastScrolls d
     <= length (not_older_than C.SCROLL.RAPID_SCROLL_WINDOW now
                  (map NeuroFadeDetector.time
                       (NeuroFadeDetector.scrollEvents d))))%nat.

Definition dom_read_excludes_old : Prop :=
  forall (log10 : Q -> Q) (d : NeuroFadeDetector.t) (now : Z),
    Forall (fun t => (t <= now)%Z) (NeuroFadeDetector.domHeightChanges d) ->
    NeuroFadeDetector.contentChangeScore
      (NeuroFadeDetector.details log10 now d)
    <= Qmin (NeuroFadeDetector.of_nat
               (length (not_older_than C.SCROLL.RAPID_SCROLL_WINDOW now
                          (NeuroFadeDetector.domHeightChanges d)))
             / C.SCROLL.INFINITE_SCROLL_THRESHOLD) 1 * 100.

(** A bin that holds a pixel count. *)
Definition is_count (q : Q) : Prop :=
  exists n : nat, q == inject_Z (Z.of_nat n).

(** ** The smoothing step in binary64

    The exponential moving average of [_updateDopamineScore] on IEEE
    754 binary64 numbers, the numbers of JavaScript, to run the
    smoothing step with its rounding. *)

Module Binary64.

Import Floats.
#[local] Open Scope float_scope.
#[local] Set Warnings "-inexact-float".

(** [Math.min] on two numbers that are not [NaN]. *)
Definition min (a b : float) : float := if a <? b then a else b.

Definition smooth (rawScore previous : float) : float :=
  let alpha := 0.15 in
  alpha * min rawScore 100 + (1 - alpha) * previous.

Definition fifteen : float := 15.
Definition twenty_seven_75 : float := 27.75.
Definition hundred : float := 100.

End Binary64.

(** ** Concrete inputs

    States and inputs on which the model is run in the examples
    below. *)

Module Examples.

(** A playing video whose frames cannot be read (cross-origin). *)
Definition cross_origin_video : VideoElement :=
  mkVideo false false 4 1280 true 1000 Thrown.

(** A playing video with a readable frame. *)
Definition playing_video (data : list Z) : VideoElement :=
  mkVideo false false 4 1280 true 1000 (Returned data).

(** A detector at its start time with every signal but the time on
    page saturated: three cuts in the window, average motion 0.25,
    five fast scrolls, twenty DOM changes, three playing videos;
    sensitivity 0.5 and score 0.  Its composite score is
    [(30 + 25 + 0 + 15 + 10) * 1.25 = 100]. *)
Definition saturated_detector : NeuroFadeDetector.t :=
  NeuroFadeDetector.mk true 0.5 0 0
    (repeat cross_origin_video 3)
    (repeat (NeuroFadeDetector.mkScroll 0 1000 100) 5) 0 0
    (repeat 0%Z 20) 0
    (FrameAnalyzer.mk None [0%Z; 0%Z; 0%Z] [0.25] 1 None None).

(** Two 48-bin histograms that differ by 1e-10 in their first two
    bins, normalised as a whole ... *)
Definition tiny : Q := 1 # 10000000000.

Definition h_total_1 : list Q := [tiny; 1 - tiny] ++ repeat 0 46.
Definition h_total_2 : list Q := [0; 1] ++ repeat 0 46.

(** ... and normalised per channel. *)
Definition h_channel_1 : list Q :=
  ([tiny; 1 - tiny] ++ repeat 0 14) ++ (1 :: repeat 0 15)
  ++ (1 :: repeat 0 15).
Definition h_channel_2 : list Q :=
  ([0; 1] ++ repeat 0 14) ++ (1 :: repeat 0 15) ++ (1 :: repeat 0 15).

(** An analyzer in whose queue one cut was recorded at time 0. *)
Definition analyzer_with_cut_at_0 : FrameAnalyzer.t :=
  FrameAnalyzer.mk None [0%Z] [] 1 None None.

(** A detector started at time [start] (scroll position 0, document
    height 2000) that saw one scroll notification 100 ms later, at
    scroll position 1000 (10000 px/s) ... *)
Definition scrolled_once (start : Z) : NeuroFadeDetector.t :=
  NeuroFadeDetector._scrollHandler (start + 100) 1000
    (NeuroFadeDetector.constructor start 0 2000).

(** ... and one whose first DOM poll, 500 ms after the start, saw the
    document grown to 2500. *)
Definition grown_once (start : Z) : NeuroFadeDetector.t :=
  NeuroFadeDetector.domInterval (start + 500) 2500
    (NeuroFadeDetector.constructor start 0 2000).

(** Two frame buffers of two pixels, all black and all white. *)
Definition black_frame : list Z := [0; 0; 0; 255; 0; 0; 0; 255]%Z.
Definition white_frame : list Z := [255; 255; 255; 255; 255; 255; 255; 255]%Z.

End Examples.

(** * Further components

    The rest of the effect path: the declared ranges of the channels,
    the audio chain ([AudioProcessor]) and what [_applyEffects] writes
    to the page. *)

(** ** Declared channel ranges *)

(** The range of each channel: [C.EFFECTS] for the visual channels and
    the playback rate, [0, 1] for the audio intensity. *)
Definition range_of (k : Channel) : Q * Q :=
  match k with
  | Grayscale => (C.min C.EFFECTS.GRAYSCALE, C.max C.EFFECTS.GRAYSCALE)
  | Saturation => (C.min C.EFFECTS.SATURATION, C.max C.EFFECTS.SATURATION)
  | Brightness => (C.min C.EFFECTS.BRIGHTNESS, C.max C.EFFECTS.BRIGHTNESS)
  | Blur => (C.min C.EFFECTS.BLUR, C.max C.EFFECTS.BLUR)
  | PlaybackRate =>
      (C.min C.EFFECTS.PLAYBACK_RATE, C.max C.EFFECTS.PLAYBACK_RATE)
  | AudioIntensity => (0, 1)
  end.

Definition in_range (e : Effects) : Prop :=
  forall k, fst (range_of k) <= get k e <= snd (range_of k).

(** Every channel is within [slack] of its range. *)
Definition near_range (slack : Q) (e : Effects) : Prop :=
  forall k, fst (range_of k) - slack <= get k e <= snd (range_of k) + slack.

(** The invariant of the page: current effects, target effects and
    every saved target of a pending timer are in range. *)
Definition page_in_range (p : Page.t) : Prop :=
  in_range (FadeEngine.currentEffects (Page.engine p))
  /\ in_range (FadeEngine.targetEffects (Page.engine p))
  /\ Forall (fun tm => in_range (snd tm)) (Page.timers p).

(** ** AudioProcessor *)

Module AudioProcessor.

(** The processor that [attach] stores for a video: the values to which
    the three audio parameters are ramping, and the intensity applied
    last. *)
Record Processor := mkProcessor {
  lowPassFrequency : Q;
  highShelfGain : Q;
  gain : Q;
  currentIntensity : Q
}.

(** [activeProcessors]: a map from video elements (their identities)
    to processors.  [audioContexts] has the same keys. *)
Definition t := list (Z * Processor).

Definition constructor : t := [].

(** [activeProcessors.get(videoElement)]. *)
Fixpoint get (videoElement : Z) (m : t) : option Processor :=
  match m with
  | [] => None
  | (v, p) :: m' => if (v =? videoElement)%Z then Some p else get videoElement m'
  end.

(** [activeProcessors.has(videoElement)]. *)
Definition has (videoElement : Z) (m : t) : bool :=
  match get videoElement m with Some _ => true | None => false end.

(** [activeProcessors.delete(videoElement)]. *)
Fixpoint delete (videoElement : Z) (m : t) : t :=
  match m with
  | [] => []
  | (v, p) :: m' =>
      if (v =? videoElement)%Z then delete videoElement m'
      else (v, p) :: delete videoElement m'
  end.

(** [activeProcessors.set(videoElement, processor)]. *)
Definition set (videoElement : Z) (p : Processor) (m : t) : t :=
  (videoElement, p) :: delete videoElement m.

(** [attach(videoElement)].  [creation] is the outcome of building the
    audio graph, which raises for a cross-origin source or an element
    that already feeds another context; the exception is caught. *)
Definition attach (creation : outcome unit) (videoElement : Z) (m : t) : t :=
  if has videoElement m then m
  else match creation with
       | Returned _ => set videoElement (mkProcessor 20000 0 1.0 0) m
       | Thrown => m
       end.

(** [applyFade(videoElement, intensity)]. *)
Definition applyFade (videoElement : Z) (intensity : Q) (m : t) : t :=
  match get videoElement m with
  | None => m
  | Some processor =>
      let targetFreq := 20000 - (intensity * 18000) in
      let targetShelfGain := - intensity * 12 in
      let targetGain := 1.0 - (intensity * 0.15) in
      set videoElement
          (mkProcessor (Qmax targetFreq 2000) targetShelfGain targetGain
                       intensity) m
  end.

(** [reset(videoElement)]. *)
Definition reset (videoElement : Z) (m : t) : t := applyFade videoElement 0 m.

(** [detach(videoElement)]. *)
Definition detach (videoElement : Z) (m : t) : t :=
  match get videoElement m with
  | Some _ => delete videoElement m
  | None => m
  end.

(** [getState(videoElement)]: the intensity and the [active] flag. *)
Definition getState (videoElement : Z) (m : t) : Q * bool :=
  match get videoElement m with
  | Some processor => (currentIntensity processor, true)
  | None => (0, false)
  end.

End AudioProcessor.

(** ** What the engine writes to the page *)

Module Rendering.

(** A registered video as [_applyEffects] and [reset] see it. *)
Record Video := mkVideo {
  element : Z;
  paused : bool;
  ended : bool;
  rate : Q;                           (* [video.playbackRate] *)
  filter : option (Q * Q * Q * Q)     (* [video.style.filter]: grayscale,
                                         saturate, brightness, blur *)
}.

Record t := mk {
  cssVariables : Q * Q * Q * Q;       (* [--nf-grayscale], [--nf-saturation],
                                         [--nf-brightness], [--nf-blur] *)
  videos : list Video;
  audioProcessor : AudioProcessor.t;
  bodyFilter : option (Q * Q * Q)     (* [document.body.style.filter]:
                                         grayscale, saturate, brightness *)
}.

(** After [constructor] and [_injectStyles]. *)
Definition constructor : t := mk (0, 1, 1, 0) [] AudioProcessor.constructor None.

Definition has_video (v : Z) (videos : list Video) : bool :=
  existsb (fun x => (element x =? v)%Z) videos.

(** [registerVideo(video)]: a playing video gets its audio chain at
    once ([creation] as in [AudioProcessor.attach]). *)
Definition registerVideo (creation : outcome unit) (video : Video) (r : t) : t :=
  if has_video (element video) (videos r) then r
  else
    mk (cssVariables r) (videos r ++ [video])
       (if negb (paused video)
        then AudioProcessor.attach creation (element video) (audioProcessor r)
        else audioProcessor r)
       (bodyFilter r).

(** The body of the loop over the videos in [_applyEffects]. *)
Definition apply_to_video (e : Effects) (video : Video) : Video :=
  let targetRate := playbackRate e in
  mkVideo (element video) (paused video) (ended video)
    (if negb (paused video) && negb (ended video) then
       let currentRate := rate video in
       if Qgt_bool (Qabs (currentRate - targetRate)) 0.01 then targetRate
       else currentRate
     else rate video)
    (Some (grayscale e, saturation e, brightness e, blur e)).

(** [_applyEffects()] for the current effects [e]. *)
Definition _applyEffects (e : Effects) (r : t) : t :=
  mk (grayscale e, saturation e, brightness e, blur e)
     (map (apply_to_video e) (videos r))
     (fold_left (fun a video =>
                   AudioProcessor.applyFade (element video) (audioIntensity e) a)
                (videos r) (audioProcessor r))
     (Some (grayscale e * 0.3,
            1 - (1 - saturation e) * 0.3,
            1 - (1 - brightness e) * 0.3)).

(** The page part of [reset()]: every video back to rate 1 and to a
    neutral audio chain, the body filter cleared. *)
Definition reset (r : t) : t :=
  mk (cssVariables r)
     (map (fun video =>
             mkVideo (element video) (paused video) (ended video) 1
                     (filter video))
          (videos r))
     (fold_left (fun a video => AudioProcessor.reset (element video) a)
                (videos r) (audioProcessor r))
     None.

End Rendering.

(** ** Runs of the detector's event intake *)

Module DetectorRuns.

Import NeuroFadeDetector.

(** The event that a scroll notification at [now] with
    [window.scrollY = scrollY] stands for, after a notification (or the
    start) at [lastTime] with position [lastY]. *)
Definition scroll_event (lastY : Q) (lastTime now : Z) (scrollY : Q)
  : ScrollEvent :=
  let dy := Qabs (scrollY - lastY) in
  let dt0 := inject_Z (now - lastTime) / 1000 in
  mkScroll now (dy / (if Qeq_bool dt0 0 then 0.001 else dt0)) dy.

(** The events of a sequence of notifications (time, position). *)
Fixpoint scroll_events (lastY : Q) (lastTime : Z) (notes : list (Z * Q))
  : list ScrollEvent :=
  match notes with
  | [] => []
  | (now, scrollY) :: notes' =>
      scroll_event lastY lastTime now scrollY
        :: scroll_events scrollY now notes'
  end.

(** The scroll listener run on a sequence of notifications. *)
Definition scrolls (notes : list (Z * Q)) (d : t) : t :=
  fold_left (fun d note => _scrollHandler (fst note) (snd note) d) notes d.

(** The clock does not run backwards over the notifications. *)
Fixpoint nondecreasing (from : Z) (notes : list (Z * Q)) : Prop :=
  match notes with
  | [] => True
  | (now, _) :: notes' => (from <= now)%Z /\ nondecreasing now notes'
  end.

Fixpoint last_time (from : Z) (notes : list (Z * Q)) : Z :=
  match notes with
  | [] => from
  | (now, _) :: notes' => last_time now notes'
  end.

(** A video that [_getActiveVideo] considers: playing and laid out. *)
Definition eligible (video : VideoElement) : bool :=
  negb (paused video || ended video || negb (offsetParent video)).

(** The body of the loop of [_getActiveVideo], on the pair of
    [bestVideo] and [bestArea]. *)
Definition pick (best : option VideoElement * Q) (video : VideoElement)
  : option VideoElement * Q :=
  if paused video || ended video || negb (offsetParent video)
  then best
  else if Qgt_bool (visibleArea video) (snd best)
       then (Some video, visibleArea video)
       else best.

End DetectorRuns.

(** ** Runs of the frame analyzer *)

Module FrameRuns.

Import FrameAnalyzer.

(** An element of a [Uint8ClampedArray]. *)
Definition is_byte (b : Z) : Prop := (0 <= b <= 255)%Z.

(** The [data] of an [ImageData] of [pixels] pixels: four bytes a
    pixel.  The canvas of the analyzer has [160 * 90 = 14400]
    pixels. *)
Definition image_data (pixels : nat) (data : list Z) : Prop :=
  length data = (4 * pixels)%nat /\ Forall is_byte data.

(** A video whose frames, when they can be read, are read from a
    canvas of [pixels] pixels. *)
Definition captures (pixels : nat) (v : option VideoElement) : Prop :=
  match v with
  | Some v =>
      match capture v with
      | Returned data => image_data pixels data
      | Thrown => True
      end
  | None => True
  end.

(** A histogram under construction: [BINS * 3] non-negative bins, each
    channel holding [n] counts. *)
Definition channel_counts (n : Q) (h : list Q) : Prop :=
  nonnegative h
  /\ length h = (BINS * 3)%nat
  /\ total (firstn BINS h) == n
  /\ total (firstn BINS (skipn BINS h)) == n
  /\ total (skipn (BINS * 2) h) == n.

(** The analyzer after the sampling ticks [frames], each with the video
    passed to [analyzeFrame] and the time of the tick. *)
Definition analyze (frames : list (option VideoElement * Z)) (fa : t) : t :=
  fold_left (fun fa frame => snd (analyzeFrame (fst frame) (snd frame) fa))
            frames fa.

(** The frame can be read: [analyzeFrame] does not return [null]. *)
Definition readable (frame : option VideoElement * Z) : bool :=
  match fst frame with
  | Some v =>
      negb (paused v || ended v || (readyState v <? 2)%Z
            || (videoWidth v =? 0)%Z)
      && match capture v with Returned _ => true | Thrown => false end
  | None => false
  end.

(** The state of an analyzer whose frames came from a canvas of
    [pixels] pixels. *)
Definition consistent (pixels : nat) (fa : t) : Prop :=
  match previousHistogram fa with
  | Some h => channel_normalized h
  | None => True
  end
  /\ match lastFrameData fa with
     | Some last => image_data pixels last
     | None => True
     end
  /\ Forall (fun m => 0 <= m <= 1) (motionScores fa)
  /\ (length (motionScores fa) <= 20)%nat.

(** Two buffers of a 4 x 4 canvas, all black and all white. *)
Definition dark_frame : list Z := repeat 0%Z 64.
Definition bright_frame : list Z := repeat 255%Z 64.

(** The length of the buffer that [getImageData] returns for the
    canvas of the analyzer: four bytes for each of its [160 * 90]
    pixels. *)
Definition CANVAS_BYTES : Z := 4 * CANVAS_WIDTH * CANVAS_HEIGHT.

(** A buffer of the canvas of the analyzer with every byte [value]. *)
Definition canvas_frame (value : Z) : list Z :=
  repeat value (Z.to_nat CANVAS_BYTES).

End FrameRuns.

(** * Further components: indicator, badge, sessions and popup

    What the content script, the service worker and the popup do with
    a score once the detector has computed it. *)

(** [Math.round]: the nearest integer, a half rounded up. *)
Definition round (x : Q) : Z := Qfloor (x + (1 # 2)).

(** [Math.sign] on a number. *)
Definition sign (x : Q) : Q :=
  if Qlt_bool 0 x then 1 else if Qlt_bool x 0 then -1 else 0.

(** ** The indicator of the content script *)

Module ContentScript.

Import String.
#[local] Open Scope string_scope.

(** [updateIndicator(score)]: the level in the class name of the
    indicator and the number in its tooltip. *)
Definition updateIndicator (score : Q) : string * Z :=
  let level :=
    if Qlt_bool score C.THRESHOLDS.LOW then "low"
    else if Qlt_bool score C.THRESHOLDS.MODERATE then "moderate"
    else if Qlt_bool score C.THRESHOLDS.HIGH then "high"
    else "critical" in
  (level, round score).

(** The score in the message of [sendStateUpdate(score, details)]. *)
Definition sendStateUpdate (score : Q) : Z := round score.

End ContentScript.

(** ** The service worker: badge and session log *)

Module ServiceWorker.

Import String.
#[local] Open Scope string_scope.

(** [updateBadge(tabId, score)]: the badge text ([None] for the empty
    text) and the badge colour. *)
Definition updateBadge (score : Q) : option Z * string :=
  let text := if Qgt_bool score 10 then Some (round score) else None in
  let color :=
    if Qlt_bool score 25 then "#22c55e"
    else if Qlt_bool score 45 then "#eab308"
    else if Qlt_bool score 65 then "#f97316"
    else "#ef4444" in
  (text, color).

(** An entry of the session log (its [platform] label left out). *)
Record Session := mkSession {
  tabId : Z;
  startTime : Z;
  timestamp : Z;
  duration : Z;
  peakScore : Q;
  score : Q
}.

(** The two storage keys that [trackSession] reads and writes. *)
Record Storage := mkStorage {
  sessions : list Session;
  interventions : Z
}.

(** The values that the install listener stores. *)
Definition installed : Storage := mkStorage [] 0.

(** [while (sessions.length > 100) sessions.shift()]; the loop runs at
    most [sessions.length] times. *)
Fixpoint keep_last_100 (fuel : nat) (log : list Session) : list Session :=
  match fuel with
  | O => log
  | S fuel' =>
      if (100 <? List.length log)%nat then keep_last_100 fuel' (tl log)
      else log
  end.

(** [trackSession(tabId, data)] at time [now], for [data.score =
    data_score].  [storage] is the outcome of the storage round trip;
    when it raises nothing is written.  Calls are taken to run one
    after the other. *)
Definition trackSession (storage : outcome unit) (tab : Z) (data_score : Q)
                        (now : Z) (st : Storage) : Storage :=
  if Qlt_bool data_score 25 then st
  else
    match storage with
    | Thrown => st
    | Returned _ =>
        let fresh := mkSession tab now now 0 data_score data_score in
        let log :=
          match List.last (map Some (sessions st)) None with
          | Some lastSession =>
              if (now - timestamp lastSession <? 60000)%Z
                 && (tabId lastSession =? tab)%Z
              then
                (removelast (sessions st)
                 ++ [mkSession (tabId lastSession) (startTime lastSession)
                       now (now - startTime lastSession)
                       (Qmax (peakScore lastSession) data_score)
                       (score lastSession)])%list
              else (sessions st ++ [fresh])%list
          | None => (sessions st ++ [fresh])%list
          end in
        mkStorage (keep_last_100 (List.length log) log) (interventions st + 1)
    end.

(** An [UPDATE_SCORE] message as [trackSession] sees it: the tab, the
    score, the time of arrival and the outcome of the storage round
    trip. *)
Record Message := mkMessage {
  sender : Z;
  sent : Q;
  arrival : Z;
  storage : outcome unit
}.

Definition track (st : Storage) (m : Message) : Storage :=
  trackSession (storage m) (sender m) (sent m) (arrival m) st.

(** The storage after a sequence of messages. *)
Definition tracked (messages : list Message) (st : Storage) : Storage :=
  fold_left track messages st.

(** A message that [trackSession] records. *)
Definition recorded (m : Message) : bool :=
  negb (Qlt_bool (sent m) 25)
  && match storage m with Returned _ => true | Thrown => false end.

End ServiceWorker.

(** ** The popup *)

Module Popup.

Import String.
#[local] Open Scope string_scope.

Definition GAUGE_TOTAL : Q := 251.3.

(** What [updateUI(data)] computes from [data.score] and
    [data.effects]. *)
Record View := mkView {
  offset : Q;          (* [strokeDashoffset] of the gauge *)
  statusColor : string;
  grayscaleBar : Z;    (* width in percent *)
  audioBar : Z;        (* width in percent *)
  speedBar : Q         (* width in percent *)
}.

(** [x || fallback] on a number. *)
Definition or_else (x fallback : Q) : Q :=
  if Qeq_bool x 0 then fallback else x.

(** [updateUI(data)]. *)
Definition updateUI (score : Q) (effects : Effects) : View :=
  let score := or_else score 0 in
  let offset := GAUGE_TOTAL - (score / 100) * GAUGE_TOTAL in
  let color :=
    if Qlt_bool score 25 then "#22c55e"
    else if Qlt_bool score 45 then "#eab308"
    else if Qlt_bool score 65 then "#f97316"
    else "#ef4444" in
  let gs := round (or_else (grayscale effects) 0 * 100) in
  let audio := round (or_else (audioIntensity effects) 0 * 100) in
  let rate := or_else (playbackRate effects) 1 in
  let slowdown := inject_Z (round ((1 - rate) * 1000)) / 10 in
  mkView offset color gs audio (slowdown / 15 * 100).

(** The body of [animate] in [animateNumber]: the next value. *)
Definition animate (target step value : Q) : Q :=
  let value := value + step in
  if (Qgt_bool step 0 && Qle_bool target value)
     || (Qlt_bool step 0 && Qle_bool value target)
  then target else value.

(** The values that the animation passes through, frame by frame, and
    whether it has ended (it goes on while [value !== target]) within
    [frames] animation frames. *)
Fixpoint animation (frames : nat) (target step value : Q) : list Q * bool :=
  match frames with
  | O => ([], false)
  | S frames' =>
      let value := animate target step value in
      if Qeq_bool value target then ([value], true)
      else
        let (rest, ended) := animation frames' target step value in
        (value :: rest, ended)
  end.

(** [animateNumber(element, target)] for an element that shows
    [current]: the numbers written to the element during the first
    [frames] animation frames, and whether the animation has ended. *)
Definition animateNumber (frames : nat) (current : Z) (target : Q)
  : list Z * bool :=
  if Qeq_bool (inject_Z current) target then ([], true)
  else
    let diff := target - inject_Z current in
    let step := sign diff * Qmax 1 (Qabs diff / 10) in
    let (values, ended) := animation frames target step (inject_Z current) in
    (map round values, ended).

End Popup.

(** * Further components: the detector and the engine at work *)

(** ** The detector under the events of a page *)

Module Monitoring.

Import NeuroFadeDetector.

(** What reaches a started detector. *)
Inductive Event :=
| Scroll (now : Z) (scrollY : Q)       (* a scroll notification *)
| DomPoll (now : Z) (height : Q)       (* the 500 ms poll of the height *)
| FrameTick (now : Z)                  (* the frame-sampling interval *)
| ScoreTick (now : Z)                  (* the score interval *)
| SetSensitivity (value : Q)           (* the SET_SENSITIVITY message *)
| Toggle                               (* the TOGGLE message, a click on
                                          the indicator *)
| Videos (videos : list VideoElement). (* the registered videos, in the
                                          state they are in from now on *)

Definition set_sensitivity (value : Q) (d : t) : t :=
  mk (enabled d) value (dopamineScore d) (startTime d) (videos d)
     (scrollEvents d) (lastScrollY d) (lastScrollTime d)
     (domHeightChanges d) (lastDOMHeight d) (frameAnalyzer d).

Definition set_enabled (value : bool) (d : t) : t :=
  mk value (sensitivity d) (dopamineScore d) (startTime d) (videos d)
     (scrollEvents d) (lastScrollY d) (lastScrollTime d)
     (domHeightChanges d) (lastDOMHeight d) (frameAnalyzer d).

Definition set_videos (value : list VideoElement) (d : t) : t :=
  mk (enabled d) (sensitivity d) (dopamineScore d) (startTime d) value
     (scrollEvents d) (lastScrollY d) (lastScrollTime d)
     (domHeightChanges d) (lastDOMHeight d) (frameAnalyzer d).

Section Run.

Variable log10 : Q -> Q.

Definition handle (d : t) (ev : Event) : t :=
  match ev with
  | Scroll now scrollY => _scrollHandler now scrollY d
  | DomPoll now height => domInterval now height d
  | FrameTick now => snd (frameInterval now d)
  | ScoreTick now => scoreInterval log10 now d
  | SetSensitivity value => set_sensitivity value d
  | Toggle => set_enabled (negb (enabled d)) d
  | Videos videos => set_videos videos d
  end.

Definition run (events : list Event) (d : t) : t :=
  fold_left handle events d.

End Run.

(** The events of a page whose score ticks do not come before [start],
    whose sensitivities are in [0, 1] (the slider of the popup) and
    whose videos are read from a canvas of [pixels] pixels. *)
Definition admissible (start : Z) (pixels : nat) (ev : Event) : Prop :=
  match ev with
  | ScoreTick now => (start <= now)%Z
  | SetSensitivity value => 0 <= value <= 1
  | Videos videos => Forall (fun v => FrameRuns.captures pixels (Some v)) videos
  | _ => True
  end.

(** What the events keep true of a detector started at [start]. *)
Definition steady (start : Z) (pixels : nat) (d : t) : Prop :=
  0 <= dopamineScore d <= 100
  /\ 0 <= sensitivity d <= 1
  /\ startTime d = start
  /\ Forall (fun v => FrameRuns.captures pixels (Some v)) (videos d)
  /\ FrameRuns.consistent pixels (frameAnalyzer d)
  /\ FrameAnalyzer.sceneCuts (frameAnalyzer d) = [].

(** Neither a toggle nor a change of sensitivity. *)
Definition passive (ev : Event) : bool :=
  match ev with
  | Toggle | SetSensitivity _ => false
  | _ => true
  end.

End Monitoring.

(** ** The engine with the page that it writes *)

Module EnginePage.

Definition t : Type := FadeEngine.t * Rendering.t.

(** One animation frame: the closure [step], which ends with
    [_applyEffects]; nothing when no frame is requested. *)
Definition frame (p : t) : t :=
  if FadeEngine.isAnimating (fst p) then
    let e := FadeEngine.step (fst p) in
    (e, Rendering._applyEffects (FadeEngine.currentEffects e) (snd p))
  else p.

Definition frames (n : nat) (p : t) : t := Nat.iter n frame p.

(** [update(dopamineScore)]. *)
Definition update (dopamineScore : Q) (p : t) : t :=
  (FadeEngine.update dopamineScore (fst p), snd p).

(** [reset()]: the target, the animation, then the videos and the
    body filter. *)
Definition reset (p : t) : t :=
  (FadeEngine.reset (fst p), Rendering.reset (snd p)).

(** What a settled page shows for the effects [e]. *)
Definition shows (e : Effects) (r : Rendering.t) : Prop :=
  Rendering.cssVariables r
  = (grayscale e, saturation e, brightness e, blur e)
  /\ Rendering.bodyFilter r
     = Some (grayscale e * 0.3, 1 - (1 - saturation e) * 0.3,
             1 - (1 - brightness e) * 0.3)
  /\ Forall (fun v =>
               Rendering.filter v
               = Some (grayscale e, saturation e, brightness e, blur e)
               /\ (Rendering.paused v = false -> Rendering.ended v = false ->
                   Qabs (Rendering.rate v - playbackRate e) <= 0.01)
               /\ (AudioProcessor.has (Rendering.element v)
                     (Rendering.audioProcessor r) = true ->
                   AudioProcessor.getState (Rendering.element v)
                     (Rendering.audioProcessor r)
                   = (audioIntensity e, true)))
            (Rendering.videos r).

End EnginePage.

(** * Further components: the timing rows of the benchmark *)

Module Benchmark.

(** The sorted copy [[...arr].sort((a, b) => a - b)]: the numbers of
    [arr] in ascending order. *)
Fixpoint insert (x : Q) (sorted : list Q) : list Q :=
  match sorted with
  | [] => [x]
  | y :: rest => if Qle_bool x y then x :: sorted else y :: insert x rest
  end.

Definition sort (arr : list Q) : list Q := fold_right insert [] arr.

(** [arr[index]]: [undefined] out of range. *)
Definition at_index (arr : list Q) (index : Z) : option Q :=
  if (index <? 0)%Z then None else nth_error arr (Z.to_nat index).

(** [arr.reduce((a, b) => a + b, 0)]. *)
Definition total (arr : list Q) : Q := fold_left Qplus arr 0.

(** [_avg(arr)]: [NaN] ([None]) for an empty array. *)
Definition _avg (arr : list Q) : option Q :=
  match arr with
  | [] => None
  | _ => Some (total arr / inject_Z (Z.of_nat (length arr)))
  end.

(** [_median(arr)]. *)
Definition _median (arr : list Q) : option Q :=
  let sorted := sort arr in
  let mid := (Z.of_nat (length sorted) / 2)%Z in
  if (Z.of_nat (length sorted) mod 2 =? 0)%Z then
    match at_index sorted (mid - 1), at_index sorted mid with
    | Some a, Some b => Some ((a + b) / 2)
    | _, _ => None
    end
  else at_index sorted mid.

(** [_percentile(arr, p)]. *)
Definition _percentile (arr : list Q) (p : Q) : option Q :=
  let sorted := sort arr in
  let index :=
    (Qceiling ((p / 100) * inject_Z (Z.of_nat (length sorted))) - 1)%Z in
  at_index sorted index.

(** [Math.min(...times)] and [Math.max(...times)] on a non-empty
    array. *)
Definition minimum (times : list Q) : option Q :=
  match times with
  | [] => None
  | x :: rest => Some (fold_left Qmin rest x)
  end.

Definition maximum (times : list Q) : option Q :=
  match times with
  | [] => None
  | x :: rest => Some (fold_left Qmax rest x)
  end.

(** A row of the benchmark results. *)
Record Row := mkRow {
  avgMs : Q;
  minMs : Q;
  maxMs : Q;
  medianMs : Q;
  p95Ms : Q;
  totalMs : Q
}.

(** The row that [runBenchmarks] builds from the measured times; [None]
    when one of its numbers is not a number. *)
Definition row (times : list Q) : option Row :=
  match _avg times, minimum times, maximum times,
        _median times, _percentile times 95 with
  | Some avg, Some lo, Some hi, Some median, Some p95 =>
      Some (mkRow avg lo hi median p95 (total times))
  | _, _, _, _, _ => None
  end.

End Benchmark.

(** ** Runs of the height poll *)

Module DomRuns.

Import NeuroFadeDetector.

(** The times at which a sequence of polls (time, height) finds the
    height changed, after a poll that left [lastHeight]. *)
Fixpoint changes (lastHeight : Q) (polls : list (Z * Q)) : list Z :=
  match polls with
  | [] => []
  | (now, height) :: polls' =>
      if Qeq_bool height lastHeight then changes lastHeight polls'
      else now :: changes height polls'
  end.

(** The poll run on a sequence of readings. *)
Definition polled (polls : list (Z * Q)) (d : t) : t :=
  fold_left (fun d poll => domInterval (fst poll) (snd poll) d) polls d.

End DomRuns.

(** * Further components: the start of the NPU bridge *)

Module BridgeInit.

Import String.
#[local] Open Scope string_scope.

(** The device types of WebNN. *)
Inductive Device := npu | gpu | cpu.

(** The fields of the bridge that [init] sets. *)
Record t := mk {
  available : bool;
  backend : Device;
  context : option Device;   (* the device of the context created *)
  graph : bool;              (* [this.graph !== null] *)
  initialized : bool
}.

Definition constructor : t := mk false cpu None false false.

(** The browser as [init] finds it. *)
Record Browser := mkBrowser {
  ml : bool;                              (* ['ml' in navigator] *)
  createContext : Device -> outcome unit; (* [navigator.ml.createContext] *)
  build : outcome unit                    (* building the graph *)
}.

(** [_buildSceneCutGraph()]: an exception of the builder is caught. *)
Definition _buildSceneCutGraph (env : Browser) (s : t) : t :=
  match context s with
  | None => s
  | Some _ =>
      mk (available s) (backend s) (context s)
         match build env with Returned _ => true | Thrown => false end
         (initialized s)
  end.

(** One [try] block of [init]: the state in which [init] returns
    [true], or nothing when the context cannot be created. *)
Definition attempt (env : Browser) (device : Device) (s : t) : option t :=
  match createContext env device with
  | Returned _ =>
      let s := mk true device (Some device) (graph s) (initialized s) in
      let s := _buildSceneCutGraph env s in
      Some (mk (available s) (backend s) (context s) (graph s) true)
  | Thrown => None
  end.

(** The pure JavaScript fallback at the end of [init]. *)
Definition fallback (s : t) : bool * t :=
  (false, mk false cpu (context s) (graph s) true).

(** [init()]: the value returned and the bridge afterwards (hardware
    detection and the ONNX probe set none of these fields). *)
Definition init (env : Browser) (s : t) : bool * t :=
  if initialized s then (available s, s)
  else if ml env then
    match attempt env npu s with
    | Some s' => (true, s')
    | None =>
        match attempt env gpu s with
        | Some s' => (true, s')
        | None =>
            match attempt env cpu s with
            | Some s' => (true, s')
            | None => fallback s
            end
        end
    end
  else fallback s.

(** [getStatusString()]. *)
Definition getStatusString (s : t) : string :=
  match backend s with
  | npu => "AMD NPU Active ⚡"
  | gpu => "GPU Accelerated"
  | cpu => if available s then "CPU (WebNN)" else "CPU (JavaScript)"
  end.

(** The first device, in the order npu, gpu, cpu, for which a context
    can be created. *)
Definition first_device (env : Browser) : option Device :=
  if negb (ml env) then None
  else
    find (fun device =>
            match createContext env device with
            | Returned _ => true
            | Thrown => false
            end)
         [npu; gpu; cpu].

End BridgeInit.

(** * Further components: the heuristic classifier and the chip table *)

Module Classifier.

Import String.
#[local] Open Scope string_scope.

(** The heuristic classification that ends [_extractContentFeatures],
    on the features computed before it: the score, the category and
    the confidence. *)
Definition heuristic (satMax colorVariance edgeDensity avgBrightness : Q)
                     (warmPixels coolPixels : Z) : Q * string * Q :=
  let dopamineScore := 0 in
  let dopamineScore := dopamineScore + satMax * 30 in
  let dopamineScore := dopamineScore + colorVariance * 25 in
  let dopamineScore := dopamineScore + edgeDensity * 20 in
  let dopamineScore := dopamineScore + avgBrightness * 15 in
  let dopamineScore :=
    dopamineScore + (if (coolPixels <? warmPixels)%Z then 10 else 0) in
  if Qgt_bool dopamineScore 60 then
    (dopamineScore, "high_dopamine", Qmin (dopamineScore / 100) 0.95)
  else if Qgt_bool dopamineScore 35 then
    (dopamineScore, "moderate", 0.5 + (dopamineScore - 35) / 50)
  else
    (dopamineScore, "calming", Qmax (1 - dopamineScore / 35) 0.5).

End Classifier.

Module Hardware.

Import String.
#[local] Open Scope string_scope.

(** [s.includes(part)]. *)
Definition includes (s part : string) : bool :=
  match index 0 part s with
  | Some _ => true
  | None => false
  end.

(** A number in a template literal. *)
Definition decimal (n : nat) : string :=
  DecimalString.NilZero.string_of_uint (Nat.to_uint n).

(** [_inferChipModel(cores)], for [cores] a positive number or the
    text 'Unknown' ([None]). *)
Definition _inferChipModel (cores : option nat) : string :=
  match cores with
  | Some 8%nat => "AMD Ryzen 5 7540U / Ryzen 7 7840U"
  | Some 12%nat => "AMD Ryzen 7 8845HS / Ryzen 9 8945HS"
  | Some 16%nat => "AMD Ryzen 9 7945HX / Ryzen 9 8945HX"
  | Some 20%nat => "AMD Ryzen 9 9955HX"
  | Some 24%nat => "AMD Ryzen 9 9955HX3D"
  | Some n =>
      if (16 <=? n)%nat then "AMD Ryzen AI 9 HX (" ++ decimal n ++ " threads)"
      else if (12 <=? n)%nat then "AMD Ryzen AI 7 (" ++ decimal n ++ " threads)"
      else if (8 <=? n)%nat then "AMD Ryzen AI 5 (" ++ decimal n ++ " threads)"
      else "AMD Ryzen AI (" ++ decimal n ++ " threads)"
  | None => "AMD Ryzen AI (Unknown threads)"
  end.

(** [_inferTOPS(chipModel)]. *)
Definition _inferTOPS (chipModel : string) : string :=
  if includes chipModel "9955" || includes chipModel "AI 9" then "50+ TOPS"
  else if includes chipModel "8945" || includes chipModel "AI 7"
       then "39 TOPS"
  else if includes chipModel "8845" then "33 TOPS"
  else if includes chipModel "7840" || includes chipModel "7940"
       then "16 TOPS"
  else if includes chipModel "AI 5" then "16 TOPS"
  else "10+ TOPS".

End Hardware.

(** * Properties *)

(** ** Comparison helpers *)

Lemma Qlt_bool_iff (a b : Q) : Qlt_bool a b = true <-> a < b.
Proof.
  unfold Qlt_bool. rewrite negb_true_iff.
  destruct (Qle_bool b a) eqn:E.
  - apply Qle_bool_iff in E. split; [discriminate | intro; lra].
  - split; [intros _ | reflexivity].
    apply Qnot_le_lt. intro H. apply Qle_bool_iff in H. congruence.
Qed.

Lemma Qlt_bool_false_iff (a b : Q) : Qlt_bool a b = false <-> b <= a.
Proof.
  unfold Qlt_bool. rewrite negb_false_iff. apply Qle_bool_iff.
Qed.

Lemma Qgt_bool_iff (a b : Q) : Qgt_bool a b = true <-> b < a.
Proof. apply Qlt_bool_iff. Qed.

Lemma Qgt_bool_false_iff (a b : Q) : Qgt_bool a b = false <-> a <= b.
Proof. apply Qlt_bool_false_iff. Qed.

(** Linear arithmetic over [Q] with divisions by numerals: the inverse
    of a closed constant is evaluated first. *)
Ltac is_pos_numeral p :=
  lazymatch p with
  | xH => idtac
  | xO ?q => is_pos_numeral q
  | xI ?q => is_pos_numeral q
  end.

Ltac is_Q_numeral c :=
  lazymatch c with
  | Qmake Z0 ?d => is_pos_numeral d
  | Qmake (Zpos ?n) ?d => is_pos_numeral n; is_pos_numeral d
  | Qmake (Zneg ?n) ?d => is_pos_numeral n; is_pos_numeral d
  end.

Ltac eval_inverses :=
  unfold Qdiv in *;
  repeat match goal with
         | |- context [Qinv ?c] =>
             let c' := eval vm_compute in (Qinv c) in
             is_Q_numeral c'; progress change (Qinv c) with c'
         | H : context [Qinv ?c] |- _ =>
             let c' := eval vm_compute in (Qinv c) in
             is_Q_numeral c'; progress change (Qinv c) with c' in H
         end.

Ltac qlra := eval_inverses; lra.

(** Case analysis on a JavaScript comparison, leaving the order fact
    in the context. *)
Ltac case_lt a b :=
  let E := fresh "E" in
  destruct (Qlt_bool a b) eqn:E;
  [apply Qlt_bool_iff in E | apply Qlt_bool_false_iff in E].

Lemma Effects_eqb_iff (a b : Effects) :
  Effects_eqb a b = true <-> Effects_eq a b.
Proof.
  unfold Effects_eqb, Effects_eq. rewrite forallb_forall. split.
  - intros H k. apply Qeq_bool_iff, H. destruct k; simpl; tauto.
  - intros H k _. apply Qeq_bool_iff, H.
Qed.

Lemma Effects_eq_refl (a : Effects) : Effects_eq a a.
Proof. intro k. reflexivity. Qed.

(** ** The intensity curve *)

Section IntensityCurve.

Import FadeEngine.

(** The six pieces of the curve, each with its closed form. *)
Lemma intensity_pieces (s : Q) :
  (s < 25 /\ intensity s == 0)
  \/ (25 <= s < 45 /\ intensity s == (s - 25) / 20 * 0.25)
  \/ (45 <= s < 65 /\ intensity s == 0.25 + (s - 45) / 20 * 0.35)
  \/ (65 <= s < 85 /\ intensity s == 0.60 + (s - 65) / 20 * 0.25)
  \/ (85 <= s <= 100 /\ intensity s == 0.85 + (s - 85) / 15 * 0.15)
  \/ (100 < s /\ intensity s == 1).
Proof.
  unfold intensity, raw_intensity,
    C.THRESHOLDS.LOW, C.THRESHOLDS.MODERATE, C.THRESHOLDS.HIGH,
    C.THRESHOLDS.CRITICAL.
  case_lt s 25; [left; split; [lra | reflexivity] | right].
  case_lt s 45.
  { left. split; [lra|]. apply Q.min_l. qlra. }
  right. case_lt s 65.
  { left. split; [lra|]. apply Q.min_l. qlra. }
  right. case_lt s 85.
  { left. split; [lra|]. apply Q.min_l. qlra. }
  right. destruct (Qlt_le_dec 100 s).
  - right. split; [lra|]. apply Q.min_r. qlra.
  - left. split; [lra|]. apply Q.min_l. qlra.
Qed.

(** The curve is monotone with slope at most 0.0175 (the slope of
    its steepest piece). *)
Lemma intensity_slope (x y : Q) :
  x <= y ->
  0 <= intensity y - intensity x <= 0.0175 * (y - x).
Proof.
  intro Hxy.
  destruct (intensity_pieces x) as [[Hx Ex]|[[Hx Ex]|[[Hx Ex]|[[Hx Ex]|[[Hx Ex]|[Hx Ex]]]]]];
  destruct (intensity_pieces y) as [[Hy Ey]|[[Hy Ey]|[[Hy Ey]|[[Hy Ey]|[[Hy Ey]|[Hy Ey]]]]]];
  rewrite Ex, Ey; split; qlra.
Qed.

(** Below [LOW] the neutral set that [update] assigns is the set of
    intensity 0: the target is a function of the intensity for every
    score. *)
Lemma score_target_intensity (s : Q) :
  Effects_eq (score_target s) (effects_of_intensity (intensity s)).
Proof.
  unfold score_target, intensity.
  destruct (Qlt_bool s C.THRESHOLDS.LOW).
  - intro k. destruct k; simpl; unfold C.max, C.min; simpl; lra.
  - apply Effects_eq_refl.
Qed.

End IntensityCurve.

(** C5. The intensity that [FadeEngine.update] computes for a score,
    read where [update] stores it, in the audio-intensity channel of
    the target set: it is 0, 0.25, 0.60, 0.85 and 1 at the scores 25,
    45, 65, 85 and 100; between those thresholds it is the stated
    linear segment, below 25 it is 0 and from 100 on it is 1; and it
    has no jump anywhere: two scores at distance [d] give intensities
    at distance at most [0.0175 * d], so the left and right limits at
    every boundary agree with the value there. *)
Theorem intensity_curve_anchors_and_continuity :
  forall e : FadeEngine.t,
    let intensity_at s :=
      audioIntensity (FadeEngine.targetEffects (FadeEngine.update s e)) in
    (intensity_at 25 == 0
     /\ intensity_at 45 == 0.25
     /\ intensity_at 65 == 0.60
     /\ intensity_at 85 == 0.85
     /\ intensity_at 100 == 1)
    /\ (forall s, s < 25 -> intensity_at s == 0)
    /\ (forall s, 25 <= s < 45 -> intensity_at s == (s - 25) / 20 * 0.25)
    /\ (forall s, 45 <= s < 65 ->
          intensity_at s == 0.25 + (s - 45) / 20 * 0.35)
    /\ (forall s, 65 <= s < 85 ->
          intensity_at s == 0.60 + (s - 65) / 20 * 0.25)
    /\ (forall s, 85 <= s <= 100 ->
          intensity_at s == 0.85 + (s - 85) / 15 * 0.15)
    /\ (forall s, 100 <= s -> intensity_at s == 1)
    /\ (forall x y,
          Qabs (intensity_at x - intensity_at y) <= 0.0175 * Qabs (x - y)).
Proof.
  intro e. cbv zeta.
  assert (E : forall s,
             audioIntensity (FadeEngine.targetEffects (FadeEngine.update s e))
             = FadeEngine.intensity s).
  { intro s. unfold FadeEngine.update, FadeEngine._startAnimation.
    cbn [FadeEngine.isAnimating FadeEngine.targetEffects].
    destruct (negb (FadeEngine.isAnimating e));
      cbn [FadeEngine.targetEffects];
      unfold FadeEngine.score_target, FadeEngine.intensity;
      destruct (Qlt_bool s C.THRESHOLDS.LOW); reflexivity. }
  assert (Seg : forall s,
             (s < 25 -> FadeEngine.intensity s == 0)
             /\ (25 <= s < 45 ->
                 FadeEngine.intensity s == (s - 25) / 20 * 0.25)
             /\ (45 <= s < 65 ->
                 FadeEngine.intensity s == 0.25 + (s - 45) / 20 * 0.35)
             /\ (65 <= s < 85 ->
                 FadeEngine.intensity s == 0.60 + (s - 65) / 20 * 0.25)
             /\ (85 <= s <= 100 ->
                 FadeEngine.intensity s == 0.85 + (s - 85) / 15 * 0.15)
             /\ (100 <= s -> FadeEngine.intensity s == 1)).
  { intro s.
    destruct (intensity_pieces s)
      as [[H P]|[[H P]|[[H P]|[[H P]|[[H P]|[H P]]]]]];
      repeat split; intro Hs; try lra; try exact P; rewrite P; qlra. }
  split; [| split; [| split; [| split; [| split; [| split; [| split]]]]]].
  - rewrite !E. repeat split; reflexivity.
  - intros s Hs. rewrite E. apply (Seg s), Hs.
  - intros s Hs. rewrite E. apply (Seg s), Hs.
  - intros s Hs. rewrite E. apply (Seg s), Hs.
  - intros s Hs. rewrite E. apply (Seg s), Hs.
  - intros s Hs. rewrite E. apply (Seg s), Hs.
  - intros s Hs. rewrite E. apply (Seg s), Hs.
  - intros x y. rewrite !E. destruct (Qlt_le_dec x y) as [Hxy | Hxy].
    + pose proof (intensity_slope x y ltac:(lra)) as [H1 H2].
      rewrite (Qabs_neg (FadeEngine.intensity x - FadeEngine.intensity y)) by lra.
      rewrite (Qabs_neg (x - y)) by lra. lra.
    + pose proof (intensity_slope y x Hxy) as [H1 H2].
      rewrite (Qabs_pos (FadeEngine.intensity x - FadeEngine.intensity y)) by lra.
      rewrite (Qabs_pos (x - y)) by lra. lra.
Qed.

Lemma intensity_curve_anchors_and_continuity_witness :
  audioIntensity
    (FadeEngine.targetEffects (FadeEngine.update 30 FadeEngine.constructor))
  == (30 - 25) / 20 * 0.25.
Proof.
  destruct (intensity_curve_anchors_and_continuity FadeEngine.constructor)
    as (_ & _ & Hseg & _).
  apply (Hseg 30). split; [discriminate | reflexivity].
Defined.

(** ** The animation step *)

Section AnimationStep.

Import FadeEngine.

(** The two branches of the loop body of [step]. *)
Lemma step_channel_lerp (target current : Q) :
  0.001 < Qabs (target - current) ->
  step_channel target current
  = (current + (target - current) * lerp, true).
Proof.
  intro H. unfold step_channel.
  apply Qgt_bool_iff in H. rewrite H. reflexivity.
Qed.

Lemma step_channel_snap (target current : Q) :
  Qabs (target - current) <= 0.001 ->
  step_channel target current = (target, false).
Proof.
  intro H. unfold step_channel.
  apply Qgt_bool_false_iff in H. rewrite H. reflexivity.
Qed.

Lemma step_channel_cases (target current : Q) :
  (0.001 < Qabs (target - current)
   /\ step_channel target current
      = (current + (target - current) * lerp, true))
  \/ (Qabs (target - current) <= 0.001
      /\ step_channel target current = (target, false)).
Proof.
  destruct (Qlt_le_dec 0.001 (Qabs (target - current))) as [H | H].
  - left. split; [exact H | apply step_channel_lerp, H].
  - right. split; [exact H | apply step_channel_snap, H].
Qed.

(** [step] acts on each channel by [step_channel] and leaves the
    target alone. *)
Lemma step_get (e : t) (k : Channel) :
  get k (currentEffects (step e))
  = fst (step_channel (get k (targetEffects e)) (get k (currentEffects e))).
Proof. destruct k; reflexivity. Qed.

Lemma step_target (e : t) : targetEffects (step e) = targetEffects e.
Proof. reflexivity. Qed.

Lemma steps_target (n : nat) (e : t) :
  targetEffects (steps n e) = targetEffects e.
Proof.
  induction n as [| n IH]; [reflexivity |].
  change (steps (S n) e) with (step (steps n e)).
  rewrite step_target. exact IH.
Qed.

Lemma steps_get (n : nat) (e : t) (k : Channel) :
  get k (currentEffects (steps n e))
  = channel_after n (get k (targetEffects e)) (get k (currentEffects e)).
Proof.
  induction n as [| n IH]; [reflexivity |].
  change (steps (S n) e) with (step (steps n e)).
  rewrite step_get, steps_target, IH. reflexivity.
Qed.

(** One step stays between the old value and the target. *)
Lemma step_channel_between (target current : Q) :
  Qmin current target <= fst (step_channel target current)
                      <= Qmax current target.
Proof.
  pose proof (Q.le_min_l current target).
  pose proof (Q.le_min_r current target).
  pose proof (Q.le_max_l current target).
  pose proof (Q.le_max_r current target).
  destruct (step_channel_cases target current) as [[_ E] | [_ E]];
    rewrite E; simpl; [| split; assumption].
  unfold lerp.
  destruct (Q.min_spec current target) as [[? Emin] | [? Emin]];
    destruct (Q.max_spec current target) as [[? Emax] | [? Emax]];
    rewrite Emin, Emax; split; lra.
Qed.

Lemma step_channel_in_interval (lo hi target current : Q) :
  lo <= current <= hi -> lo <= target <= hi ->
  lo <= fst (step_channel target current) <= hi.
Proof.
  intros Hc Ht.
  pose proof (step_channel_between target current) as [H1 H2].
  assert (lo <= Qmin current target) by (apply Q.min_glb; lra).
  assert (Qmax current target <= hi) by (apply Q.max_lub; lra).
  split; lra.
Qed.

Lemma channel_after_in_interval (n : nat) (lo hi target current : Q) :
  lo <= current <= hi -> lo <= target <= hi ->
  lo <= channel_after n target current <= hi.
Proof.
  intros Hc Ht. induction n as [| n IH]; [exact Hc |].
  change (channel_after (S n) target current)
    with (fst (step_channel target (channel_after n target current))).
  apply step_channel_in_interval; assumption.
Qed.

(** Only the snap branch lands on the target. *)
Lemma step_channel_hits_only_by_snap (target current : Q) :
  fst (step_channel target current) == target ->
  snd (step_channel target current) = false.
Proof.
  destruct (step_channel_cases target current) as [[H E] | [_ E]];
    rewrite E; simpl; [| reflexivity].
  intro Heq. exfalso. unfold lerp in Heq.
  assert (D : target - current == 0) by lra.
  rewrite D in H. discriminate H.
Qed.

End AnimationStep.

(** C10. One animation step never crosses the target: on every
    channel the new current value lies between the old current value
    and the target, and it equals the target only when the snap branch
    ran.  So a closed interval that holds a channel's current and
    target values holds its current value after any number of steps
    towards that target. *)
Theorem animation_step_never_overshoots :
  (forall target current,
      Qmin current target <= fst (FadeEngine.step_channel target current)
                          <= Qmax current target
      /\ (fst (FadeEngine.step_channel target current) == target ->
          snd (FadeEngine.step_channel target current) = false))
  /\ (forall e k,
        let current := get k (FadeEngine.currentEffects e) in
        let target := get k (FadeEngine.targetEffects e) in
        Qmin current target
          <= get k (FadeEngine.currentEffects (FadeEngine.step e))
          <= Qmax current target)
  /\ (forall e k lo hi n,
        lo <= get k (FadeEngine.currentEffects e) <= hi ->
        lo <= get k (FadeEngine.targetEffects e) <= hi ->
        lo <= get k (FadeEngine.currentEffects (FadeEngine.steps n e)) <= hi).
Proof.
  split; [| split].
  - intros target current. split.
    + apply step_channel_between.
    + apply step_channel_hits_only_by_snap.
  - intros e k current target. rewrite step_get.
    apply step_channel_between.
  - intros e k lo hi n Hc Ht. rewrite steps_get.
    apply channel_after_in_interval; assumption.
Qed.

Lemma animation_step_never_overshoots_witness :
  0.2 <= get Saturation
           (FadeEngine.currentEffects
              (FadeEngine.steps 3
                 (FadeEngine.update 100 FadeEngine.constructor))) <= 1.
Proof.
  destruct animation_step_never_overshoots as (_ & _ & H).
  apply H; vm_compute; split; discriminate.
Defined.

(** ** Convergence of the animation *)

Section Convergence.

Import FadeEngine.

(** While a channel is further than 0.001 from its target, a step
    multiplies the distance by 0.94. *)
Lemma step_channel_contracts (target current : Q) :
  0.001 < Qabs (target - current) ->
  Qabs (target - fst (step_channel target current))
  == 0.94 * Qabs (target - current)
  /\ Qabs (target - fst (step_channel target current))
     < Qabs (target - current).
Proof.
  intro H. rewrite (step_channel_lerp _ _ H). cbn [fst]. unfold lerp.
  assert (E : target - (current + (target - current) * 0.06)
              == 0.94 * (target - current)) by ring.
  rewrite E, Qabs_Qmult.
  assert (E94 : Qabs 0.94 == 0.94) by reflexivity.
  rewrite E94. split; [reflexivity | lra].
Qed.

Lemma step_channel_at_target (target : Q) :
  step_channel target target = (target, false).
Proof.
  apply step_channel_snap.
  assert (E : target - target == 0) by ring.
  rewrite E. discriminate.
Qed.

Lemma channel_after_at_target (n : nat) (target : Q) :
  channel_after n target target = target.
Proof.
  induction n as [| n IH]; [reflexivity |].
  change (channel_after (S n) target target)
    with (fst (step_channel target (channel_after n target target))).
  rewrite IH, step_channel_at_target. reflexivity.
Qed.

Lemma channel_after_succ_r (n : nat) (target current : Q) :
  channel_after (S n) target current
  = channel_after n target (fst (step_channel target current)).
Proof. unfold channel_after. apply Nat.iter_succ_r. Qed.

Lemma channel_after_add (m n : nat) (target current : Q) :
  channel_after (m + n) target current
  = channel_after m target (channel_after n target current).
Proof. unfold channel_after. apply Nat.iter_add. Qed.

(** Once [0.94 ^ k] times the initial distance is at most 0.001, the
    step after the [k]-th one snaps. *)
Lemma channel_after_snaps (k : nat) :
  forall target current,
    Qpow 0.94 k * Qabs (target - current) <= 0.001 ->
    channel_after (S k) target current = target.
Proof.
  induction k as [| k IH]; intros target current H.
  - cbn [Qpow] in H.
    change (channel_after 1 target current)
      with (fst (step_channel target current)).
    rewrite step_channel_snap by lra. reflexivity.
  - rewrite channel_after_succ_r.
    destruct (step_channel_cases target current) as [[Hd E] | [Hd E]].
    + apply IH.
      destruct (step_channel_contracts target current Hd) as [Ec _].
      rewrite Ec. cbn [Qpow] in H. lra.
    + rewrite E. cbn [fst]. apply channel_after_at_target.
Qed.

Lemma channel_after_stays (k n : nat) (target current : Q) :
  Qpow 0.94 k * Qabs (target - current) <= 0.001 ->
  (k + 1 <= n)%nat ->
  channel_after n target current = target.
Proof.
  intros H Hn.
  replace n with ((n - S k) + S k)%nat by lia.
  rewrite channel_after_add, (channel_after_snaps k _ _ H).
  apply channel_after_at_target.
Qed.

(** *** The logarithmic bound *)

Lemma Rceil_ge (x : R) : (x <= IZR (Rceil x))%R.
Proof.
  unfold Rceil. destruct (base_Int_part (- x)) as [H1 H2].
  rewrite opp_IZR. lra.
Qed.

Lemma Rceil_lt (x : R) : (IZR (Rceil x) < x + 1)%R.
Proof.
  unfold Rceil. destruct (base_Int_part (- x)) as [H1 H2].
  rewrite opp_IZR. lra.
Qed.

Lemma Rceil_unique (x : R) (z : Z) :
  (IZR z - 1 < x <= IZR z)%R -> Rceil x = z.
Proof.
  intros [H1 H2].
  pose proof (Rceil_ge x) as G. pose proof (Rceil_lt x) as L.
  assert (A : (Rceil x < z + 1)%Z).
  { apply lt_IZR. rewrite plus_IZR. lra. }
  assert (B : (z < Rceil x + 1)%Z).
  { apply lt_IZR. rewrite plus_IZR. lra. }
  lia.
Qed.

Lemma Q2R_Qpow (q : Q) (n : nat) : Q2R (Qpow q n) = (Q2R q ^ n)%R.
Proof.
  induction n as [| n IH]; simpl.
  - unfold Q2R. simpl. lra.
  - rewrite Q2R_mult, IH. reflexivity.
Qed.

Lemma ln_inv_094_pos : (0 < ln (1 / 0.94))%R.
Proof.
  rewrite <- ln_1. apply ln_increasing; lra.
Qed.

(** After [ticks_bound d] steps, a distance [d] has shrunk to at most
    0.001. *)
Lemma ticks_bound_decay (d : Q) :
  0.001 < d -> Qpow 0.94 (ticks_bound d) * d <= 0.001.
Proof.
  intro Hd. apply Rle_Qle.
  rewrite Q2R_mult, Q2R_Qpow.
  apply Qlt_Rlt in Hd.
  set (r := Q2R d) in *. unfold ticks_bound. fold r.
  set (x := (ln (r / 0.001) / ln (1 / 0.94))%R).
  set (N := Z.to_nat (Rceil x)).
  pose proof ln_inv_094_pos as Hpos.
  assert (Hx : (x <= INR N)%R).
  { pose proof (Rceil_ge x) as G. unfold N.
    rewrite INR_IZR_INZ.
    apply Rle_trans with (1 := G). apply IZR_le. lia. }
  assert (Hln : (ln (r / 0.001) <= INR N * ln (1 / 0.94))%R).
  { unfold x in Hx.
    apply Rmult_le_compat_r with (r := ln (1 / 0.94)%R) in Hx; [| lra].
    unfold Rdiv at 1 in Hx. rewrite Rmult_assoc, Rinv_l in Hx; lra. }
  rewrite <- ln_pow in Hln by lra.
  assert (Hpow : (r / 0.001 <= (1 / 0.94) ^ N)%R).
  { destruct (Rle_lt_dec (r / 0.001) ((1 / 0.94) ^ N)) as [Hle | Hlt];
      [exact Hle | exfalso].
    apply ln_increasing in Hlt; [lra |].
    apply pow_lt. lra. }
  assert (Hinv : ((1 / 0.94) ^ N * 0.94 ^ N = 1)%R).
  { rewrite <- Rpow_mult_distr.
    replace (1 / 0.94 * 0.94)%R with 1%R by lra. apply pow1. }
  assert (P : (0 < 0.94 ^ N)%R) by (apply pow_lt; lra).
  assert (Hr : (r <= 0.001 * (1 / 0.94) ^ N)%R) by lra.
  apply Rmult_le_compat_l with (r := (0.94 ^ N)%R) in Hr; [| lra].
  replace (0.94 ^ N * (0.001 * (1 / 0.94) ^ N))%R
    with (0.001 * ((1 / 0.94) ^ N * 0.94 ^ N))%R in Hr by ring.
  rewrite Hinv in Hr. lra.
Qed.

(** The step that follows the bound snaps, from any distance. *)
Lemma channel_after_bound (target current : Q) (n : nat) :
  (ticks_bound (Qabs (target - current)) + 1 <= n)%nat ->
  channel_after n target current = target.
Proof.
  intro Hn.
  destruct (Qlt_le_dec 0.001 (Qabs (target - current))) as [Hd | Hd].
  - apply (channel_after_stays
             (ticks_bound (Qabs (target - current)))); [| exact Hn].
    apply ticks_bound_decay, Hd.
  - apply (channel_after_stays 0); [cbn [Qpow]; lra | lia].
Qed.

End Convergence.

(** ** The animation loop stops *)

Section LoopStops.

Import FadeEngine.

Lemma Qpow_nonneg (n : nat) : 0 <= Qpow 0.94 n.
Proof.
  induction n as [| n IH]; cbn [Qpow]; [discriminate |].
  apply Qmult_le_0_compat; [discriminate | exact IH].
Qed.

Lemma Qpow_decreasing (k n : nat) :
  (k <= n)%nat -> Qpow 0.94 n <= Qpow 0.94 k.
Proof.
  induction 1 as [| n _ IH]; [apply Qle_refl |].
  cbn [Qpow]. pose proof (Qpow_nonneg n). lra.
Qed.

(** After [n] steps the distance is at most [0.94 ^ n] times the
    initial one. *)
Lemma channel_after_distance (n : nat) (target current : Q) :
  Qabs (target - channel_after n target current)
  <= Qpow 0.94 n * Qabs (target - current).
Proof.
  induction n as [| n IH].
  - cbn [Qpow]. change (channel_after 0 target current) with current. lra.
  - change (channel_after (S n) target current)
      with (fst (step_channel target (channel_after n target current))).
    set (c := channel_after n target current) in *.
    destruct (step_channel_cases target c) as [[Hd E] | [Hd E]].
    + destruct (step_channel_contracts target c Hd) as [Ec _].
      rewrite Ec. cbn [Qpow]. lra.
    + rewrite E. cbn [fst].
      assert (Z0 : target - target == 0) by ring.
      rewrite Z0.
      apply Qmult_le_0_compat; [apply Qpow_nonneg | apply Qabs_nonneg].
  Qed.

Lemma step_isAnimating_false (e : t) :
  (forall k, distance k e <= 0.001) ->
  isAnimating (step e) = false
  /\ forall k, get k (currentEffects (step e)) = get k (targetEffects e).
Proof.
  intro H. split.
  - unfold step. cbn [isAnimating]. apply not_true_is_false.
    intro Hex. apply existsb_exists in Hex. destruct Hex as (k & _ & Hk).
    rewrite (step_channel_snap _ _ (H k)) in Hk. discriminate Hk.
  - intro k. rewrite step_get, (step_channel_snap _ _ (H k)). reflexivity.
Qed.

Lemma step_isAnimating_true (e : t) (k : Channel) :
  0.001 < distance k e -> isAnimating (step e) = true.
Proof.
  intro H. unfold step. cbn [isAnimating]. apply existsb_exists.
  exists k. split; [destruct k; simpl; tauto |].
  rewrite (step_channel_lerp _ _ H). reflexivity.
Qed.

Lemma step_isAnimating_false_inv (e : t) :
  isAnimating (step e) = false -> forall k, distance k e <= 0.001.
Proof.
  intros H k.
  destruct (Qlt_le_dec 0.001 (distance k e)) as [Hd | Hd]; [| exact Hd].
  rewrite (step_isAnimating_true e k Hd) in H. discriminate H.
Qed.

Lemma frame_target (e : t) : targetEffects (frame e) = targetEffects e.
Proof. unfold frame. destruct (isAnimating e); reflexivity. Qed.

Lemma frames_target (n : nat) (e : t) :
  targetEffects (frames n e) = targetEffects e.
Proof.
  induction n as [| n IH]; [reflexivity |].
  change (frames (S n) e) with (frame (frames n e)).
  rewrite frame_target. exact IH.
Qed.

(** The loop follows the channel-wise iteration, and once it has
    stopped every channel is on its target. *)
Lemma frames_channels (e : t) (n : nat) :
  isAnimating e = true ->
  (forall k, get k (currentEffects (frames n e))
             = channel_after n (get k (targetEffects e))
                             (get k (currentEffects e)))
  /\ (isAnimating (frames n e) = false ->
      forall k, get k (currentEffects (frames n e))
                = get k (targetEffects e)).
Proof.
  intro Hstart. induction n as [| n [IHc IHs]].
  - split; [reflexivity |].
    change (frames 0 e) with e. congruence.
  - change (frames (S n) e) with (frame (frames n e)).
    assert (Hc : forall k,
               get k (currentEffects (frame (frames n e)))
               = channel_after (S n) (get k (targetEffects e))
                               (get k (currentEffects e))).
    { intro k.
      change (channel_after (S n) (get k (targetEffects e))
                            (get k (currentEffects e)))
        with (fst (step_channel (get k (targetEffects e))
                     (channel_after n (get k (targetEffects e))
                                    (get k (currentEffects e))))).
      rewrite <- IHc. unfold frame.
      destruct (isAnimating (frames n e)) eqn:A.
      - rewrite step_get, frames_target. reflexivity.
      - rewrite (IHs eq_refl k), step_channel_at_target. reflexivity. }
    split; [exact Hc |].
    unfold frame in *. destruct (isAnimating (frames n e)) eqn:A.
    + intros Hstop k.
      destruct (step_isAnimating_false (frames n e)
                  (step_isAnimating_false_inv _ Hstop)) as [_ Hk].
      rewrite Hk, frames_target. reflexivity.
    + intros _. apply IHs. reflexivity.
Qed.

(** The loop has stopped, with every channel exactly on its target,
    after one frame more than the largest channel bound. *)
Lemma frames_stop (e : t) (n : nat) :
  isAnimating e = true ->
  (forall k, (ticks_bound (distance k e) + 1 <= n)%nat) ->
  isAnimating (frames n e) = false
  /\ forall k, get k (currentEffects (frames n e))
               = get k (targetEffects e).
Proof.
  intros Hstart Hn.
  assert (Hcur : forall k, get k (currentEffects (frames n e))
                           = get k (targetEffects e)).
  { intro k. rewrite (proj1 (frames_channels e n Hstart) k).
    apply channel_after_bound, Hn. }
  split; [| exact Hcur].
  destruct n as [| n]; [specialize (Hn Grayscale); lia |].
  change (frames (S n) e) with (frame (frames n e)).
  unfold frame. destruct (isAnimating (frames n e)) eqn:A; [| exact A].
  apply step_isAnimating_false. intro k. unfold distance.
  rewrite frames_target, (proj1 (frames_channels e n Hstart) k).
  specialize (Hn k).
  destruct (Qlt_le_dec 0.001 (distance k e)) as [Hd | Hd].
  - apply Qle_trans with (1 := channel_after_distance n _ _).
    apply Qle_trans
      with (Qpow 0.94 (ticks_bound (distance k e)) * distance k e).
    + apply Qmult_le_compat_r; [| apply Qabs_nonneg].
      apply Qpow_decreasing. lia.
    + apply ticks_bound_decay, Hd.
  - apply Qle_trans with (1 := channel_after_distance n _ _).
    pose proof (Qpow_decreasing 0 n ltac:(lia)) as P. cbn [Qpow] in P.
    pose proof (Qpow_nonneg n). pose proof (Qabs_nonneg
      (get k (targetEffects e) - get k (currentEffects e))).
    unfold distance in Hd.
    apply Qle_trans
      with (1 * Qabs (get k (targetEffects e) - get k (currentEffects e)));
      [apply Qmult_le_compat_r; assumption | lra].
Qed.

End LoopStops.

(** ** The bound without the extra step is never enough *)

Section BoundIsTight.

Import FadeEngine.

Lemma Qpow_pos (n : nat) : 0 < Qpow 0.94 n.
Proof.
  induction n as [| n IH]; cbn [Qpow]; [reflexivity | lra].
Qed.

(** As long as the decayed distance is above 0.001, every step is an
    interpolation step. *)
Lemma channel_after_lerps (n : nat) (target current : Q) :
  (forall j, (j < n)%nat ->
             0.001 < Qpow 0.94 j * Qabs (target - current)) ->
  Qabs (target - channel_after n target current)
  == Qpow 0.94 n * Qabs (target - current).
Proof.
  induction n as [| n IH]; intro H.
  - change (channel_after 0 target current) with current.
    cbn [Qpow]. ring.
  - change (channel_after (S n) target current)
      with (fst (step_channel target (channel_after n target current))).
    assert (E : Qabs (target - channel_after n target current)
                == Qpow 0.94 n * Qabs (target - current))
      by (apply IH; intros j Hj; apply H; lia).
    assert (Hd : 0.001 < Qabs (target - channel_after n target current))
      by (rewrite E; apply H; lia).
    destruct (step_channel_contracts _ _ Hd) as [Ec _].
    rewrite Ec, E. cbn [Qpow]. ring.
Qed.

(** Before the bound, the decayed distance is above 0.001. *)
Lemma before_ticks_bound (d : Q) (j : nat) :
  0.001 < d -> (j < ticks_bound d)%nat -> 0.001 < Qpow 0.94 j * d.
Proof.
  intros Hd Hj. apply Rlt_Qlt. rewrite Q2R_mult, Q2R_Qpow.
  apply Qlt_Rlt in Hd.
  set (r := Q2R d) in *. unfold ticks_bound in Hj. fold r in Hj.
  set (x := (ln (r / 0.001) / ln (1 / 0.94))%R) in *.
  pose proof ln_inv_094_pos as Hpos.
  assert (Hx : (INR j < x)%R).
  { pose proof (Rceil_lt x) as L.
    assert (Hz : (Z.of_nat j + 1 <= Rceil x)%Z) by lia.
    apply IZR_le in Hz. rewrite plus_IZR, <- INR_IZR_INZ in Hz. lra. }
  assert (Hln : (INR j * ln (1 / 0.94) < ln (r / 0.001))%R).
  { unfold x in Hx.
    apply Rmult_lt_compat_r with (r := ln (1 / 0.94)%R) in Hx; [| lra].
    unfold Rdiv at 2 in Hx. rewrite Rmult_assoc, Rinv_l in Hx; lra. }
  rewrite <- ln_pow in Hln by lra.
  apply ln_lt_inv in Hln; [| apply pow_lt; lra | lra].
  assert (Hinv : ((1 / 0.94) ^ j * 0.94 ^ j = 1)%R).
  { rewrite <- Rpow_mult_distr.
    replace (1 / 0.94 * 0.94)%R with 1%R by lra. apply pow1. }
  assert (P : (0 < 0.94 ^ j)%R) by (apply pow_lt; lra).
  assert (Hr : (0.001 * (1 / 0.94) ^ j < r)%R) by lra.
  apply Rmult_lt_compat_l with (r := (0.94 ^ j)%R) in Hr; [| lra].
  replace (0.94 ^ j * (0.001 * (1 / 0.94) ^ j))%R
    with (0.001 * ((1 / 0.94) ^ j * 0.94 ^ j))%R in Hr by ring.
  rewrite Hinv in Hr. lra.
Qed.

(** From every distance above 0.001, the channel is not yet on the
    target after [ceil(log(d / 0.001) / log(1 / 0.94))] steps: the
    bound with the extra step is exact. *)
Lemma ticks_bound_one_short (target current : Q) :
  0.001 < Qabs (target - current) ->
  ~ channel_after (ticks_bound (Qabs (target - current))) target current
    == target.
Proof.
  intros Hd Heq.
  pose proof (channel_after_lerps
                (ticks_bound (Qabs (target - current))) target current
                (fun j Hj => before_ticks_bound _ j Hd Hj)) as E.
  rewrite Heq in E.
  assert (Z0 : Qabs (target - target) == 0).
  { assert (D : target - target == 0) by ring. rewrite D. reflexivity. }
  pose proof (Qpow_pos (ticks_bound (Qabs (target - current)))) as P.
  assert (0 < Qpow 0.94 (ticks_bound (Qabs (target - current)))
              * Qabs (target - current)).
  { apply Qmult_lt_0_compat; [exact P | lra]. }
  lra.
Qed.

End BoundIsTight.

(** C7 (as amended). While a channel is further than 0.001 from a
    fixed target, every animation step multiplies its distance by
    0.94, so the distance strictly decreases; the channel is exactly
    on the target after [ceil(log(d / 0.001) / log(1 / 0.94)) + 1]
    steps, [d] being the initial distance, and stays there; it is not
    yet on the target after [ceil(log(d / 0.001) / log(1 / 0.94))]
    steps: the bound itself only brings the distance under 0.001, the
    snap is the step after.  A running loop has stopped, with every channel on its
    target, after one frame more than the largest channel bound; a
    stopped loop ignores frames; the next [update] or [reset] starts
    it again. *)
Theorem convergence_one_step_after_bound :
  (forall target current,
      0.001 < Qabs (target - current) ->
      Qabs (target - fst (FadeEngine.step_channel target current))
      == 0.94 * Qabs (target - current)
      /\ Qabs (target - fst (FadeEngine.step_channel target current))
         < Qabs (target - current))
  /\ (forall target current n,
        (FadeEngine.ticks_bound (Qabs (target - current)) + 1 <= n)%nat ->
        FadeEngine.channel_after n target current = target)
  /\ (forall target current,
        0.001 < Qabs (target - current) ->
        ~ FadeEngine.channel_after
            (FadeEngine.ticks_bound (Qabs (target - current))) target current
          == target)
  /\ (forall e n,
        FadeEngine.isAnimating e = true ->
        (forall k, (FadeEngine.ticks_bound (FadeEngine.distance k e) + 1
                    <= n)%nat) ->
        FadeEngine.isAnimating (FadeEngine.frames n e) = false
        /\ forall k, get k (FadeEngine.currentEffects (FadeEngine.frames n e))
                     = get k (FadeEngine.targetEffects e))
  /\ (forall e, FadeEngine.isAnimating e = false -> FadeEngine.frame e = e)
  /\ (forall e s,
        FadeEngine.isAnimating (FadeEngine.update s e) = true
        /\ FadeEngine.isAnimating (FadeEngine.reset e) = true).
Proof.
  split; [| split; [| split; [| split; [| split]]]].
  - apply step_channel_contracts.
  - apply channel_after_bound.
  - apply ticks_bound_one_short.
  - apply frames_stop.
  - intros e H. unfold FadeEngine.frame. rewrite H. reflexivity.
  - intros e s. unfold FadeEngine.update, FadeEngine.reset.
    cbn [FadeEngine.isAnimating].
    destruct (FadeEngine.isAnimating e); split; reflexivity.
Qed.

Lemma convergence_one_step_after_bound_witness :
  Qabs (1 - fst (FadeEngine.step_channel 1 0)) < Qabs (1 - 0)
  /\ FadeEngine.channel_after
       (FadeEngine.ticks_bound (Qabs (0.00105 - 0)) + 1) 0.00105 0
     = 0.00105
  /\ FadeEngine.frame FadeEngine.constructor = FadeEngine.constructor.
Proof.
  destruct convergence_one_step_after_bound as (H1 & H2 & _ & _ & H4 & _).
  split; [| split].
  - apply (H1 1 0). reflexivity.
  - apply (H2 0.00105 0). apply le_n.
  - apply (H4 FadeEngine.constructor). reflexivity.
Defined.

(** The bound of the claim for a channel at 0 with target 0.00105 is
    one step. *)
Lemma ticks_bound_small : FadeEngine.ticks_bound (Qabs (0.00105 - 0)) = 1%nat.
Proof.
  unfold FadeEngine.ticks_bound.
  assert (E : Q2R (Qabs (0.00105 - 0)) = 0.00105%R)
    by (apply Qeq_eqR; reflexivity).
  rewrite E.
  replace (0.00105 / 0.001)%R with 1.05%R by lra.
  pose proof ln_inv_094_pos as Hpos.
  assert (L0 : (0 < ln 1.05)%R).
  { rewrite <- ln_1. apply ln_increasing; lra. }
  assert (L1 : (ln 1.05 < ln (1 / 0.94))%R).
  { apply ln_increasing; lra. }
  rewrite (Rceil_unique _ 1); [reflexivity |].
  split.
  - replace (1 - 1)%R with 0%R by lra.
    apply Rdiv_lt_0_compat; assumption.
  - apply Rlt_le.
    apply (Rmult_lt_reg_r (ln (1 / 0.94))); [exact Hpos |].
    unfold Rdiv at 1. rewrite Rmult_assoc, Rinv_l; lra.
Qed.

(** C7, counterexample.  A channel at 0 with target 0.00105 is further
    than 0.001 from the target; the claimed bound is 1 step; after 1
    step the channel is at 0.000063, not on the target. *)
Lemma convergence_bound_counterexample :
  0.001 < Qabs (0.00105 - 0)
  /\ ~ FadeEngine.channel_after
         (FadeEngine.ticks_bound (Qabs (0.00105 - 0))) 0.00105 0
       == 0.00105.
Proof.
  split; [reflexivity |].
  rewrite ticks_bound_small. intro H. vm_compute in H. discriminate H.
Qed.

(** ** The breathe override *)

Section Breathe.

Import FadeEngine Page.

Lemma run_app (evs1 evs2 : list Event) (p : Page.t) :
  run (evs1 ++ evs2) p = run evs2 (run evs1 p).
Proof. unfold run. apply fold_left_app. Qed.

Lemma run_cons (ev : Event) (evs : list Event) (p : Page.t) :
  run (ev :: evs) p = run evs (handle p ev).
Proof. reflexivity. Qed.

(** A wait that ends before the timer is due fires nothing. *)
Lemma fire_due_pending (e : FadeEngine.t) (clock due : Z) (saved : Effects) :
  (clock < due)%Z ->
  fire_due (Page.mk e clock [(due, saved)]) = Page.mk e clock [(due, saved)].
Proof.
  intro H. unfold fire_due, is_due. cbn.
  destruct (Z.leb_spec due clock); [lia | reflexivity].
Qed.

(** A wait that reaches the due time runs the callback. *)
Lemma fire_due_fires (e : FadeEngine.t) (clock due : Z) (saved : Effects) :
  (due <= clock)%Z ->
  fire_due (Page.mk e clock [(due, saved)])
  = Page.mk (breathe_timeout saved e) clock [].
Proof.
  intro H. unfold fire_due, is_due. cbn.
  destruct (Z.leb_spec due clock); [reflexivity | lia].
Qed.

(** While the single timer is pending: it stays pending, the flag
    stays up, and the target moves only by [update] and [reset]. *)
Lemma run_while_pending (evs : list Event) :
  forall (p : Page.t) (due : Z) (saved : Effects),
    timers p = [(due, saved)] ->
    (now p + elapsed evs < due)%Z ->
    forallb not_breathe evs = true ->
    timers (run evs p) = [(due, saved)]
    /\ now (run evs p) = (now p + elapsed evs)%Z
    /\ breatheMode (engine (run evs p)) = breatheMode (engine p)
    /\ (forallb quiet evs = true ->
        targetEffects (engine (run evs p)) = targetEffects (engine p)).
Proof.
  induction evs as [| ev evs IH]; intros p due saved Ht Hnow Hnb.
  - change (run [] p) with p. cbn [elapsed].
    split; [exact Ht | split; [lia | split; reflexivity]].
  - rewrite run_cons. cbn [forallb] in Hnb.
    apply andb_true_iff in Hnb. destruct Hnb as [Hev Hnb].
    destruct p as [e clock tms]. cbn [timers now engine] in *. subst tms.
    destruct ev as [s | | | | ms]; cbn [handle engine now timers];
      try discriminate Hev.
    + (* Update *)
      cbn [elapsed] in Hnow.
      destruct (IH (Page.mk (update s e) clock [(due, saved)]) due saved
                  eq_refl Hnow Hnb) as (I1 & I2 & I3 & _).
      cbn [timers now engine] in *.
      repeat split; [exact I1 | exact I2 | |].
      * rewrite I3. unfold update. cbn [isAnimating].
        destruct (negb (isAnimating e)); reflexivity.
      * cbn [forallb quiet touches_target negb andb]. discriminate.
    + (* Reset *)
      cbn [elapsed] in Hnow.
      destruct (IH (Page.mk (reset e) clock [(due, saved)]) due saved
                  eq_refl Hnow Hnb) as (I1 & I2 & I3 & _).
      cbn [timers now engine] in *.
      repeat split; [exact I1 | exact I2 | |].
      * rewrite I3. unfold reset. cbn [isAnimating].
        destruct (negb (isAnimating e)); reflexivity.
      * cbn [forallb quiet touches_target negb andb]. discriminate.
    + (* Frame *)
      cbn [elapsed] in Hnow.
      destruct (IH (Page.mk (frame e) clock [(due, saved)]) due saved
                  eq_refl Hnow Hnb) as (I1 & I2 & I3 & I4).
      cbn [timers now engine] in *.
      repeat split; [exact I1 | exact I2 | |].
      * rewrite I3. unfold frame, step.
        destruct (isAnimating e); reflexivity.
      * intro Hq. cbn [forallb quiet touches_target negb andb] in Hq.
        rewrite (I4 Hq). apply frame_target.
    + (* Wait *)
      cbn [elapsed] in Hnow.
      pose proof (Z.le_max_l 0 ms) as Hmax.
      assert (Hel : (0 <= elapsed evs)%Z).
      { clear. induction evs as [| [ | | | | ?] ? ?]; cbn [elapsed]; lia. }
      rewrite fire_due_pending by lia.
      destruct (IH (Page.mk e (clock + Z.max 0 ms)%Z [(due, saved)])
                  due saved eq_refl ltac:(cbn [now]; lia) Hnb)
        as (I1 & I2 & I3 & I4).
      cbn [timers now engine] in *.
      cbn [elapsed].
      repeat split; [exact I1 | rewrite I2; lia | exact I3 |].
      intro Hq. cbn [forallb quiet touches_target negb andb] in Hq.
      exact (I4 Hq).
Qed.

End Breathe.

(** C1 (as amended). [breathe()] at once replaces the six target
    channels by the calming state (grayscale 0.6, saturation 0.4,
    brightness 0.85, blur 0.8, playbackRate 0.9, audioIntensity 0.5)
    and raises [breatheMode]; the flag stays up and the timer stays
    pending for the 5000 ms that follow, and the target stays the
    calming state as long as no [update] or [reset] runs.  When the
    5000 ms have elapsed the target is the copy saved at trigger time,
    whatever scores arrived in between, and [breatheMode] is down;
    from then on every [update] sets the score-driven target. *)
Theorem breathe_restores_target_saved_at_trigger :
  forall (e : FadeEngine.t) (start : Z) (evs : list Page.Event) (ms : Z),
    forallb Page.not_breathe evs = true ->
    (Page.elapsed evs < 5000)%Z ->
    (5000 <= Page.elapsed evs + ms)%Z ->
    let triggered := Page.run [Page.Breathe] (Page.load e start) in
    let during := Page.run (Page.Breathe :: evs) (Page.load e start) in
    let after :=
      Page.run (Page.Breathe :: evs ++ [Page.Wait ms]) (Page.load e start) in
    (FadeEngine.targetEffects (Page.engine triggered) = calming
     /\ FadeEngine.breatheMode (Page.engine triggered) = true)
    /\ (FadeEngine.breatheMode (Page.engine during) = true
        /\ Page.timers during
           = [((start + 5000)%Z, FadeEngine.targetEffects e)]
        /\ (forallb Page.quiet evs = true ->
            FadeEngine.targetEffects (Page.engine during) = calming))
    /\ (FadeEngine.targetEffects (Page.engine after)
        = FadeEngine.targetEffects e
        /\ FadeEngine.breatheMode (Page.engine after) = false
        /\ Page.timers after = [])
    /\ (forall s,
          FadeEngine.targetEffects
            (Page.engine (Page.handle after (Page.Update s)))
          = FadeEngine.score_target s).
Proof.
  intros e start evs ms Hnb Hlt Hge triggered during after.
  set (p0 := Page.handle (Page.load e start) Page.Breathe).
  assert (Hp0 : p0 = Page.mk (fst (FadeEngine.breathe e)) start
                       [((start + 5000)%Z, FadeEngine.targetEffects e)])
    by reflexivity.
  destruct (run_while_pending evs p0 (start + 5000)%Z
              (FadeEngine.targetEffects e))
    as (I1 & I2 & I3 & I4);
    [rewrite Hp0; reflexivity | rewrite Hp0; cbn [Page.now]; lia
    | exact Hnb |].
  assert (Hduring : during = Page.run evs p0) by reflexivity.
  assert (Hafter : after = Page.handle (Page.run evs p0) (Page.Wait ms)).
  { unfold after. rewrite run_cons, run_app. reflexivity. }
  split; [split; reflexivity |].
  split.
  { rewrite Hduring. split; [rewrite I3; reflexivity |].
    split; [exact I1 |]. intro Hq. rewrite (I4 Hq). reflexivity. }
  assert (Hfire :
            after = Page.mk (FadeEngine.breathe_timeout
                               (FadeEngine.targetEffects e)
                               (Page.engine (Page.run evs p0)))
                            (Page.now (Page.run evs p0) + Z.max 0 ms)%Z []).
  { rewrite Hafter.
    destruct (Page.run evs p0) as [e1 clock tms].
    cbn [Page.timers Page.now Page.engine] in *. subst tms.
    cbn [Page.handle Page.engine Page.now Page.timers].
    apply fire_due_fires. rewrite I2, Hp0. cbn [Page.now]. lia. }
  split.
  { rewrite Hfire. repeat split. }
  intro s. rewrite Hfire.
  cbn [Page.handle Page.engine]. unfold FadeEngine.update.
  cbn [FadeEngine.isAnimating].
  destruct (negb _); reflexivity.
Qed.

Lemma breathe_restores_target_saved_at_trigger_witness :
  FadeEngine.targetEffects
    (Page.engine
       (Page.run (Page.Breathe
                    :: [Page.Wait 1000; Page.Update 100; Page.Frame]
                    ++ [Page.Wait 4000])
                 (Page.load FadeEngine.constructor 0)))
  = FadeEngine.targetEffects FadeEngine.constructor.
Proof.
  destruct (breathe_restores_target_saved_at_trigger
              FadeEngine.constructor 0
              [Page.Wait 1000; Page.Update 100; Page.Frame] 4000)
    as (_ & _ & (H & _) & _);
    [reflexivity | reflexivity | discriminate | exact H].
Defined.

(** C1, counterexample.  The score is 10 (neutral target) when breathe
    is triggered at time 0; the score update at 1000 ms brings score
    100.  At 1000 ms the target is the target of score 100, not the
    calming state; at 5000 ms the target is the neutral set saved at
    trigger time, not the target of the score at restoration. *)
Lemma breathe_restore_counterexample :
  let p := Page.run [Page.Update 10; Page.Breathe; Page.Wait 1000;
                     Page.Update 100]
                    (Page.load FadeEngine.constructor 0) in
  let q := Page.run [Page.Wait 4000] p in
  (Page.now p = 1000%Z
   /\ ~ Effects_eq (FadeEngine.targetEffects (Page.engine p)) calming)
  /\ (Page.now q = 5000%Z
      /\ ~ Effects_eq (FadeEngine.targetEffects (Page.engine q))
                      (FadeEngine.score_target 100)
      /\ Effects_eq (FadeEngine.targetEffects (Page.engine q))
                    (FadeEngine.score_target 10)).
Proof.
  cbv zeta. split; [split | split; [| split]].
  - reflexivity.
  - intro H. apply Effects_eqb_iff in H. vm_compute in H. discriminate H.
  - reflexivity.
  - intro H. apply Effects_eqb_iff in H. vm_compute in H. discriminate H.
  - apply Effects_eqb_iff. vm_compute. reflexivity.
Qed.

(** ** The score aggregator *)

Section ScoreAggregator.

Import NeuroFadeDetector.

Variable log10 : Q -> Q.

Lemma of_nat_nonneg (n : nat) : 0 <= of_nat n.
Proof.
  unfold of_nat. change 0 with (inject_Z 0).
  rewrite <- Zle_Qle. lia.
Qed.

Lemma Qmin_1_nonneg (x : Q) : 0 <= x -> 0 <= Qmin x 1.
Proof. intro H. apply Q.min_glb; [exact H | discriminate]. Qed.

Lemma cutRate_nonneg (fa : FrameAnalyzer.t) :
  0 <= FrameAnalyzer.metricsCutRate (FrameAnalyzer.getMetrics fa).
Proof.
  unfold FrameAnalyzer.getMetrics. cbn [FrameAnalyzer.metricsCutRate].
  destruct (FrameAnalyzer.sceneCuts fa) as [| c cuts]; [discriminate |].
  pose proof (of_nat_nonneg (length (c :: cuts))) as H.
  unfold of_nat in H. unfold FrameAnalyzer.length_Q.
  set (n := inject_Z (Z.of_nat (length (c :: cuts)))) in *.
  unfold FrameAnalyzer.CUT_WINDOW, C.TIMING.SCENE_CUT_WINDOW.
  qlra.
Qed.

(** The smoothing step keeps the score in [0,100] for a non-negative
    composite. *)
Lemma smooth_bounded (rawScore previous : Q) :
  0 <= rawScore -> 0 <= previous <= 100 ->
  0 <= smooth rawScore previous <= 100.
Proof.
  intros Hr Hp. unfold smooth.
  pose proof (Q.le_min_r rawScore 100).
  assert (0 <= Qmin rawScore 100) by (apply Q.min_glb; [exact Hr | discriminate]).
  split; lra.
Qed.

Lemma smooth_at_100 (rawScore previous : Q) :
  100 <= rawScore ->
  smooth rawScore previous == 15 + 0.85 * previous.
Proof.
  intro H. unfold smooth. rewrite (Q.min_r rawScore 100 H). ring.
Qed.

(** The update reads every field but the score itself. *)
Lemma details_set_dopamineScore (now : Z) (score : Q) (d : t) :
  details log10 now (set_dopamineScore score d) = details log10 now d.
Proof. reflexivity. Qed.

Hypothesis log10_nonneg : forall x, 1 <= x -> 0 <= log10 x.

Lemma rawScore_nonneg (now : Z) (d : t) :
  valid_signals (now, d) -> 0 <= rawScore (details log10 now d).
Proof.
  intros (Hs & Ht & Hm). unfold details. cbn [rawScore].
  set (m := FrameAnalyzer.getMetrics (frameAnalyzer d)) in *.
  pose proof (cutRate_nonneg (frameAnalyzer d)) as Hc. fold m in Hc.
  assert (H1 : 0 <= Qmin (FrameAnalyzer.metricsCutRate m
                          / C.SCENE_CUT.HIGH_CUT_RATE) 1).
  { apply Qmin_1_nonneg. unfold C.SCENE_CUT.HIGH_CUT_RATE. qlra. }
  assert (H2 : 0 <= Qmin (FrameAnalyzer.metricsAvgMotion m
                          / C.SCENE_CUT.MOTION_THRESHOLD) 1).
  { apply Qmin_1_nonneg. unfold C.SCENE_CUT.MOTION_THRESHOLD. qlra. }
  assert (H3 : 0 <= Qmin (of_nat (fastScrolls d)
                          / C.SCROLL.RAPID_SCROLL_COUNT) 1).
  { apply Qmin_1_nonneg. pose proof (of_nat_nonneg (fastScrolls d)).
    unfold C.SCROLL.RAPID_SCROLL_COUNT. qlra. }
  assert (H4 : 0 <= Qmin (of_nat (length (domHeightChanges d))
                          / C.SCROLL.INFINITE_SCROLL_THRESHOLD) 1).
  { apply Qmin_1_nonneg.
    pose proof (of_nat_nonneg (length (domHeightChanges d))).
    unfold C.SCROLL.INFINITE_SCROLL_THRESHOLD. qlra. }
  assert (H5 : 0 <= Qmin (of_nat (activeVideos d) / 3) 1).
  { apply Qmin_1_nonneg. pose proof (of_nat_nonneg (activeVideos d)). qlra. }
  assert (H6 : 0 <= Qmin (log10 (1 + inject_Z (now - startTime d) / 1000 / 60)
                          * 50) 100).
  { apply Q.min_glb; [| discriminate].
    assert (E : 0 <= inject_Z (now - startTime d)).
    { change 0 with (inject_Z 0). rewrite <- Zle_Qle. lia. }
    assert (L : 0 <= log10 (1 + inject_Z (now - startTime d) / 1000 / 60)).
    { apply log10_nonneg. qlra. }
    lra. }
  unfold C.SCORE_WEIGHTS.SCENE_CUTS, C.SCORE_WEIGHTS.SCROLL_VELOCITY,
    C.SCORE_WEIGHTS.TIME_ON_PAGE, C.SCORE_WEIGHTS.CONTENT_CHANGES,
    C.SCORE_WEIGHTS.VIDEO_COUNT.
  apply Qmult_le_0_compat; lra.
Qed.

Lemma update_bounded (now : Z) (d : t) :
  valid_signals (now, d) ->
  0 <= dopamineScore d <= 100 ->
  0 <= dopamineScore (fst (_updateDopamineScore log10 now d)) <= 100.
Proof.
  intros Hv Hp. unfold _updateDopamineScore.
  cbn [fst set_dopamineScore dopamineScore].
  apply smooth_bounded; [apply rawScore_nonneg, Hv | exact Hp].
Qed.

Lemma observed_scores_bounded (ticks : list (Z * t)) :
  forall previous,
    0 <= previous <= 100 ->
    Forall valid_signals ticks ->
    Forall (fun score => 0 <= score <= 100)
           (observed_scores log10 previous ticks).
Proof.
  induction ticks as [| [now d] ticks IH]; intros previous Hp Hv.
  - constructor.
  - inversion Hv as [| ? ? Hv1 Hv2]; subst.
    cbn [observed_scores].
    assert (B : 0 <= dopamineScore
                       (fst (_updateDopamineScore log10 now
                               (set_dopamineScore previous d))) <= 100).
    { apply update_bounded; [| exact Hp].
      destruct d; exact Hv1. }
    constructor; [exact B | apply IH; [exact B | exact Hv2]].
Qed.

End ScoreAggregator.

(** C4. For every sensitivity in [0,1], every elapsed time >= 0,
    every average motion >= 0 and any event and video counts, an
    aggregator update maps a previous score in [0,100] to a score in
    [0,100]; so over any sequence of score ticks, whatever happens to
    the signals in between, every observed score is in [0,100].
    [Math.log10] enters only through being non-negative from 1 on. *)
Theorem score_stays_within_bounds :
  forall log10 : Q -> Q,
    (forall x, 1 <= x -> 0 <= log10 x) ->
    (forall now d,
        NeuroFadeDetector.valid_signals (now, d) ->
        0 <= NeuroFadeDetector.dopamineScore d <= 100 ->
        0 <= NeuroFadeDetector.dopamineScore
               (fst (NeuroFadeDetector._updateDopamineScore log10 now d))
          <= 100)
    /\ (forall previous ticks,
          0 <= previous <= 100 ->
          Forall NeuroFadeDetector.valid_signals ticks ->
          Forall (fun score => 0 <= score <= 100)
                 (NeuroFadeDetector.observed_scores log10 previous ticks)).
Proof.
  intros log10 Hlog. split.
  - intros now d. apply update_bounded, Hlog.
  - intros previous ticks Hp Hv.
    apply observed_scores_bounded; assumption.
Qed.

Lemma digits_above_one_nonneg (fuel : nat) :
  forall z, (0 <= NeuroFadeDetector.digits_above_one fuel z)%Z.
Proof.
  induction fuel as [| fuel IH]; intro z;
    cbn [NeuroFadeDetector.digits_above_one].
  - lia.
  - destruct (z <? 10)%Z; [lia | specialize (IH (z / 10)%Z); lia].
Qed.

Lemma floor_log10_nonneg (x : Q) : 0 <= NeuroFadeDetector.floor_log10 x.
Proof.
  unfold NeuroFadeDetector.floor_log10.
  change 0 with (inject_Z 0). rewrite <- Zle_Qle.
  apply digits_above_one_nonneg.
Qed.

Lemma score_stays_within_bounds_witness :
  Forall (fun score => 0 <= score <= 100)
         (NeuroFadeDetector.observed_scores NeuroFadeDetector.floor_log10 0
            [(0%Z, Examples.saturated_detector);
             (1000%Z, Examples.saturated_detector)]).
Proof.
  apply (score_stays_within_bounds NeuroFadeDetector.floor_log10).
  - intros x _. apply floor_log10_nonneg.
  - split; discriminate.
  - repeat constructor; vm_compute; discriminate.
Defined.

(** C2 (as amended). From score 0 with sensitivity 0.5, an aggregator
    update whose composite [rawScore] is 100 gives score 15
    (0.15 * 100 + 0.85 * 0), and a second update with the same input
    gives score 27.75 (0.15 * 100 + 0.85 * 15). *)
Theorem smoothing_step_values :
  forall (log10 : Q -> Q) (now : Z) (d : NeuroFadeDetector.t),
    NeuroFadeDetector.dopamineScore d == 0 ->
    NeuroFadeDetector.sensitivity d == 0.5 ->
    NeuroFadeDetector.rawScore (NeuroFadeDetector.details log10 now d) == 100 ->
    let first := NeuroFadeDetector._updateDopamineScore log10 now d in
    let second :=
      NeuroFadeDetector._updateDopamineScore log10 now (fst first) in
    NeuroFadeDetector.dopamineScore (fst first) == 15
    /\ fst (snd first) == 15
    /\ NeuroFadeDetector.dopamineScore (fst second) == 27.75
    /\ fst (snd second) == 27.75.
Proof.
  intros log10 now d H0 _ Hraw first second.
  assert (S1 : NeuroFadeDetector.dopamineScore (fst first) == 15).
  { unfold first, NeuroFadeDetector._updateDopamineScore.
    cbn [fst NeuroFadeDetector.set_dopamineScore
         NeuroFadeDetector.dopamineScore].
    rewrite smooth_at_100 by lra. lra. }
  assert (S2 : NeuroFadeDetector.dopamineScore (fst second) == 27.75).
  { unfold second, NeuroFadeDetector._updateDopamineScore at 1.
    cbn [fst NeuroFadeDetector.set_dopamineScore
         NeuroFadeDetector.dopamineScore].
    unfold first, NeuroFadeDetector._updateDopamineScore at 1. cbn [fst].
    rewrite details_set_dopamineScore.
    rewrite smooth_at_100 by lra.
    fold (NeuroFadeDetector._updateDopamineScore log10 now d).
    fold first. lra. }
  split; [exact S1 | split; [exact S1 | split; exact S2]].
Qed.

Lemma smoothing_step_values_witness :
  NeuroFadeDetector.dopamineScore
    (fst (NeuroFadeDetector._updateDopamineScore
            NeuroFadeDetector.floor_log10 0
            (fst (NeuroFadeDetector._updateDopamineScore
                    NeuroFadeDetector.floor_log10 0
                    Examples.saturated_detector))))
  == 27.75.
Proof.
  apply (smoothing_step_values NeuroFadeDetector.floor_log10 0
           Examples.saturated_detector); reflexivity.
Defined.

(** C2, counterexample.  The saturated detector has sensitivity 0.5,
    score 0 and composite 100; the first update gives 15, the second
    one, on the same input, gives 27.75 and not 25.5. *)
Lemma smoothing_second_step_counterexample :
  let d := Examples.saturated_detector in
  let first :=
    NeuroFadeDetector._updateDopamineScore NeuroFadeDetector.floor_log10 0 d in
  let second :=
    NeuroFadeDetector._updateDopamineScore NeuroFadeDetector.floor_log10 0
      (fst first) in
  NeuroFadeDetector.dopamineScore d == 0
  /\ NeuroFadeDetector.sensitivity d == 0.5
  /\ NeuroFadeDetector.rawScore
       (NeuroFadeDetector.details NeuroFadeDetector.floor_log10 0 d) == 100
  /\ NeuroFadeDetector.dopamineScore (fst first) == 15
  /\ ~ NeuroFadeDetector.dopamineScore (fst second) == 25.5.
Proof.
  cbv zeta. repeat split; try reflexivity.
  intro H. vm_compute in H. discriminate H.
Qed.

(** ** The histogram distance *)

Section HistogramDistance.

Lemma Qsquare (x : Q) : x ^ 2 == x * x.
Proof. reflexivity. Qed.

Lemma Qsquare_nonneg (x : Q) : 0 <= x ^ 2.
Proof.
  rewrite Qsquare. destruct (Qlt_le_dec x 0) as [H | H].
  - setoid_replace (x * x) with ((- x) * (- x)) by ring.
    apply Qmult_le_0_compat; lra.
  - apply Qmult_le_0_compat; lra.
Qed.

Lemma Qeq_bool_false_neq (x y : Q) : Qeq_bool x y = false -> ~ x == y.
Proof.
  intros H E. apply Qeq_bool_iff in E. congruence.
Qed.

Lemma spec_bin_term_self (a : Q) : spec_bin_term a a == 0.
Proof.
  unfold spec_bin_term. destruct (Qeq_bool (a + a) 0) eqn:E; [reflexivity |].
  apply Qeq_bool_false_neq in E.
  setoid_replace ((a - a) ^ 2) with 0 by (rewrite Qsquare; ring).
  field. exact E.
Qed.

Lemma spec_bin_term_sym (a b : Q) : spec_bin_term a b == spec_bin_term b a.
Proof.
  unfold spec_bin_term.
  destruct (Qeq_bool (a + b) 0) eqn:E1; destruct (Qeq_bool (b + a) 0) eqn:E2.
  - reflexivity.
  - apply Qeq_bool_iff in E1. apply Qeq_bool_false_neq in E2.
    exfalso. apply E2. lra.
  - apply Qeq_bool_iff in E2. apply Qeq_bool_false_neq in E1.
    exfalso. apply E1. lra.
  - apply Qeq_bool_false_neq in E1. apply Qeq_bool_false_neq in E2.
    rewrite !Qsquare. field. assumption.
Qed.

Lemma spec_bin_term_nonneg (a b : Q) :
  0 <= a -> 0 <= b -> 0 <= spec_bin_term a b.
Proof.
  intros Ha Hb. unfold spec_bin_term.
  destruct (Qeq_bool (a + b) 0) eqn:E; [discriminate |].
  apply Qeq_bool_false_neq in E.
  apply Qle_shift_div_l; [| rewrite Qmult_0_l; apply Qsquare_nonneg].
  destruct (Qlt_le_dec 0 (a + b)) as [H | H]; [exact H |].
  exfalso. apply E. lra.
Qed.

(** On non-negative bins the test [sum > 0] of the code is the
    specification's "bin sum is nonzero". *)
Lemma code_bin_term (a b diff : Q) :
  0 <= a -> 0 <= b ->
  (if Qgt_bool (a + b) 0 then diff + (a - b) ^ 2 / (a + b) else diff)
  == diff + spec_bin_term a b.
Proof.
  intros Ha Hb. unfold spec_bin_term.
  destruct (Qgt_bool (a + b) 0) eqn:G.
  - apply Qgt_bool_iff in G.
    destruct (Qeq_bool (a + b) 0) eqn:E; [| reflexivity].
    apply Qeq_bool_iff in E. lra.
  - apply Qgt_bool_false_iff in G.
    assert (E : Qeq_bool (a + b) 0 = true) by (apply Qeq_bool_iff; lra).
    rewrite E. ring.
Qed.

Lemma chi_squared_loop_spec (h1 : list Q) :
  forall h2 diff v,
    length h1 = length h2 ->
    nonnegative h1 -> nonnegative h2 ->
    diff == v ->
    chi_squared_loop h1 h2 diff == v + spec_bin_total h1 h2.
Proof.
  induction h1 as [| a h1 IH]; intros [| b h2] diff v Hlen N1 N2 Hd;
    try discriminate Hlen.
  - cbn. lra.
  - inversion N1 as [| ? ? Ha N1']; subst.
    inversion N2 as [| ? ? Hb N2']; subst.
    cbn [chi_squared_loop spec_bin_total].
    rewrite (IH h2 _ (v + spec_bin_term a b)); [ring | | | |].
    + cbn [length] in Hlen. lia.
    + exact N1'.
    + exact N2'.
    + rewrite code_bin_term by assumption. rewrite Hd. reflexivity.
Qed.

Lemma spec_bin_total_self (h : list Q) : spec_bin_total h h == 0.
Proof.
  induction h as [| a h IH]; [reflexivity |].
  cbn [spec_bin_total]. rewrite spec_bin_term_self, IH. reflexivity.
Qed.

Lemma spec_bin_total_sym (h1 : list Q) :
  forall h2, spec_bin_total h1 h2 == spec_bin_total h2 h1.
Proof.
  induction h1 as [| a h1 IH]; intros [| b h2]; try reflexivity.
  cbn [spec_bin_total]. rewrite spec_bin_term_sym, IH. reflexivity.
Qed.

Lemma spec_bin_total_nonneg (h1 : list Q) :
  forall h2, nonnegative h1 -> nonnegative h2 -> 0 <= spec_bin_total h1 h2.
Proof.
  induction h1 as [| a h1 IH]; intros [| b h2] N1 N2;
    cbn [spec_bin_total]; try discriminate.
  inversion N1; inversion N2; subst.
  pose proof (spec_bin_term_nonneg a b). pose proof (IH h2).
  unfold nonnegative in *. intuition lra.
Qed.

Lemma length_Q_pos {A} (l : list A) :
  (0 < length l)%nat -> 0 < inject_Z (Z.of_nat (length l)).
Proof.
  intro H. change 0 with (inject_Z 0). rewrite <- Zlt_Qlt. lia.
Qed.

(** The distance of the code, on non-negative histograms of one
    positive length, is the distance of the specification. *)
Lemma chi_squared_distance_spec (h1 h2 : list Q) :
  length h1 = length h2 -> (0 < length h1)%nat ->
  nonnegative h1 -> nonnegative h2 ->
  exists d, chi_squared_distance h1 h2 = Some d /\ d == spec_distance h1 h2.
Proof.
  intros Hlen Hpos N1 N2. unfold chi_squared_distance.
  destruct h1 as [| a h1]; [cbn in Hpos; lia |].
  eexists. split; [reflexivity |].
  unfold spec_distance.
  rewrite (chi_squared_loop_spec (a :: h1) h2 0 0 Hlen N1 N2 (Qeq_refl 0)).
  rewrite Qplus_0_l. reflexivity.
Qed.

End HistogramDistance.

(** C6. For histograms of one positive bin count with non-negative
    entries, the distance of [FrameAnalyzer._histogramDiff] (which is
    also that of [NPUBridge._jsHistogramDistance]) is a number, it is 0
    from a histogram to itself, symmetric, and non-negative, and it is
    the sum of [(h1[i] - h2[i])^2 / (h1[i] + h2[i])] over the bins with
    nonzero bin sum, divided by the bin count. *)
Theorem histogram_distance_algebra :
  forall h1 h2 : list Q,
    length h1 = length h2 -> (0 < length h1)%nat ->
    nonnegative h1 -> nonnegative h2 ->
    exists d12 d21 d11,
      FrameAnalyzer._histogramDiff h1 h2 = Some d12
      /\ NPUBridge._jsHistogramDistance h1 h2 = Some d12
      /\ FrameAnalyzer._histogramDiff h2 h1 = Some d21
      /\ FrameAnalyzer._histogramDiff h1 h1 = Some d11
      /\ d11 == 0
      /\ d12 == d21
      /\ 0 <= d12
      /\ d12 == spec_distance h1 h2.
Proof.
  intros h1 h2 Hlen Hpos N1 N2.
  destruct (chi_squared_distance_spec h1 h2 Hlen Hpos N1 N2) as (d12 & E12 & S12).
  destruct (chi_squared_distance_spec h2 h1 (eq_sym Hlen) ltac:(lia) N2 N1)
    as (d21 & E21 & S21).
  destruct (chi_squared_distance_spec h1 h1 eq_refl Hpos N1 N1)
    as (d11 & E11 & S11).
  exists d12, d21, d11.
  pose proof (length_Q_pos h1 Hpos) as Hn.
  assert (Hinv : 0 < / inject_Z (Z.of_nat (length h1)))
    by (apply Qinv_lt_0_compat, Hn).
  repeat split; try assumption.
  - rewrite S11. unfold spec_distance. rewrite spec_bin_total_self.
    unfold Qdiv. ring.
  - rewrite S12, S21. unfold spec_distance.
    rewrite (spec_bin_total_sym h1 h2), Hlen. reflexivity.
  - rewrite S12. unfold spec_distance, Qdiv.
    apply Qmult_le_0_compat; [apply spec_bin_total_nonneg; assumption | lra].
Qed.

Lemma histogram_distance_algebra_witness :
  exists d12 d21 d11,
    FrameAnalyzer._histogramDiff [0.5; 0.5; 0] [0.25; 0.25; 0.5] = Some d12
    /\ NPUBridge._jsHistogramDistance [0.5; 0.5; 0] [0.25; 0.25; 0.5]
       = Some d12
    /\ FrameAnalyzer._histogramDiff [0.25; 0.25; 0.5] [0.5; 0.5; 0] = Some d21
    /\ FrameAnalyzer._histogramDiff [0.5; 0.5; 0] [0.5; 0.5; 0] = Some d11
    /\ d11 == 0
    /\ d12 == d21
    /\ 0 <= d12
    /\ d12 == spec_distance [0.5; 0.5; 0] [0.25; 0.25; 0.5].
Proof.
  apply histogram_distance_algebra.
  - reflexivity.
  - cbn. lia.
  - repeat constructor; discriminate.
  - repeat constructor; discriminate.
Defined.

(** ** The two distance paths *)

Section DualPath.

Import NPUBridge.

Lemma reduceSum_acc (l : list Q) :
  forall acc, fold_left Qplus l acc == acc + total l.
Proof.
  induction l as [| x l IH]; intro acc; cbn [fold_left total fold_right].
  - ring.
  - rewrite IH. fold (total l). ring.
Qed.

Lemma reduceSum_total (l : list Q) : reduceSum l == total l.
Proof. unfold reduceSum. rewrite reduceSum_acc. ring. Qed.

(** One bin: the graph term is below the reference term, by at most
    the fraction [tol] of it when the bin sum is 0 or at least [floor]
    and [epsilon <= tol * floor]. *)
Lemma chiTerm_close (floor tol a b : Q) :
  0 < floor -> 0 <= tol -> epsilon <= tol * floor ->
  0 <= a -> 0 <= b ->
  (a + b == 0 \/ floor <= a + b) ->
  0 <= chiTerm a b <= spec_bin_term a b
  /\ spec_bin_term a b - chiTerm a b <= tol * spec_bin_term a b.
Proof.
  intros Hf Htol He Ha Hb [Hz | Hs].
  - assert (Ea : a == 0) by lra. assert (Eb : b == 0) by lra.
    assert (G : chiTerm a b == 0).
    { unfold chiTerm. cbv zeta.
      setoid_replace ((a - b) * (a - b)) with 0 by (rewrite Ea, Eb; ring).
      unfold Qdiv. ring. }
    assert (R : spec_bin_term a b == 0).
    { unfold spec_bin_term.
      assert (E : Qeq_bool (a + b) 0 = true) by (apply Qeq_bool_iff, Hz).
      rewrite E. reflexivity. }
    rewrite G, R. split; [split |]; lra.
  - set (s := a + b) in *.
    assert (Hspos : 0 < s) by lra.
    assert (Hse : 0 < s + epsilon) by (unfold epsilon; lra).
    assert (R : spec_bin_term a b == (a - b) ^ 2 / s).
    { unfold spec_bin_term. fold s.
      destruct (Qeq_bool s 0) eqn:E; [| reflexivity].
      apply Qeq_bool_iff in E. lra. }
    set (r := (a - b) ^ 2 / s) in *.
    assert (Hr : 0 <= r).
    { unfold r. apply Qle_shift_div_l; [exact Hspos |].
      rewrite Qmult_0_l. apply Qsquare_nonneg. }
    set (t := s / (s + epsilon)).
    assert (Ht1 : t <= 1).
    { unfold t. apply Qle_shift_div_r; [exact Hse | unfold epsilon; lra]. }
    assert (Ht2 : 1 - tol <= t).
    { unfold t. apply Qle_shift_div_l; [exact Hse |].
      assert (M1 : tol * floor <= tol * s)
        by (rewrite !(Qmult_comm tol); apply Qmult_le_compat_r; lra).
      assert (M2 : 0 <= tol * epsilon)
        by (apply Qmult_le_0_compat; [exact Htol | unfold epsilon; lra]).
      lra. }
    assert (G : chiTerm a b == r * t).
    { unfold chiTerm, r, t. cbv zeta. fold s. rewrite Qsquare.
      field. split; lra. }
    rewrite G, R.
    assert (P1 : 0 <= r * t).
    { apply Qmult_le_0_compat; [exact Hr |].
      unfold t. apply Qle_shift_div_l; [exact Hse | lra]. }
    assert (P2 : r * t <= r * 1)
      by (rewrite !(Qmult_comm r); apply Qmult_le_compat_r; lra).
    assert (P3 : r * (1 - tol) <= r * t)
      by (rewrite !(Qmult_comm r); apply Qmult_le_compat_r; lra).
    split; [split |]; lra.
Qed.

Lemma chiTerms_close (floor tol : Q) (h1 : list Q) :
  0 < floor -> 0 <= tol -> epsilon <= tol * floor ->
  forall h2,
    nonnegative h1 -> nonnegative h2 ->
    bin_sums_at_least floor h1 h2 ->
    0 <= total (chiTerms h1 h2) <= spec_bin_total h1 h2
    /\ spec_bin_total h1 h2 - total (chiTerms h1 h2)
       <= tol * spec_bin_total h1 h2.
Proof.
  intros Hf Htol He.
  induction h1 as [| a h1 IH]; intros [| b h2] N1 N2 Hs;
    cbn [chiTerms spec_bin_total total fold_right];
    try (split; [split |]; lra).
  inversion N1 as [| ? ? Ha N1']; subst.
  inversion N2 as [| ? ? Hb N2']; subst.
  destruct Hs as [Hab Hs].
  destruct (chiTerm_close floor tol a b Hf Htol He Ha Hb Hab) as [[T1 T2] T3].
  destruct (IH h2 N1' N2' Hs) as [[I1 I2] I3].
  fold (total (chiTerms h1 h2)).
  split; [split |]; lra.
Qed.

Lemma graph_compute_returned (h1 h2 : list Q) (d : Q) :
  graph_compute h1 h2 = Returned d ->
  length h1 = GRAPH_BINS /\ length h2 = GRAPH_BINS
  /\ d = reduceMean (chiTerms h1 h2).
Proof.
  unfold graph_compute.
  destruct (length h1 =? GRAPH_BINS)%nat eqn:E1;
    destruct (length h2 =? GRAPH_BINS)%nat eqn:E2;
    cbn [andb]; intro H; try discriminate H.
  apply Nat.eqb_eq in E1. apply Nat.eqb_eq in E2.
  inversion H. auto.
Qed.

End DualPath.

(** The graph distance is below the reference distance, by at most
    the fraction [tol] of it, when every bin sum is 0 or at least
    [floor] and [epsilon <= tol * floor]. *)
Lemma dual_path_gap (floor tol : Q) :
  0 < floor -> 0 <= tol -> NPUBridge.epsilon <= tol * floor ->
  forall h1 h2 d_graph d_js,
    nonnegative h1 -> nonnegative h2 ->
    bin_sums_at_least floor h1 h2 ->
    NPUBridge.graph_compute h1 h2 = Returned d_graph ->
    NPUBridge._jsHistogramDistance h1 h2 = Some d_js ->
    0 <= d_graph <= d_js /\ d_js - d_graph <= tol * d_js.
Proof.
  intros Hf Htol He h1 h2 d_graph d_js N1 N2 Hs Hg Hj.
  destruct (graph_compute_returned h1 h2 d_graph Hg) as (L1 & L2 & Eg).
  assert (Hlen : length h1 = length h2) by congruence.
  assert (Hpos : (0 < length h1)%nat)
    by (rewrite L1; unfold NPUBridge.GRAPH_BINS; lia).
  destruct (chi_squared_distance_spec h1 h2 Hlen Hpos N1 N2) as (d & Ed & Sd).
  unfold NPUBridge._jsHistogramDistance in Hj.
  assert (d = d_js) by congruence. subst d.
  destruct (chiTerms_close floor tol h1 Hf Htol He h2 N1 N2 Hs)
    as [[T1 T2] T3].
  assert (G : d_graph == total (NPUBridge.chiTerms h1 h2) * (1 # 48)).
  { rewrite Eg. unfold NPUBridge.reduceMean.
    rewrite reduceSum_total. reflexivity. }
  assert (J : d_js == spec_bin_total h1 h2 * (1 # 48)).
  { rewrite Sd. unfold spec_distance. rewrite L1. reflexivity. }
  set (g := total (NPUBridge.chiTerms h1 h2)) in *.
  set (r := spec_bin_total h1 h2) in *.
  assert (K : tol * d_js == tol * r * (1 # 48)) by (rewrite J; ring).
  rewrite K, G, J. split; [split |]; lra.
Qed.

(** Two distances [g <= j] with gap at most [tol * j] agree within the
    relative tolerance [tol]. *)
Lemma gap_within_relative_tolerance (tol g j : Q) :
  0 <= tol -> 0 <= g <= j -> j - g <= tol * j ->
  within_relative_tolerance tol g j.
Proof.
  intros T B D. unfold within_relative_tolerance.
  rewrite (Qabs_neg (g - j)) by lra.
  pose proof (Q.le_max_r (Qabs g) (Qabs j)) as M.
  pose proof (Qle_Qabs j) as A.
  assert (X : tol * j <= tol * Qmax (Qabs g) (Qabs j)).
  { rewrite !(Qmult_comm tol). apply Qmult_le_compat_r; lra. }
  lra.
Qed.

(** The graph distance and the reference distance agree within 1e-4
    when every bin sum is 0 or at least 1e-6. *)
Lemma dual_path_close :
  forall h1 h2 d_graph d_js,
    nonnegative h1 -> nonnegative h2 ->
    bin_sums_at_least 0.000001 h1 h2 ->
    NPUBridge.graph_compute h1 h2 = Returned d_graph ->
    NPUBridge._jsHistogramDistance h1 h2 = Some d_js ->
    within_relative_tolerance 0.0001 d_graph d_js.
Proof.
  intros h1 h2 d_graph d_js N1 N2 Hs Hg Hj.
  destruct (dual_path_gap 0.000001 0.0001
              ltac:(reflexivity) ltac:(discriminate) ltac:(discriminate)
              h1 h2 d_graph d_js N1 N2 Hs Hg Hj) as [B D].
  apply gap_within_relative_tolerance; [discriminate | assumption ..].
Qed.


(** ** The histograms of the analyzer *)

Section AnalyzerHistograms.

Import FrameAnalyzer.

Lemma is_count_0 : is_count 0.
Proof. exists 0%nat. reflexivity. Qed.

Lemma is_count_succ (q : Q) : is_count q -> is_count (q + 1).
Proof.
  intros [n E]. exists (S n). rewrite E.
  rewrite Nat2Z.inj_succ. unfold Z.succ. rewrite inject_Z_plus. reflexivity.
Qed.

Lemma incr_counts (i : nat) :
  forall h, Forall is_count h ->
            Forall is_count (incr i h) /\ length (incr i h) = length h.
Proof.
  induction i as [| i IH]; intros [| x h] Hh; cbn [incr length].
  - split; [constructor | reflexivity].
  - inversion Hh; subst. split; [| reflexivity].
    constructor; [apply is_count_succ |]; assumption.
  - split; [constructor | reflexivity].
  - inversion Hh as [| ? ? Hx Hh']; subst.
    destruct (IH h Hh') as [I1 I2].
    split; [constructor; assumption | congruence].
Qed.

Lemma incr_at_counts (i : Z) (h : list Q) :
  Forall is_count h ->
  Forall is_count (incr_at i h) /\ length (incr_at i h) = length h.
Proof.
  intro Hh. unfold incr_at.
  destruct (i <? 0)%Z; [split; [exact Hh | reflexivity] |].
  apply incr_counts, Hh.
Qed.

Lemma count_pixels_counts (bins : nat) (binSize : Q) (n : nat) :
  forall data h,
    (length data <= n)%nat ->
    Forall is_count h ->
    Forall is_count (count_pixels bins binSize data h)
    /\ length (count_pixels bins binSize data h) = length h.
Proof.
  induction n as [| n IH]; intros data h Hlen Hh.
  - destruct data; [split; [exact Hh | reflexivity] | cbn in Hlen; lia].
  - destruct data as [| r [| g [| b [| a rest]]]]; cbn [count_pixels].
    + split; [exact Hh | reflexivity].
    + apply incr_at_counts, Hh.
    + destruct (incr_at_counts (bin_of binSize r) h Hh) as [A1 A2].
      destruct (incr_at_counts (Z.of_nat bins + bin_of binSize g) _ A1)
        as [B1 B2].
      split; [exact B1 | congruence].
    + destruct (incr_at_counts (bin_of binSize r) h Hh) as [A1 A2].
      destruct (incr_at_counts (Z.of_nat bins + bin_of binSize g) _ A1)
        as [B1 B2].
      destruct (incr_at_counts (Z.of_nat bins * 2 + bin_of binSize b) _ B1)
        as [C1 C2].
      split; [exact C1 | congruence].
    + destruct (incr_at_counts (bin_of binSize r) h Hh) as [A1 A2].
      destruct (incr_at_counts (Z.of_nat bins + bin_of binSize g) _ A1)
        as [B1 B2].
      destruct (incr_at_counts (Z.of_nat bins * 2 + bin_of binSize b) _ B1)
        as [C1 C2].
      destruct (IH rest _ ltac:(cbn [length] in Hlen; lia) C1) as [D1 D2].
      split; [exact D1 | congruence].
Qed.

Lemma repeat_0_counts (n : nat) : Forall is_count (repeat 0 n).
Proof.
  induction n as [| n IH]; cbn [repeat]; constructor;
    [apply is_count_0 | exact IH].
Qed.

(** [_computeHistogram] yields [BINS * 3] bins, each a pixel count
    divided by [pixelCount]. *)
Lemma _computeHistogram_counts (data : list Z) :
  exists counts,
    Forall is_count counts
    /\ length counts = (BINS * 3)%nat
    /\ _computeHistogram data
       = map (fun x => x / (inject_Z (Z.of_nat (length data)) / 4)) counts.
Proof.
  unfold _computeHistogram.
  destruct (count_pixels_counts BINS (256 / inject_Z (Z.of_nat BINS))
              (length data) data (repeat 0 (BINS * 3)) (le_n _)
              (repeat_0_counts _)) as [H1 H2].
  eexists. split; [exact H1 |]. split; [| reflexivity].
  rewrite H2. apply repeat_length.
Qed.

(** Counts divided by a pixel count of at most 10^6 are non-negative
    and have bin sums that are 0 or at least 1e-6. *)
Lemma scaled_counts_bin_sums (pixelCount : Q) (c1 : list Q) :
  0 < pixelCount <= 1000000 ->
  forall c2,
    Forall is_count c1 -> Forall is_count c2 ->
    nonnegative (map (fun x => x / pixelCount) c1)
    /\ bin_sums_at_least 0.000001 (map (fun x => x / pixelCount) c1)
                         (map (fun x => x / pixelCount) c2).
Proof.
  intros [Hp1 Hp2].
  assert (Hinv : 0.000001 <= / pixelCount).
  { apply Qle_shift_inv_l; [exact Hp1 | lra]. }
  induction c1 as [| x c1 IH]; intros c2 H1 H2; cbn [map].
  - split; [constructor | exact I].
  - inversion H1 as [| ? ? [n En] H1']; subst.
    assert (Hn : 0 <= inject_Z (Z.of_nat n)).
    { change 0 with (inject_Z 0). rewrite <- Zle_Qle. lia. }
    assert (Hx : 0 <= x / pixelCount).
    { rewrite En. unfold Qdiv. apply Qmult_le_0_compat; lra. }
    destruct c2 as [| y c2]; cbn [map bin_sums_at_least].
    + destruct (IH [] H1' (Forall_nil _)) as [N _].
      split; [constructor; assumption | exact I].
    + inversion H2 as [| ? ? [m Em] H2']; subst.
      destruct (IH c2 H1' H2') as [N S].
      split; [constructor; assumption |]. split; [| exact S].
      rewrite En, Em.
      destruct (Nat.eq_dec (n + m) 0) as [Z0 | NZ].
      * left. assert (n = 0%nat) by lia. assert (m = 0%nat) by lia.
        subst n m. unfold Qdiv. ring.
      * right.
        assert (Hs : 1 <= inject_Z (Z.of_nat n) + inject_Z (Z.of_nat m)).
        { rewrite <- inject_Z_plus. change 1 with (inject_Z 1).
          rewrite <- Zle_Qle. lia. }
        unfold Qdiv. rewrite <- Qmult_plus_distr_l.
        apply Qle_trans with (1 * / pixelCount); [lra |].
        apply Qmult_le_compat_r; [exact Hs | lra].
Qed.

(** On the histograms computed from two frame buffers of one size of
    at most 10^6 pixels the two distance paths of the model agree
    within 1e-4. *)
Lemma analyzer_histograms_dual_path_close (data1 data2 : list Z) :
  length data1 = length data2 ->
  (0 < Z.of_nat (length data1) <= 4000000)%Z ->
  let h1 := _computeHistogram data1 in
  let h2 := _computeHistogram data2 in
  exists d_graph d_js,
    NPUBridge.graph_compute h1 h2 = Returned d_graph
    /\ NPUBridge._jsHistogramDistance h1 h2 = Some d_js
    /\ within_relative_tolerance 0.0001 d_graph d_js.
Proof.
  intros Hlen [Hpos Hmax] h1 h2.
  destruct (_computeHistogram_counts data1) as (c1 & C1 & L1 & E1).
  destruct (_computeHistogram_counts data2) as (c2 & C2 & L2 & E2).
  rewrite <- Hlen in E2.
  set (pixelCount := inject_Z (Z.of_nat (length data1)) / 4) in *.
  assert (Hpc : 0 < pixelCount <= 1000000).
  { unfold pixelCount.
    assert (A : 0 < inject_Z (Z.of_nat (length data1)))
      by (change 0 with (inject_Z 0); rewrite <- Zlt_Qlt; lia).
    assert (B : inject_Z (Z.of_nat (length data1)) <= 4000000).
    { change 4000000 with (inject_Z 4000000). rewrite <- Zle_Qle. lia. }
    split; qlra. }
  destruct (scaled_counts_bin_sums pixelCount c1 Hpc c2 C1 C2) as [N1 S].
  destruct (scaled_counts_bin_sums pixelCount c2 Hpc c1 C2 C1) as [N2 _].
  assert (G : exists d, NPUBridge.graph_compute h1 h2 = Returned d).
  { unfold NPUBridge.graph_compute, h1, h2.
    rewrite E1, E2, !length_map, L1, L2. eexists. reflexivity. }
  destruct G as [d_graph G].
  assert (J : exists d, NPUBridge._jsHistogramDistance h1 h2 = Some d).
  { unfold NPUBridge._jsHistogramDistance, chi_squared_distance, h1.
    rewrite E1. destruct c1; [discriminate L1 | eexists; reflexivity]. }
  destruct J as [d_js J].
  exists d_graph, d_js. split; [exact G | split; [exact J |]].
  refine (dual_path_close h1 h2 d_graph d_js _ _ _ G J);
    unfold h1, h2; rewrite ?E1, ?E2; assumption.
Qed.

End AnalyzerHistograms.

(** C8 (as amended). For every pair of histograms with bins between
    0 and 1 (as in every normalised histogram) that the graph accepts
    (48 bins each) and in which every bin sum is 0 or at least 2e-6,
    the distance of the graph (mean over bins of
    [(h1[i] - h2[i])^2 / (h1[i] + h2[i] + 1e-10)]) and the distance of
    the synchronous reference implementation agree within 1e-4
    relative tolerance.  The term [1e-10] accounts for at most 5e-5 of
    that, so the agreement survives rounding: any value within the
    relative distance 4e-5 of the graph distance and any value within
    1e-6 of the reference distance still agree within 1e-4. *)
Theorem dual_path_close_for_bounded_bin_sums :
  forall h1 h2 d_graph d_js,
    unit_bins h1 -> unit_bins h2 ->
    bin_sums_at_least 0.000002 h1 h2 ->
    NPUBridge.graph_compute h1 h2 = Returned d_graph ->
    NPUBridge._jsHistogramDistance h1 h2 = Some d_js ->
    within_relative_tolerance 0.0001 d_graph d_js
    /\ (forall g j,
          Qabs (g - d_graph) <= 0.00004 * d_graph ->
          Qabs (j - d_js) <= 0.000001 * d_js ->
          within_relative_tolerance 0.0001 g j).
Proof.
  intros h1 h2 d_graph d_js U1 U2 Hs Hg Hj.
  assert (N1 : nonnegative h1)
    by (eapply Forall_impl; [| exact U1]; cbv beta; intros x [H _]; exact H).
  assert (N2 : nonnegative h2)
    by (eapply Forall_impl; [| exact U2]; cbv beta; intros x [H _]; exact H).
  destruct (dual_path_gap 0.000002 0.00005
              ltac:(reflexivity) ltac:(discriminate) ltac:(discriminate)
              h1 h2 d_graph d_js N1 N2 Hs Hg Hj) as [B D].
  split.
  - apply gap_within_relative_tolerance; lra.
  - intros g j Rg Rj. unfold within_relative_tolerance.
    apply Qabs_Qle_condition in Rg. apply Qabs_Qle_condition in Rj.
    pose proof (Q.le_max_r (Qabs g) (Qabs j)) as M.
    pose proof (Qle_Qabs j) as A.
    apply Qabs_Qle_condition. split; lra.
Qed.

Lemma dual_path_close_for_bounded_bin_sums_witness :
  exists d_graph d_js,
    NPUBridge.graph_compute ([0.5; 0.5] ++ repeat 0 46)
                            ([0.25; 0.75] ++ repeat 0 46)
    = Returned d_graph
    /\ NPUBridge._jsHistogramDistance ([0.5; 0.5] ++ repeat 0 46)
                                      ([0.25; 0.75] ++ repeat 0 46)
       = Some d_js
    /\ within_relative_tolerance 0.0001 d_graph d_js.
Proof.
  eexists. eexists. split; [reflexivity | split; [reflexivity |]].
  refine (proj1 (dual_path_close_for_bounded_bin_sums
                   ([0.5; 0.5] ++ repeat 0 46) ([0.25; 0.75] ++ repeat 0 46)
                   _ _ _ _ _ eq_refl eq_refl)).
  - repeat constructor; discriminate.
  - repeat constructor; discriminate.
  - cbn. repeat split; (right; discriminate) || (left; reflexivity).
Defined.

(** C8, counterexample.  Two 48-bin histograms with non-negative
    entries, normalised (as a whole, or per colour channel), whose
    first bin sum is 1e-10: the graph divides that bin's squared
    difference by 2e-10, the reference by 1e-10, and the two distances
    differ by about half of the reference distance. *)
Lemma dual_path_counterexample :
  ~ dual_path_equivalent normalized
  /\ ~ dual_path_equivalent channel_normalized.
Proof.
  split; intro H.
  - assert (V1 : normalized Examples.h_total_1).
    { split; [repeat constructor; discriminate | reflexivity]. }
    assert (V2 : normalized Examples.h_total_2).
    { split; [repeat constructor; discriminate | reflexivity]. }
    pose proof (H Examples.h_total_1 Examples.h_total_2 _ _ V1 V2
                  eq_refl eq_refl eq_refl) as C.
    unfold within_relative_tolerance in C. vm_compute in C.
    apply C. reflexivity.
  - assert (V1 : channel_normalized Examples.h_channel_1).
    { split; [repeat constructor; discriminate |].
      repeat split; reflexivity. }
    assert (V2 : channel_normalized Examples.h_channel_2).
    { split; [repeat constructor; discriminate |].
      repeat split; reflexivity. }
    pose proof (H Examples.h_channel_1 Examples.h_channel_2 _ _ V1 V2
                  eq_refl eq_refl eq_refl) as C.
    unfold within_relative_tolerance in C. vm_compute in C.
    apply C. reflexivity.
Qed.

(** ** Frame capture *)

Section FrameCapture.

Import FrameAnalyzer.

(** The histogram comparison touches the NPU bridge only, and does not
    raise. *)
Lemma detect_cut_returns (previous current : list Q) (fa : t) :
  exists cut bridge,
    detect_cut previous current fa
    = (Returned cut,
       mk (previousHistogram fa) (sceneCuts fa) (motionScores fa)
          (frameCount fa) (lastFrameData fa) bridge).
Proof.
  unfold detect_cut, bind, gets, modify, ret.
  destruct fa as [ph cuts ms fc lf [b |]]; cbn [npuBridge].
  - destruct (NPUBridge.available b); eexists; eexists; reflexivity.
  - eexists; eexists; reflexivity.
Qed.

(** What a frame that is read leaves behind. *)
Lemma analyzeFrame_try_returned (v : VideoElement) (now : Z) (fa : t)
      (data : list Z) :
  capture v = Returned data ->
  exists (cut : bool) (bridge : option NPUBridge.t),
    let cuts :=
      filter (in_window now CUT_WINDOW)
             (if cut then sceneCuts fa ++ [now] else sceneCuts fa) in
    let scores := motionScores fa ++ [_computeMotion (lastFrameData fa) data] in
    let scores := if (20 <? length scores)%nat then tl scores else scores in
    analyzeFrame_try v now fa
    = (Returned
         (Some (mkResult cut (_computeMotion (lastFrameData fa) data)
                  (length_Q cuts / (inject_Z CUT_WINDOW / 1000) * 10)
                  (_average scores) (frameCount fa + 1)%Z
                  (_computeHistogram data))),
       mk (Some (_computeHistogram data)) cuts scores
          (frameCount fa + 1)%Z (Some data) bridge).
Proof.
  intro Hcap. unfold analyzeFrame_try.
  unfold bind at 1. unfold lift. rewrite Hcap.
  unfold bind at 1. unfold gets at 1.
  unfold bind at 1. unfold gets at 1.
  destruct (previousHistogram fa) as [prev |] eqn:Hprev.
  - destruct (detect_cut_returns prev (_computeHistogram data) fa)
      as (cut & bridge & E).
    exists cut, bridge. unfold bind at 1. rewrite E. reflexivity.
  - exists false, (npuBridge fa). destruct fa. reflexivity.
Qed.

Lemma unreadable_skipped (v : VideoElement) (now : Z) (fa : t) :
  unreadable (Some v) -> analyzeFrame (Some v) now fa = (Returned None, fa).
Proof.
  intros [H | [H | [H | [H | H]]]]; unfold analyzeFrame.
  - rewrite H. reflexivity.
  - rewrite H, orb_true_r. reflexivity.
  - apply Z.ltb_lt in H. rewrite H, orb_true_r. reflexivity.
  - apply Z.eqb_eq in H. rewrite H, orb_true_r. reflexivity.
  - destruct (paused v || ended v || (readyState v <? 2)%Z
              || (videoWidth v =? 0)%Z); [reflexivity |].
    unfold try_catch, analyzeFrame_try, bind, lift, ret.
    rewrite H. reflexivity.
Qed.

Lemma analyzeFrame_never_throws (v : option VideoElement) (now : Z) (fa : t) :
  exists r fa', analyzeFrame v now fa = (Returned r, fa').
Proof.
  unfold analyzeFrame. destruct v as [v |].
  - destruct (paused v || ended v || (readyState v <? 2)%Z
              || (videoWidth v =? 0)%Z).
    + eexists; eexists; reflexivity.
    + unfold try_catch.
      destruct (analyzeFrame_try v now fa) as [[r |] fa'];
        eexists; eexists; reflexivity.
  - eexists; eexists; reflexivity.
Qed.

Lemma set_frameAnalyzer_same (d : NeuroFadeDetector.t) :
  NeuroFadeDetector.set_frameAnalyzer (NeuroFadeDetector.frameAnalyzer d) d = d.
Proof. destruct d. reflexivity. Qed.

End FrameCapture.

(** C9. For a video source that is absent, paused, ended, not ready,
    without dimensions, or whose pixel read raises, [analyzeFrame]
    returns [null] and leaves the analyzer (scene-cut queue, motion
    list, frame count, previous histogram, last frame) as it was;
    [analyzeFrame] raises on no input; and the sampling tick of the
    detector raises on no input, leaving the detector as it was when
    the active video cannot be read. *)
Theorem capture_failure_never_throws :
  (forall (v : option VideoElement) (now : Z) (fa : FrameAnalyzer.t),
      unreadable v ->
      FrameAnalyzer.analyzeFrame v now fa = (Returned None, fa))
  /\ (forall (v : option VideoElement) (now : Z) (fa : FrameAnalyzer.t),
        exists r fa', FrameAnalyzer.analyzeFrame v now fa = (Returned r, fa'))
  /\ (forall (now : Z) (d : NeuroFadeDetector.t),
        exists d', NeuroFadeDetector.frameInterval now d = (Returned tt, d'))
  /\ (forall (now : Z) (d : NeuroFadeDetector.t),
        unreadable (NeuroFadeDetector._getActiveVideo d) ->
        NeuroFadeDetector.frameInterval now d = (Returned tt, d)).
Proof.
  split; [| split; [| split]].
  - intros [v |] now fa H; [apply unreadable_skipped, H | reflexivity].
  - apply analyzeFrame_never_throws.
  - intros now d. unfold NeuroFadeDetector.frameInterval.
    destruct (NeuroFadeDetector.enabled d); [| eexists; reflexivity].
    unfold NeuroFadeDetector._analyzeActiveVideo.
    destruct (NeuroFadeDetector._getActiveVideo d) as [v |];
      [| eexists; reflexivity].
    destruct (analyzeFrame_never_throws (Some v) now
                (NeuroFadeDetector.frameAnalyzer d)) as (r & fa' & E).
    rewrite E. eexists; reflexivity.
  - intros now d H. unfold NeuroFadeDetector.frameInterval.
    destruct (NeuroFadeDetector.enabled d); [| reflexivity].
    unfold NeuroFadeDetector._analyzeActiveVideo.
    destruct (NeuroFadeDetector._getActiveVideo d) as [v |];
      [| reflexivity].
    rewrite (unreadable_skipped v now _ H), set_frameAnalyzer_same.
    reflexivity.
Qed.

Lemma capture_failure_never_throws_witness :
  FrameAnalyzer.analyzeFrame (Some Examples.cross_origin_video) 500
    Examples.analyzer_with_cut_at_0
  = (Returned None, Examples.analyzer_with_cut_at_0).
Proof.
  apply (proj1 capture_failure_never_throws).
  cbn. right. right. right. right. reflexivity.
Defined.

(** ** Trailing windows *)

Section TrailingWindows.

Import FrameAnalyzer.

Lemma analyzeFrame_returned_inv (v : VideoElement) (now : Z) (fa fa' : t)
      (r : FrameResult) :
  analyzeFrame (Some v) now fa = (Returned (Some r), fa') ->
  sceneCuts fa'
  = filter (in_window now CUT_WINDOW)
           (if isSceneCut r then sceneCuts fa ++ [now] else sceneCuts fa)
  /\ cutRate r = length_Q (sceneCuts fa') / (inject_Z CUT_WINDOW / 1000) * 10.
Proof.
  unfold analyzeFrame.
  destruct (paused v || ended v || (readyState v <? 2)%Z
            || (videoWidth v =? 0)%Z); [discriminate |].
  unfold try_catch.
  destruct (capture v) as [data |] eqn:Hcap.
  - destruct (analyzeFrame_try_returned v now fa data Hcap)
      as (cut & bridge & E).
    cbv zeta in E. rewrite E. intro H. inversion H. subst r fa'.
    split; reflexivity.
  - unfold analyzeFrame_try, bind, lift. rewrite Hcap. discriminate.
Qed.

Lemma filter_in_window (now window : Z) (stamps : list Z) :
  Forall (fun t => (now - t < window)%Z)
         (filter (in_window now window) stamps).
Proof.
  apply Forall_forall. intros t Ht. apply filter_In in Ht.
  destruct Ht as [_ Ht]. apply Z.ltb_lt, Ht.
Qed.

Lemma per_window_seconds (x : Q) :
  x / (inject_Z CUT_WINDOW / 1000) * 10 == x / 3 * 10.
Proof.
  unfold CUT_WINDOW, C.TIMING.SCENE_CUT_WINDOW. qlra.
Qed.

Lemma getMetrics_cutRate (fa : t) :
  metricsCutRate (getMetrics fa) == length_Q (sceneCuts fa) / 3 * 10.
Proof.
  unfold getMetrics. cbn [metricsCutRate].
  destruct (sceneCuts fa); [reflexivity | apply per_window_seconds].
Qed.

End TrailingWindows.

(** C3. The claim holds of no read of the score update: the scroll
    and DOM-change queues are evicted only when a new event comes in,
    and [_updateDopamineScore] counts them as they stand.  A detector
    started at any time [start] that saw one fast scroll 100 ms later
    and none after still holds that event 11000 ms after the start,
    though its age, 10900 ms, is above the 10000 ms window, and the
    score update that runs then counts it: one fast scroll, scroll
    score 20, where no event is in the window.  In the same way a
    single DOM-height change seen by the poll 500 ms after the start
    is still counted 11000 ms after it, with content-change score 5.
    So neither read excludes the events older than the window. *)
Theorem stale_events_counted_at_read :
  forall (start : Z) (log10 : Q -> Q),
    let read := (start + 11000)%Z in
    let scrolled := Examples.scrolled_once start in
    let grown := Examples.grown_once start in
    (map NeuroFadeDetector.time (NeuroFadeDetector.scrollEvents scrolled)
     = [(start + 100)%Z]
     /\ not_older_than C.SCROLL.RAPID_SCROLL_WINDOW read
          (map NeuroFadeDetector.time
               (NeuroFadeDetector.scrollEvents scrolled)) = []
     /\ NeuroFadeDetector.fastScrolls scrolled = 1%nat
     /\ NeuroFadeDetector.scrollScore
          (NeuroFadeDetector.details log10 read scrolled) == 20)
    /\ (NeuroFadeDetector.domHeightChanges grown = [(start + 500)%Z]
        /\ not_older_than C.SCROLL.RAPID_SCROLL_WINDOW read
             (NeuroFadeDetector.domHeightChanges grown) = []
        /\ NeuroFadeDetector.contentChangeScore
             (NeuroFadeDetector.details log10 read grown) == 5)
    /\ ~ scroll_read_excludes_old
    /\ ~ dom_read_excludes_old.
Proof.
  intros start log10. cbv zeta.
  assert (S0 : exists velocity dy,
             Qgt_bool velocity C.SCROLL.VELOCITY_THRESHOLD = true
             /\ NeuroFadeDetector.scrollEvents (Examples.scrolled_once start)
                = [NeuroFadeDetector.mkScroll (start + 100) velocity dy]).
  { unfold Examples.scrolled_once, NeuroFadeDetector._scrollHandler,
      NeuroFadeDetector.constructor.
    cbn [NeuroFadeDetector.scrollEvents NeuroFadeDetector.lastScrollY
         NeuroFadeDetector.lastScrollTime app filter].
    replace (start + 100 - start)%Z with 100%Z by lia.
    unfold NeuroFadeDetector.recent_scroll. cbn [NeuroFadeDetector.time].
    rewrite Z.sub_diag. eexists. eexists.
    split; [| reflexivity]. reflexivity. }
  destruct S0 as (velocity & dy & Hfast & S1).
  assert (D1 : NeuroFadeDetector.domHeightChanges (Examples.grown_once start)
               = [(start + 500)%Z]).
  { unfold Examples.grown_once, NeuroFadeDetector.domInterval,
      NeuroFadeDetector.constructor.
    cbn [NeuroFadeDetector.lastDOMHeight].
    change (Qeq_bool 2500 2000) with false.
    cbn [negb NeuroFadeDetector.domHeightChanges app filter].
    unfold NeuroFadeDetector.recent_change.
    rewrite Z.sub_diag. reflexivity. }
  assert (F1 : NeuroFadeDetector.fastScrolls (Examples.scrolled_once start)
               = 1%nat).
  { unfold NeuroFadeDetector.fastScrolls. rewrite S1.
    cbn [filter NeuroFadeDetector.velocity]. rewrite Hfast. reflexivity. }
  assert (O1 : forall t age : Z,
             (10000 < age)%Z ->
             not_older_than C.SCROLL.RAPID_SCROLL_WINDOW (t + age) [t] = []).
  { intros t age Hage. unfold not_older_than, C.SCROLL.RAPID_SCROLL_WINDOW.
    cbn [filter].
    replace (t + age - t)%Z with age by lia.
    destruct (Z.leb_spec age 10000); [lia | reflexivity]. }
  assert (O2 : not_older_than C.SCROLL.RAPID_SCROLL_WINDOW (start + 11000)
                 [(start + 100)%Z] = []).
  { replace (start + 11000)%Z with (start + 100 + 10900)%Z by lia.
    apply O1. lia. }
  assert (O3 : not_older_than C.SCROLL.RAPID_SCROLL_WINDOW (start + 11000)
                 [(start + 500)%Z] = []).
  { replace (start + 11000)%Z with (start + 500 + 10500)%Z by lia.
    apply O1. lia. }
  split; [| split; [| split]].
  - rewrite S1. cbn [map NeuroFadeDetector.time].
    split; [reflexivity |]. split; [exact O2 |]. split; [exact F1 |].
    unfold NeuroFadeDetector.details. cbn [NeuroFadeDetector.scrollScore].
    rewrite F1. reflexivity.
  - rewrite D1. split; [reflexivity |]. split; [exact O3 |].
    unfold NeuroFadeDetector.details.
    cbn [NeuroFadeDetector.contentChangeScore]. rewrite D1. reflexivity.
  - intro H.
    specialize (H (Examples.scrolled_once start) (start + 11000)%Z).
    rewrite F1, S1 in H. cbn [map NeuroFadeDetector.time] in H.
    rewrite O2 in H.
    assert (P : Forall (fun e => (NeuroFadeDetector.time e <= start + 11000)%Z)
                  [NeuroFadeDetector.mkScroll (start + 100) velocity dy]).
    { repeat constructor. cbn. lia. }
    specialize (H P). cbn in H. lia.
  - intro H.
    specialize (H log10 (Examples.grown_once start) (start + 11000)%Z).
    unfold NeuroFadeDetector.details in H.
    cbn [NeuroFadeDetector.contentChangeScore] in H.
    rewrite D1, O3 in H.
    assert (P : Forall (fun t => (t <= start + 11000)%Z) [(start + 500)%Z]).
    { repeat constructor. lia. }
    specialize (H P). vm_compute in H. apply H. reflexivity.
Qed.

(** ** The smoothing step with binary64 rounding

    With the rounding of JavaScript numbers the two smoothing steps of
    C2 give exactly 15 and exactly 27.75 as well. *)
Lemma smooth_binary64_values :
  Binary64.smooth Binary64.hundred PrimFloat.zero = Binary64.fifteen
  /\ Binary64.smooth Binary64.hundred Binary64.fifteen
     = Binary64.twenty_seven_75.
Proof. split; vm_compute; reflexivity. Qed.

(** ** The scene-cut threshold

    An observation on how the distance and [DIFF_THRESHOLD] fit
    together: a bin contributes at most its bin sum, so two histograms
    normalised per channel are at distance at most [6 / 48 = 0.125],
    which is below the threshold 0.35: on such histograms the
    comparison of [analyzeFrame] does not report a cut. *)

Section SceneCutThreshold.

Lemma spec_bin_term_le_sum (a b : Q) :
  0 <= a -> 0 <= b -> spec_bin_term a b <= a + b.
Proof.
  intros Ha Hb. unfold spec_bin_term.
  destruct (Qeq_bool (a + b) 0) eqn:E; [lra |].
  apply Qeq_bool_false_neq in E.
  assert (Hs : 0 < a + b).
  { destruct (Qlt_le_dec 0 (a + b)) as [H | H]; [exact H |].
    exfalso. apply E. lra. }
  apply Qle_shift_div_r; [exact Hs |].
  rewrite Qsquare.
  assert (Hab : 0 <= a * b) by (apply Qmult_le_0_compat; assumption).
  setoid_replace ((a + b) * (a + b))
    with ((a - b) * (a - b) + 4 * (a * b)) by ring.
  lra.
Qed.

Lemma total_nonneg (h : list Q) : nonnegative h -> 0 <= total h.
Proof.
  induction 1 as [| x h Hx _ IH]; cbn [total fold_right]; [discriminate |].
  fold (total h). lra.
Qed.

Lemma spec_bin_total_le (h1 : list Q) :
  forall h2,
    nonnegative h1 -> nonnegative h2 ->
    spec_bin_total h1 h2 <= total h1 + total h2.
Proof.
  induction h1 as [| a h1 IH]; intros [| b h2] N1 N2;
    cbn [spec_bin_total].
  - discriminate.
  - pose proof (total_nonneg _ N2). change (total []) with 0. lra.
  - pose proof (total_nonneg _ N1). change (total []) with 0. lra.
  - inversion N1; inversion N2; subst.
    pose proof (spec_bin_term_le_sum a b). pose proof (IH h2).
    cbn [total fold_right]. fold (total h1) (total h2).
    unfold nonnegative in *. intuition lra.
Qed.

Lemma total_app (l1 l2 : list Q) : total (l1 ++ l2) == total l1 + total l2.
Proof.
  induction l1 as [| x l1 IH].
  - change (total ([] ++ l2)) with (total l2).
    change (total []) with 0. ring.
  - change (total ((x :: l1) ++ l2)) with (x + total (l1 ++ l2)).
    change (total (x :: l1)) with (x + total l1).
    rewrite IH. ring.
Qed.

Lemma channel_normalized_total (h : list Q) :
  channel_normalized h -> total h == 3.
Proof.
  intros (_ & _ & R & G & B).
  rewrite <- (firstn_skipn FrameAnalyzer.BINS h), total_app.
  rewrite <- (firstn_skipn FrameAnalyzer.BINS (skipn FrameAnalyzer.BINS h)),
    total_app at 1.
  rewrite skipn_skipn.
  replace (FrameAnalyzer.BINS + FrameAnalyzer.BINS)%nat
    with (FrameAnalyzer.BINS * 2)%nat by reflexivity.
  rewrite R, G, B. reflexivity.
Qed.

(** The bins of a normalised histogram are between 0 and 1. *)
Lemma nonnegative_le_total (h : list Q) :
  nonnegative h -> Forall (fun x => x <= total h) h.
Proof.
  induction 1 as [| x h Hx Hh IH]; [constructor |].
  pose proof (total_nonneg h Hh) as T.
  cbn [total fold_right]. fold (total h).
  constructor; [lra |].
  eapply Forall_impl; [| exact IH]. cbv beta. intros y Hy. lra.
Qed.

Lemma nonnegative_unit_bins (h : list Q) :
  nonnegative h -> total h == 1 -> unit_bins h.
Proof.
  intros N T. pose proof (nonnegative_le_total h N) as L.
  unfold unit_bins, nonnegative in *. rewrite Forall_forall in *.
  intros x Hx. specialize (N x Hx). specialize (L x Hx). lra.
Qed.

Lemma normalized_unit_bins (h : list Q) : normalized h -> unit_bins h.
Proof. intros [N T]. apply nonnegative_unit_bins; assumption. Qed.

Lemma channel_normalized_unit_bins (h : list Q) :
  channel_normalized h -> unit_bins h.
Proof.
  intros (N & _ & R & G & B). cbv zeta in R, G, B.
  assert (Nf : forall n l, nonnegative l -> nonnegative (firstn n l)).
  { intros n l Hl. unfold nonnegative in *. rewrite Forall_forall in *.
    intros x Hx. apply Hl. rewrite <- (firstn_skipn n l).
    apply in_or_app. left. exact Hx. }
  assert (Ns : forall n l, nonnegative l -> nonnegative (skipn n l)).
  { intros n l Hl. unfold nonnegative in *. rewrite Forall_forall in *.
    intros x Hx. apply Hl. rewrite <- (firstn_skipn n l).
    apply in_or_app. right. exact Hx. }
  rewrite <- (firstn_skipn FrameAnalyzer.BINS h).
  rewrite <- (firstn_skipn FrameAnalyzer.BINS (skipn FrameAnalyzer.BINS h)).
  rewrite skipn_skipn.
  replace (FrameAnalyzer.BINS + FrameAnalyzer.BINS)%nat
    with (FrameAnalyzer.BINS * 2)%nat by reflexivity.
  unfold unit_bins. rewrite !Forall_app.
  split; [| split]; apply nonnegative_unit_bins; auto.
Qed.

Lemma channel_normalized_never_cut (h1 h2 : list Q) :
  channel_normalized h1 -> channel_normalized h2 ->
  exists d,
    FrameAnalyzer._histogramDiff h1 h2 = Some d
    /\ d <= 0.125
    /\ Qgt_bool d FrameAnalyzer.DIFF_THRESHOLD = false.
Proof.
  intros V1 V2.
  pose proof (channel_normalized_total h1 V1) as T1.
  pose proof (channel_normalized_total h2 V2) as T2.
  destruct V1 as (N1 & L1 & _). destruct V2 as (N2 & L2 & _).
  destruct (chi_squared_distance_spec h1 h2) as (d & E & S);
    [congruence | rewrite L1; cbn; lia | assumption | assumption |].
  exists d. split; [exact E |].
  pose proof (spec_bin_total_le h1 h2 N1 N2) as B.
  assert (D : d <= 0.125).
  { rewrite S. unfold spec_distance. rewrite L1.
    change (inject_Z (Z.of_nat (FrameAnalyzer.BINS * 3))) with 48.
    qlra. }
  split; [exact D |].
  apply Qgt_bool_false_iff.
  unfold FrameAnalyzer.DIFF_THRESHOLD, C.SCENE_CUT.DIFF_THRESHOLD. lra.
Qed.

(** A black frame followed by a white frame, the largest possible
    change of histogram: distance 0.125, no cut recorded. *)
Example black_then_white :
  let fa1 := snd (FrameAnalyzer.analyzeFrame
                    (Some (Examples.playing_video Examples.black_frame)) 0
                    FrameAnalyzer.constructor) in
  let '(r, fa2) := FrameAnalyzer.analyzeFrame
                     (Some (Examples.playing_video Examples.white_frame)) 500
                     fa1 in
  option_map Qred
    (FrameAnalyzer._histogramDiff
       (FrameAnalyzer._computeHistogram Examples.black_frame)
       (FrameAnalyzer._computeHistogram Examples.white_frame))
  = Some (1 # 8)
  /\ option_map FrameAnalyzer.isSceneCut
       match r with Returned x => x | Thrown => None end = Some false
  /\ FrameAnalyzer.sceneCuts fa2 = []
  /\ FrameAnalyzer.frameCount fa2 = 2%Z.
Proof. vm_compute. repeat split. Qed.

End SceneCutThreshold.

(** * Further properties *)

(** ** Channel ranges *)

Section ChannelRanges.

Import FadeEngine.

Lemma intensity_unit (s : Q) : 0 <= intensity s <= 1.
Proof.
  destruct (intensity_pieces s)
    as [[H E]|[[H E]|[[H E]|[[H E]|[[H E]|[H E]]]]]]; rewrite E; split; qlra.
Qed.

Lemma effects_of_intensity_in_range (i : Q) :
  0 <= i <= 1 -> in_range (effects_of_intensity i).
Proof.
  intros Hi k. destruct k; cbn; unfold C.max, C.min; cbn; split; lra.
Qed.

Lemma in_range_eq (a b : Effects) : Effects_eq a b -> in_range b -> in_range a.
Proof.
  intros E H k. specialize (E k). specialize (H k). rewrite E. exact H.
Qed.

Lemma score_target_in_range (s : Q) : in_range (score_target s).
Proof.
  apply (in_range_eq _ _ (score_target_intensity s)).
  apply effects_of_intensity_in_range, intensity_unit.
Qed.

Lemma neutral_in_range : in_range neutral.
Proof. intro k. destruct k; cbn; split; discriminate. Qed.

Lemma calming_in_range : in_range calming.
Proof. intro k. destruct k; cbn; split; discriminate. Qed.

Lemma step_in_range (e : t) :
  in_range (currentEffects e) -> in_range (targetEffects e) ->
  in_range (currentEffects (step e)).
Proof.
  intros Hc Ht k. rewrite step_get.
  apply step_channel_in_interval; [apply Hc | apply Ht].
Qed.

Lemma fold_breathe_timeout_in_range (due : list (Z * Effects)) :
  forall e,
    in_range (currentEffects e) -> in_range (targetEffects e) ->
    Forall (fun tm => in_range (snd tm)) due ->
    let e' := fold_left (fun e tm => breathe_timeout (snd tm) e) due e in
    in_range (currentEffects e') /\ in_range (targetEffects e').
Proof.
  induction due as [| tm due IH]; intros e Hc Ht Hd; cbn [fold_left].
  - split; assumption.
  - inversion Hd; subst. apply IH; assumption.
Qed.

Lemma Forall_filter {A} (P : A -> Prop) (f : A -> bool) (l : list A) :
  Forall P l -> Forall P (filter f l).
Proof.
  intro H. apply Forall_forall. intros x Hx. apply filter_In in Hx.
  destruct Hx as [Hx _]. rewrite Forall_forall in H. apply H, Hx.
Qed.

Lemma handle_in_range (p : Page.t) (ev : Page.Event) :
  page_in_range p -> page_in_range (Page.handle p ev).
Proof.
  intros (Hc & Ht & Hs). destruct p as [e clock tms].
  cbn [Page.engine Page.timers] in *.
  destruct ev as [s | | | | ms]; unfold page_in_range;
    cbn [Page.handle Page.engine Page.timers Page.now].
  - unfold update. cbn [isAnimating].
    destruct (negb (isAnimating e)); cbn;
      (split; [exact Hc | split; [apply score_target_in_range | exact Hs]]).
  - cbn. split; [exact Hc | split; [apply calming_in_range |]].
    apply Forall_app. split; [exact Hs | constructor; [exact Ht | constructor]].
  - unfold reset. cbn [isAnimating].
    destruct (negb (isAnimating e)); cbn;
      (split; [exact Hc | split; [apply neutral_in_range | exact Hs]]).
  - unfold frame. destruct (isAnimating e).
    + split; [apply step_in_range; assumption | split; assumption].
    + split; [exact Hc | split; assumption].
  - unfold Page.fire_due. cbn [Page.engine Page.timers Page.now].
    destruct (fold_breathe_timeout_in_range
                (filter (Page.is_due (clock + Z.max 0 ms)) tms) e Hc Ht
                (Forall_filter _ _ _ Hs)) as [H1 H2].
    split; [exact H1 | split; [exact H2 | apply Forall_filter, Hs]].
Qed.

Lemma run_in_range (evs : list Page.Event) :
  forall p, page_in_range p -> page_in_range (Page.run evs p).
Proof.
  induction evs as [| ev evs IH]; intros p H; [exact H |].
  rewrite run_cons. apply IH, handle_in_range, H.
Qed.

Lemma in_range_near (slack : Q) (e : Effects) :
  0 <= slack -> in_range e -> near_range slack e.
Proof. intros Hs H k. specialize (H k). split; lra. Qed.

End ChannelRanges.

(** X1. Whatever the score handed to [update] (negative, above 100),
    every target channel is within 1e-9 of its declared range:
    grayscale and audio intensity of [0,1], saturation of [0.2,1],
    brightness of [0.7,1], blur of [0,1.5], playback rate of
    [0.85,1]. *)
Theorem update_targets_near_range :
  forall (s : Q) (e : FadeEngine.t),
    near_range 0.000000001 (FadeEngine.targetEffects (FadeEngine.update s e)).
Proof.
  intros s e. apply in_range_near; [discriminate |].
  unfold FadeEngine.update. cbn [FadeEngine.isAnimating].
  destruct (negb (FadeEngine.isAnimating e)); cbn; apply score_target_in_range.
Qed.

(** X2. From the constructor, after any sequence of score updates,
    breathe triggers, resets, animation frames and waits (with their
    timer callbacks), every current and every target effect channel is
    within 1e-9 of its declared range. *)
Theorem effects_always_near_range :
  forall (evs : list Page.Event) (start : Z),
    let p := Page.run evs (Page.load FadeEngine.constructor start) in
    near_range 0.000000001 (FadeEngine.currentEffects (Page.engine p))
    /\ near_range 0.000000001 (FadeEngine.targetEffects (Page.engine p)).
Proof.
  intros evs start p.
  destruct (run_in_range evs (Page.load FadeEngine.constructor start))
    as (H1 & H2 & _);
    [| split; (apply in_range_near; [discriminate | assumption])].
  split; [apply neutral_in_range | split; [apply neutral_in_range |]].
  constructor.
Qed.

(** X3. The targets are monotone in the score: a higher score never
    gives less grayscale, blur or audio intensity, and never more
    saturation, brightness or playback rate. *)
Theorem targets_monotone_in_score :
  forall s1 s2 : Q,
    s1 <= s2 ->
    let t1 := FadeEngine.score_target s1 in
    let t2 := FadeEngine.score_target s2 in
    grayscale t1 <= grayscale t2
    /\ blur t1 <= blur t2
    /\ audioIntensity t1 <= audioIntensity t2
    /\ saturation t2 <= saturation t1
    /\ brightness t2 <= brightness t1
    /\ playbackRate t2 <= playbackRate t1.
Proof.
  intros s1 s2 H t1 t2.
  pose proof (intensity_slope s1 s2 H) as [M _].
  pose proof (score_target_intensity s1) as E1.
  pose proof (score_target_intensity s2) as E2.
  fold t1 in E1. fold t2 in E2.
  pose proof (E1 Grayscale) as G1. pose proof (E2 Grayscale) as G2.
  pose proof (E1 Blur) as B1. pose proof (E2 Blur) as B2.
  pose proof (E1 AudioIntensity) as A1. pose proof (E2 AudioIntensity) as A2.
  pose proof (E1 Saturation) as S1. pose proof (E2 Saturation) as S2.
  pose proof (E1 Brightness) as R1. pose proof (E2 Brightness) as R2.
  pose proof (E1 PlaybackRate) as P1. pose proof (E2 PlaybackRate) as P2.
  cbn in G1, G2, B1, B2, A1, A2, S1, S2, R1, R2, P1, P2.
  unfold C.max, C.min in *. cbn in *.
  repeat split; lra.
Qed.

Lemma targets_monotone_in_score_witness :
  grayscale (FadeEngine.score_target 30)
  <= grayscale (FadeEngine.score_target 70).
Proof.
  apply (targets_monotone_in_score 30 70). discriminate.
Defined.

(** ** A uniform bound on the length of a transition *)

Section TransitionLength.

Import FadeEngine.

(** The loop has stopped, on the target, one frame after the decayed
    distances are all at most 0.001. *)
Lemma frames_stop_decay (e : t) (n k : nat) :
  isAnimating e = true ->
  (forall ch, Qpow 0.94 k * distance ch e <= 0.001) ->
  (k + 1 <= n)%nat ->
  isAnimating (frames n e) = false
  /\ forall ch, get ch (currentEffects (frames n e))
                = get ch (targetEffects e).
Proof.
  intros Hstart Hk Hn.
  assert (Hcur : forall ch, get ch (currentEffects (frames n e))
                            = get ch (targetEffects e)).
  { intro ch. rewrite (proj1 (frames_channels e n Hstart) ch).
    apply (channel_after_stays k); [apply Hk | exact Hn]. }
  split; [| exact Hcur].
  destruct n as [| n]; [lia |].
  change (frames (S n) e) with (frame (frames n e)).
  unfold frame. destruct (isAnimating (frames n e)) eqn:A; [| exact A].
  apply step_isAnimating_false. intro ch. unfold distance.
  rewrite frames_target, (proj1 (frames_channels e n Hstart) ch).
  apply Qle_trans with (1 := channel_after_distance n _ _).
  apply Qle_trans with (Qpow 0.94 k * distance ch e); [| apply Hk].
  apply Qmult_le_compat_r; [| apply Qabs_nonneg].
  apply Qpow_decreasing. lia.
Qed.

Lemma decay_119 : Qpow 0.94 119 * 1.5 <= 0.001.
Proof. vm_compute. discriminate. Qed.

Lemma distance_in_range (e : t) (ch : Channel) :
  in_range (currentEffects e) -> in_range (targetEffects e) ->
  distance ch e <= 1.5.
Proof.
  intros Hc Ht. specialize (Hc ch). specialize (Ht ch).
  unfold distance. apply Qabs_Qle_condition.
  destruct ch; cbn in Hc, Ht; unfold C.max, C.min in *; cbn in *;
    split; lra.
Qed.

End TransitionLength.

(** X4. Every transition is over within 120 animation frames: when the
    loop runs with current and target effects in their declared ranges
    and the target is left alone, then after 120 frames (and after any
    larger number) the loop has stopped and every channel is exactly on
    its target. *)
Theorem transition_over_within_120_frames :
  forall (e : FadeEngine.t) (n : nat),
    FadeEngine.isAnimating e = true ->
    in_range (FadeEngine.currentEffects e) ->
    in_range (FadeEngine.targetEffects e) ->
    (120 <= n)%nat ->
    FadeEngine.isAnimating (FadeEngine.frames n e) = false
    /\ forall ch, get ch (FadeEngine.currentEffects (FadeEngine.frames n e))
                  = get ch (FadeEngine.targetEffects e).
Proof.
  intros e n Hstart Hc Ht Hn.
  apply (frames_stop_decay e n 119 Hstart); [| lia].
  intro ch. pose proof (distance_in_range e ch Hc Ht) as D.
  pose proof (Qpow_nonneg 119) as P.
  apply Qle_trans with (FadeEngine.Qpow 0.94 119 * 1.5); [| apply decay_119].
  rewrite !(Qmult_comm (FadeEngine.Qpow 0.94 119)).
  apply Qmult_le_compat_r; assumption.
Qed.

Lemma transition_over_within_120_frames_witness :
  FadeEngine.isAnimating
    (FadeEngine.frames 120 (FadeEngine.update 100 FadeEngine.constructor))
  = false
  /\ forall ch,
       get ch (FadeEngine.currentEffects
                 (FadeEngine.frames 120
                    (FadeEngine.update 100 FadeEngine.constructor)))
       = get ch (FadeEngine.targetEffects
                   (FadeEngine.update 100 FadeEngine.constructor)).
Proof.
  apply transition_over_within_120_frames.
  - reflexivity.
  - apply neutral_in_range.
  - apply (score_target_in_range 100).
  - apply le_n.
Defined.

(** ** The audio chain *)

Section AudioChain.

Import AudioProcessor.

Lemma get_delete_same (v : Z) (m : t) : get v (delete v m) = None.
Proof.
  induction m as [| [x p] m IH]; cbn [delete get]; [reflexivity |].
  destruct (Z.eqb_spec x v) as [E | N]; [exact IH |].
  cbn [get]. destruct (Z.eqb_spec x v); [contradiction | exact IH].
Qed.

Lemma get_delete_other (v w : Z) (m : t) :
  v <> w -> get w (delete v m) = get w m.
Proof.
  intro Hne. induction m as [| [x p] m IH]; cbn [delete get]; [reflexivity |].
  destruct (Z.eqb_spec x v) as [E | N].
  - subst x. destruct (Z.eqb_spec v w); [contradiction | exact IH].
  - cbn [get]. destruct (Z.eqb_spec x w); [reflexivity | exact IH].
Qed.

Lemma get_set_same (v : Z) (p : Processor) (m : t) :
  get v (set v p m) = Some p.
Proof. unfold set. cbn [get]. rewrite Z.eqb_refl. reflexivity. Qed.

Lemma get_set_other (v w : Z) (p : Processor) (m : t) :
  v <> w -> get w (set v p m) = get w m.
Proof.
  intro Hne. unfold set. cbn [get].
  destruct (Z.eqb_spec v w); [contradiction | apply get_delete_other, Hne].
Qed.

Lemma get_applyFade_other (v w : Z) (i : Q) (m : t) :
  v <> w -> get w (applyFade v i m) = get w m.
Proof.
  intro Hne. unfold applyFade.
  destruct (get v m); [apply get_set_other, Hne | reflexivity].
Qed.

Lemma get_applyFade_same (v : Z) (i : Q) (m : t) (p : Processor) :
  get v m = Some p ->
  get v (applyFade v i m)
  = Some (mkProcessor (Qmax (20000 - i * 18000) 2000) (- i * 12)
                      (1.0 - i * 0.15) i).
Proof.
  intro H. unfold applyFade. rewrite H. apply get_set_same.
Qed.

Lemma has_applyFade (v w : Z) (i : Q) (m : t) :
  has w (applyFade v i m) = has w m.
Proof.
  unfold has. destruct (Z.eq_dec v w) as [E | N].
  - subst w. destruct (get v m) as [p |] eqn:G.
    + rewrite (get_applyFade_same v i m p G). reflexivity.
    + unfold applyFade. rewrite G, G. reflexivity.
  - rewrite (get_applyFade_other v w i m N). reflexivity.
Qed.

End AudioChain.

(** X5. [applyFade] on an attached video never ramps the low-pass
    cutoff below 2000 Hz, whatever the intensity, and records the
    intensity; for an intensity in [0,1] the cutoff is at most 20000 Hz,
    the high-shelf gain is in [-12, 0] dB and the gain in [0.85, 1]. *)
Theorem applyFade_parameter_ranges :
  forall (v : Z) (i : Q) (m : AudioProcessor.t) (p : AudioProcessor.Processor),
    AudioProcessor.get v m = Some p ->
    exists p',
      AudioProcessor.get v (AudioProcessor.applyFade v i m) = Some p'
      /\ AudioProcessor.currentIntensity p' = i
      /\ 2000 <= AudioProcessor.lowPassFrequency p'
      /\ (0 <= i <= 1 ->
          AudioProcessor.lowPassFrequency p' <= 20000
          /\ -12 <= AudioProcessor.highShelfGain p' <= 0
          /\ 0.85 <= AudioProcessor.gain p' <= 1).
Proof.
  intros v i m p H. eexists. split; [apply (get_applyFade_same v i m p H) |].
  cbn [AudioProcessor.currentIntensity AudioProcessor.lowPassFrequency
       AudioProcessor.highShelfGain AudioProcessor.gain].
  split; [reflexivity |]. split; [apply Q.le_max_r |].
  intro Hi. split; [| split; split; lra].
  apply Q.max_lub; lra.
Qed.

Lemma applyFade_parameter_ranges_witness :
  exists p',
    AudioProcessor.get 7
      (AudioProcessor.applyFade 7 0.5
         (AudioProcessor.attach (Returned tt) 7 AudioProcessor.constructor))
    = Some p'
    /\ AudioProcessor.currentIntensity p' = 0.5
    /\ 2000 <= AudioProcessor.lowPassFrequency p'
    /\ (0 <= 0.5 <= 1 ->
        AudioProcessor.lowPassFrequency p' <= 20000
        /\ -12 <= AudioProcessor.highShelfGain p' <= 0
        /\ 0.85 <= AudioProcessor.gain p' <= 1).
Proof.
  apply (applyFade_parameter_ranges 7 0.5 _
           (AudioProcessor.mkProcessor 20000 0 1.0 0)).
  reflexivity.
Defined.

(** X6. The processor map behaves as a map keyed by video: [applyFade]
    and [reset] on a video without a processor change nothing and
    [getState] reports it inactive with intensity 0; a successful
    [attach] of a new video makes it active with intensity 0, a failed
    one changes nothing, and [attach] of an attached video keeps its
    processor; after [applyFade] the state of the video is the applied
    intensity; [detach] makes it inactive; and none of [applyFade],
    [detach] touches the state of another video. *)
Theorem audio_processor_map :
  forall (v : Z) (i : Q) (m : AudioProcessor.t),
    (AudioProcessor.has v m = false ->
     AudioProcessor.applyFade v i m = m
     /\ AudioProcessor.reset v m = m
     /\ AudioProcessor.getState v m = (0, false)
     /\ AudioProcessor.getState v
          (AudioProcessor.attach (Returned tt) v m) = (0, true)
     /\ AudioProcessor.attach Thrown v m = m)
    /\ (AudioProcessor.has v m = true ->
        forall creation,
          AudioProcessor.attach creation v m = m
          /\ AudioProcessor.getState v (AudioProcessor.applyFade v i m)
             = (i, true))
    /\ AudioProcessor.getState v (AudioProcessor.detach v m) = (0, false)
    /\ (forall w,
          v <> w ->
          AudioProcessor.getState w (AudioProcessor.applyFade v i m)
          = AudioProcessor.getState w m
          /\ AudioProcessor.getState w (AudioProcessor.detach v m)
             = AudioProcessor.getState w m).
Proof.
  intros v i m. unfold AudioProcessor.has, AudioProcessor.getState.
  split; [| split; [| split]].
  - intro H. unfold AudioProcessor.reset, AudioProcessor.applyFade,
      AudioProcessor.attach, AudioProcessor.has.
    destruct (AudioProcessor.get v m) eqn:G; [discriminate |].
    rewrite get_set_same. repeat split.
  - intros H creation. unfold AudioProcessor.attach, AudioProcessor.has.
    destruct (AudioProcessor.get v m) as [p |] eqn:G; [| discriminate].
    split; [reflexivity |].
    rewrite (get_applyFade_same v i m p G). reflexivity.
  - unfold AudioProcessor.detach.
    destruct (AudioProcessor.get v m) eqn:G.
    + rewrite get_delete_same. reflexivity.
    + rewrite G. reflexivity.
  - intros w Hne. split.
    + rewrite (get_applyFade_other v w i m Hne). reflexivity.
    + unfold AudioProcessor.detach.
      destruct (AudioProcessor.get v m);
        [rewrite (get_delete_other v w m Hne) |]; reflexivity.
Qed.

Lemma audio_processor_map_witness :
  AudioProcessor.getState 7
    (AudioProcessor.applyFade 7 0.5
       (AudioProcessor.attach (Returned tt) 7 AudioProcessor.constructor))
  = (0.5, true).
Proof.
  destruct (audio_processor_map 7 0.5
              (AudioProcessor.attach (Returned tt) 7 AudioProcessor.constructor))
    as (_ & H & _).
  apply (H eq_refl (Returned tt)).
Defined.

(** ** What [_applyEffects] writes *)

Section ApplyEffects.

Import Rendering.

Lemma apply_to_video_rate (e : Effects) (video : Video) :
  (paused video = false -> ended video = false ->
   Qabs (rate (apply_to_video e video) - playbackRate e) <= 0.01)
  /\ (paused video = true \/ ended video = true ->
      rate (apply_to_video e video) = rate video).
Proof.
  unfold apply_to_video. cbn [rate]. split.
  - intros Hp He. rewrite Hp, He. cbn [negb andb].
    destruct (Qgt_bool (Qabs (rate video - playbackRate e)) 0.01) eqn:G.
    + assert (Z0 : playbackRate e - playbackRate e == 0) by ring.
      rewrite Z0. discriminate.
    + apply Qgt_bool_false_iff, G.
  - intros [H | H]; rewrite H; [| rewrite andb_false_r]; reflexivity.
Qed.

Lemma fold_applyFade_has (i : Q) (l : list Video) :
  forall m w,
    AudioProcessor.has w
      (fold_left (fun a video => AudioProcessor.applyFade (element video) i a)
                 l m)
    = AudioProcessor.has w m.
Proof.
  induction l as [| y l IH]; intros m w; cbn [fold_left]; [reflexivity |].
  rewrite IH. apply has_applyFade.
Qed.

(** After the loop, every video of the list that has a processor is at
    intensity [i]. *)
Lemma fold_applyFade_state (i : Q) (l : list Video) :
  forall m w,
    AudioProcessor.has w m = true ->
    In w (map element l) \/ AudioProcessor.getState w m = (i, true) ->
    AudioProcessor.getState w
      (fold_left (fun a video => AudioProcessor.applyFade (element video) i a)
                 l m)
    = (i, true).
Proof.
  induction l as [| y l IH]; intros m w Hhas H; cbn [fold_left].
  - destruct H as [[] | H]; exact H.
  - apply IH; [rewrite has_applyFade; exact Hhas |].
    destruct (Z.eq_dec (element y) w) as [E | N].
    + right. subst w. unfold AudioProcessor.getState, AudioProcessor.has in *.
      destruct (AudioProcessor.get (element y) m) as [p |] eqn:G;
        [| discriminate].
      rewrite (get_applyFade_same _ i m p G). reflexivity.
    + destruct H as [[H | H] | H].
      * contradiction.
      * left. exact H.
      * right. unfold AudioProcessor.getState.
        rewrite (get_applyFade_other _ w i m N). exact H.
Qed.

End ApplyEffects.

(** X7. After [_applyEffects], every registered video carries the
    filter of the current effects; a playing video has a playback rate
    within 0.01 of the playback-rate channel (whatever rate it had), a
    paused or ended one keeps its rate; every registered video with an
    audio chain is at the audio-intensity channel; and with effects in
    their declared ranges the body filter is the 30% blend: grayscale in
    [0, 0.3], saturate in [0.76, 1], brightness in [0.91, 1]. *)
Theorem applyEffects_writes :
  forall (e : Effects) (r : Rendering.t),
    (forall video',
        In video' (Rendering.videos (Rendering._applyEffects e r)) ->
        exists video,
          In video (Rendering.videos r)
          /\ Rendering.element video' = Rendering.element video
          /\ Rendering.paused video' = Rendering.paused video
          /\ Rendering.ended video' = Rendering.ended video
          /\ Rendering.filter video'
             = Some (grayscale e, saturation e, brightness e, blur e)
          /\ (Rendering.paused video = false ->
              Rendering.ended video = false ->
              Qabs (Rendering.rate video' - playbackRate e) <= 0.01)
          /\ (Rendering.paused video = true \/ Rendering.ended video = true ->
              Rendering.rate video' = Rendering.rate video))
    /\ (forall video,
          In video (Rendering.videos r) ->
          AudioProcessor.has (Rendering.element video)
                             (Rendering.audioProcessor r) = true ->
          AudioProcessor.getState (Rendering.element video)
            (Rendering.audioProcessor (Rendering._applyEffects e r))
          = (audioIntensity e, true))
    /\ (in_range e ->
        exists g s b,
          Rendering.bodyFilter (Rendering._applyEffects e r) = Some (g, s, b)
          /\ 0 <= g <= 0.3 /\ 0.76 <= s <= 1 /\ 0.91 <= b <= 1).
Proof.
  intros e r. split; [| split].
  - intros video' Hin. unfold Rendering._applyEffects in Hin.
    cbn [Rendering.videos] in Hin. apply in_map_iff in Hin.
    destruct Hin as (video & E & Hin). subst video'.
    exists video. split; [exact Hin |].
    destruct (apply_to_video_rate e video) as [R1 R2].
    repeat split; assumption.
  - intros video Hin Hhas. unfold Rendering._applyEffects.
    cbn [Rendering.audioProcessor].
    apply fold_applyFade_state; [exact Hhas |].
    left. apply in_map, Hin.
  - intro H. eexists. eexists. eexists. split; [reflexivity |].
    pose proof (H Grayscale) as G. pose proof (H Saturation) as S.
    pose proof (H Brightness) as B.
    cbn in G, S, B. unfold C.max, C.min in *. cbn in *.
    repeat split; lra.
Qed.

Lemma applyEffects_writes_witness :
  exists g s b,
    Rendering.bodyFilter
      (Rendering._applyEffects calming Rendering.constructor) = Some (g, s, b)
    /\ 0 <= g <= 0.3 /\ 0.76 <= s <= 1 /\ 0.91 <= b <= 1.
Proof.
  destruct (applyEffects_writes calming Rendering.constructor) as (_ & _ & H).
  apply H. apply calming_in_range.
Defined.

(** ** How fast the score can move *)

Section ScoreEnvelope.

Import NeuroFadeDetector.

Variable log10 : Q -> Q.

Lemma smooth_upper (rawScore previous : Q) :
  smooth rawScore previous <= 15 + 0.85 * previous.
Proof.
  unfold smooth. pose proof (Q.le_min_r rawScore 100). lra.
Qed.

Lemma smooth_lower (rawScore previous : Q) :
  0 <= rawScore -> 0.85 * previous <= smooth rawScore previous.
Proof.
  intro H. unfold smooth.
  assert (0 <= Qmin rawScore 100) by (apply Q.min_glb; [exact H | discriminate]).
  lra.
Qed.

Lemma observed_scores_length (ticks : list (Z * t)) :
  forall previous,
    length (observed_scores log10 previous ticks) = length ticks.
Proof.
  induction ticks as [| [now d] ticks IH]; intro previous;
    cbn [observed_scores length]; [reflexivity |].
  rewrite IH. reflexivity.
Qed.

(** The [n]-th observed score is at most
    [100 - 0.85^(n+1) * (100 - previous)], whatever the signals. *)
Lemma observed_scores_upper (ticks : list (Z * t)) :
  forall previous n,
    (n < length ticks)%nat ->
    nth n (observed_scores log10 previous ticks) 0
    <= 100 - FadeEngine.Qpow 0.85 (S n) * (100 - previous).
Proof.
  induction ticks as [| [now d] ticks IH]; intros previous n Hn;
    cbn [length] in Hn; [lia |].
  cbn [observed_scores].
  set (score := dopamineScore
                  (fst (_updateDopamineScore log10 now
                          (set_dopamineScore previous d)))).
  assert (U : score <= 15 + 0.85 * previous).
  { unfold score, _updateDopamineScore.
    cbn [fst set_dopamineScore dopamineScore]. apply smooth_upper. }
  destruct n as [| n]; cbn [nth].
  - cbn [FadeEngine.Qpow]. lra.
  - apply Qle_trans with (1 := IH score n ltac:(lia)).
    assert (P : 0 <= FadeEngine.Qpow 0.85 (S n)).
    { clear. induction (S n) as [| k IHk]; cbn [FadeEngine.Qpow];
        [discriminate | apply Qmult_le_0_compat; [discriminate | exact IHk]]. }
    change (FadeEngine.Qpow 0.85 (S (S n)))
      with (0.85 * FadeEngine.Qpow 0.85 (S n)).
    set (q := FadeEngine.Qpow 0.85 (S n)) in *.
    assert (M : q * (15 + 0.85 * previous) >= q * score).
    { rewrite !(Qmult_comm q). apply Qmult_le_compat_r; assumption. }
    lra.
Qed.

(** With valid signals it is at least [0.85^(n+1) * previous]. *)
Lemma observed_scores_lower (ticks : list (Z * t)) :
  (forall x, 1 <= x -> 0 <= log10 x) ->
  forall previous n,
    Forall valid_signals ticks ->
    (n < length ticks)%nat ->
    FadeEngine.Qpow 0.85 (S n) * previous
    <= nth n (observed_scores log10 previous ticks) 0.
Proof.
  intro Hlog.
  induction ticks as [| [now d] ticks IH]; intros previous n Hv Hn;
    cbn [length] in Hn; [lia |].
  inversion Hv as [| ? ? Hv1 Hv2]; subst.
  cbn [observed_scores].
  set (score := dopamineScore
                  (fst (_updateDopamineScore log10 now
                          (set_dopamineScore previous d)))).
  assert (L : 0.85 * previous <= score).
  { unfold score, _updateDopamineScore.
    cbn [fst set_dopamineScore dopamineScore]. apply smooth_lower.
    rewrite details_set_dopamineScore.
    apply rawScore_nonneg; [exact Hlog | exact Hv1]. }
  destruct n as [| n]; cbn [nth].
  - cbn [FadeEngine.Qpow]. lra.
  - apply Qle_trans with (2 := IH score n Hv2 ltac:(lia)).
    assert (P : 0 <= FadeEngine.Qpow 0.85 (S n)).
    { clear. induction (S n) as [| k IHk]; cbn [FadeEngine.Qpow];
        [discriminate | apply Qmult_le_0_compat; [discriminate | exact IHk]]. }
    change (FadeEngine.Qpow 0.85 (S (S n)))
      with (0.85 * FadeEngine.Qpow 0.85 (S n)).
    set (q := FadeEngine.Qpow 0.85 (S n)) in *.
    assert (M : q * (0.85 * previous) <= q * score).
    { rewrite !(Qmult_comm q). apply Qmult_le_compat_r; assumption. }
    lra.
Qed.

(** With one composite [r] at every tick the scores follow the closed
    form of the moving average. *)
Lemma observed_scores_constant (r : Q) (ticks : list (Z * t)) :
  forall previous n,
    Forall (fun tick => rawScore (details log10 (fst tick) (snd tick)) == r)
           ticks ->
    (n < length ticks)%nat ->
    nth n (observed_scores log10 previous ticks) 0
    == Qmin r 100 + FadeEngine.Qpow 0.85 (S n) * (previous - Qmin r 100).
Proof.
  induction ticks as [| [now d] ticks IH]; intros previous n Hr Hn;
    cbn [length] in Hn; [lia |].
  inversion Hr as [| ? ? Hr1 Hr2]; subst. cbn [fst snd] in Hr1.
  cbn [observed_scores].
  set (score := dopamineScore
                  (fst (_updateDopamineScore log10 now
                          (set_dopamineScore previous d)))).
  assert (E : score == 0.15 * Qmin r 100 + 0.85 * previous).
  { unfold score, _updateDopamineScore.
    cbn [fst set_dopamineScore dopamineScore].
    rewrite details_set_dopamineScore. unfold smooth.
    rewrite Hr1. ring. }
  destruct n as [| n]; cbn [nth].
  - cbn [FadeEngine.Qpow]. rewrite E. ring.
  - rewrite (IH score n Hr2 ltac:(lia)).
    change (FadeEngine.Qpow 0.85 (S (S n)))
      with (0.85 * FadeEngine.Qpow 0.85 (S n)).
    rewrite E. ring.
Qed.

End ScoreEnvelope.

(** X8. The score can rise and fall only so fast.  Whatever the
    signals, the sensitivity and [Math.log10], at a clock that is not
    behind the start time an update gives at most
    [15 + 0.85 * previous], and over ticks with such clocks the score
    observed at the [n+1]-th tick is at most
    [100 - 0.85^(n+1) * (100 - previous)]: a score that starts at most
    100 never exceeds 100.  With valid signals an update gives at least
    [0.85 * previous] and the [n+1]-th score is at least
    [0.85^(n+1) * previous]. *)
Theorem score_rate_limits :
  forall (log10 : Q -> Q),
    (forall now d,
        (NeuroFadeDetector.startTime d <= now)%Z ->
        NeuroFadeDetector.dopamineScore
          (fst (NeuroFadeDetector._updateDopamineScore log10 now d))
        <= 15 + 0.85 * NeuroFadeDetector.dopamineScore d)
    /\ (forall previous ticks n,
          Forall (fun tick : Z * NeuroFadeDetector.t =>
                    (NeuroFadeDetector.startTime (snd tick) <= fst tick)%Z)
                 ticks ->
          (n < length ticks)%nat ->
          nth n (NeuroFadeDetector.observed_scores log10 previous ticks) 0
          <= 100 - FadeEngine.Qpow 0.85 (S n) * (100 - previous))
    /\ ((forall x, 1 <= x -> 0 <= log10 x) ->
        forall previous ticks n,
          Forall NeuroFadeDetector.valid_signals ticks ->
          (n < length ticks)%nat ->
          FadeEngine.Qpow 0.85 (S n) * previous
          <= nth n (NeuroFadeDetector.observed_scores log10 previous ticks) 0).
Proof.
  intro log10. split; [| split].
  - intros now d _. unfold NeuroFadeDetector._updateDopamineScore.
    cbn [fst NeuroFadeDetector.set_dopamineScore
         NeuroFadeDetector.dopamineScore].
    apply smooth_upper.
  - intros previous ticks n _. apply observed_scores_upper.
  - intros Hlog previous ticks n. apply observed_scores_lower, Hlog.
Qed.

Lemma score_rate_limits_witness :
  nth 1 (NeuroFadeDetector.observed_scores NeuroFadeDetector.floor_log10 0
           [(0%Z, Examples.saturated_detector);
            (1000%Z, Examples.saturated_detector)]) 0
  <= 100 - FadeEngine.Qpow 0.85 2 * (100 - 0).
Proof.
  destruct (score_rate_limits NeuroFadeDetector.floor_log10) as (_ & H & _).
  apply H.
  - repeat constructor; cbn; lia.
  - cbn. lia.
Defined.

(** X9. When every score tick sees the same composite [rawScore = r],
    the score after [n+1] ticks is
    [m + 0.85^(n+1) * (previous - m)] with [m = min(r, 100)]: it moves
    towards [m] by the factor 0.85 a tick and never passes it. *)
Theorem score_under_constant_composite :
  forall (log10 : Q -> Q) (r previous : Q) (ticks : list (Z * NeuroFadeDetector.t))
         (n : nat),
    Forall (fun tick =>
              NeuroFadeDetector.rawScore
                (NeuroFadeDetector.details log10 (fst tick) (snd tick)) == r)
           ticks ->
    (n < length ticks)%nat ->
    nth n (NeuroFadeDetector.observed_scores log10 previous ticks) 0
    == Qmin r 100 + FadeEngine.Qpow 0.85 (S n) * (previous - Qmin r 100).
Proof.
  intros log10 r previous ticks n. apply observed_scores_constant.
Qed.

Lemma score_under_constant_composite_witness :
  nth 1 (NeuroFadeDetector.observed_scores NeuroFadeDetector.floor_log10 0
           [(0%Z, Examples.saturated_detector);
            (0%Z, Examples.saturated_detector)]) 0
  == Qmin 100 100 + FadeEngine.Qpow 0.85 2 * (0 - Qmin 100 100).
Proof.
  apply (score_under_constant_composite NeuroFadeDetector.floor_log10 100).
  - repeat constructor.
  - cbn. lia.
Defined.

(** ** The sub-scores *)

Section SubScores.

Import NeuroFadeDetector.

Variable log10 : Q -> Q.
Hypothesis log10_nonneg : forall x, 1 <= x -> 0 <= log10 x.

Lemma Qmin_1_unit (x : Q) : 0 <= x -> 0 <= Qmin x 1 * 100 <= 100.
Proof.
  intro H. pose proof (Qmin_1_nonneg x H). pose proof (Q.le_min_r x 1).
  split; lra.
Qed.

Lemma details_ranges (now : Z) (d : t) :
  valid_signals (now, d) ->
  let ds := details log10 now d in
  0 <= sceneCutScore ds <= 100
  /\ 0 <= scrollScore ds <= 100
  /\ 0 <= timeScore ds <= 100
  /\ 0 <= contentChangeScore ds <= 100
  /\ 0 <= videoScore ds <= 100
  /\ 0 <= rawScore ds <= 100 * (0.5 + sensitivity d * 1.5)
  /\ rawScore ds <= 200.
Proof.
  intros (Hs & Ht & Hm). cbv zeta. unfold details.
  cbn [sceneCutScore scrollScore timeScore contentChangeScore videoScore
       rawScore].
  set (m := FrameAnalyzer.getMetrics (frameAnalyzer d)) in *.
  pose proof (cutRate_nonneg (frameAnalyzer d)) as Hc. fold m in Hc.
  set (c1 := Qmin (FrameAnalyzer.metricsCutRate m
                   / C.SCENE_CUT.HIGH_CUT_RATE) 1).
  set (c2 := Qmin (FrameAnalyzer.metricsAvgMotion m
                   / C.SCENE_CUT.MOTION_THRESHOLD) 1).
  assert (H1 : 0 <= c1 <= 1).
  { split; [apply Qmin_1_nonneg | apply Q.le_min_r].
    unfold C.SCENE_CUT.HIGH_CUT_RATE. qlra. }
  assert (H2 : 0 <= c2 <= 1).
  { split; [apply Qmin_1_nonneg | apply Q.le_min_r].
    unfold C.SCENE_CUT.MOTION_THRESHOLD. qlra. }
  assert (H3 : 0 <= Qmin (of_nat (fastScrolls d)
                          / C.SCROLL.RAPID_SCROLL_COUNT) 1 * 100 <= 100).
  { apply Qmin_1_unit. pose proof (of_nat_nonneg (fastScrolls d)).
    unfold C.SCROLL.RAPID_SCROLL_COUNT. qlra. }
  assert (H4 : 0 <= Qmin (of_nat (length (domHeightChanges d))
                          / C.SCROLL.INFINITE_SCROLL_THRESHOLD) 1 * 100
               <= 100).
  { apply Qmin_1_unit.
    pose proof (of_nat_nonneg (length (domHeightChanges d))).
    unfold C.SCROLL.INFINITE_SCROLL_THRESHOLD. qlra. }
  assert (H5 : 0 <= Qmin (of_nat (activeVideos d) / 3) 1 * 100 <= 100).
  { apply Qmin_1_unit. pose proof (of_nat_nonneg (activeVideos d)). qlra. }
  assert (H6 : 0 <= Qmin (log10 (1 + inject_Z (now - startTime d) / 1000 / 60)
                          * 50) 100 <= 100).
  { split; [| apply Q.le_min_r]. apply Q.min_glb; [| discriminate].
    assert (E : 0 <= inject_Z (now - startTime d)).
    { change 0 with (inject_Z 0). rewrite <- Zle_Qle. lia. }
    assert (L : 0 <= log10 (1 + inject_Z (now - startTime d) / 1000 / 60)).
    { apply log10_nonneg. qlra. }
    lra. }
  unfold C.SCORE_WEIGHTS.SCENE_CUTS, C.SCORE_WEIGHTS.SCROLL_VELOCITY,
    C.SCORE_WEIGHTS.TIME_ON_PAGE, C.SCORE_WEIGHTS.CONTENT_CHANGES,
    C.SCORE_WEIGHTS.VIDEO_COUNT.
  set (s3 := Qmin (of_nat (fastScrolls d) / C.SCROLL.RAPID_SCROLL_COUNT) 1
             * 100) in *.
  set (s4 := Qmin (of_nat (length (domHeightChanges d))
                   / C.SCROLL.INFINITE_SCROLL_THRESHOLD) 1 * 100) in *.
  set (s5 := Qmin (of_nat (activeVideos d) / 3) 1 * 100) in *.
  set (s6 := Qmin (log10 (1 + inject_Z (now - startTime d) / 1000 / 60) * 50)
                  100) in *.
  set (w := (c1 * 0.7 + c2 * 0.3) * 100 * 0.30 + s3 * 0.25 + s6 * 0.20
            + s4 * 0.15 + s5 * 0.10).
  assert (W : 0 <= w <= 100) by (unfold w; split; lra).
  set (k := 0.5 + sensitivity d * 1.5).
  assert (K : 0 <= k <= 2) by (unfold k; split; lra).
  assert (P1 : 0 <= w * k) by (apply Qmult_le_0_compat; lra).
  assert (P2 : w * k <= 100 * k) by (apply Qmult_le_compat_r; lra).
  repeat split; lra.
Qed.

End SubScores.

(** X10. With valid signals (sensitivity in [0,1], a clock that has
    not run backwards, non-negative average motion) each of the five
    sub-scores handed to [onScoreUpdate] is in [0,100], and the
    composite [rawScore] is between 0 and
    [100 * (0.5 + 1.5 * sensitivity)], so at most 200. *)
Theorem sub_scores_in_range :
  forall (log10 : Q -> Q) (now : Z) (d : NeuroFadeDetector.t),
    (forall x, 1 <= x -> 0 <= log10 x) ->
    NeuroFadeDetector.valid_signals (now, d) ->
    let ds := NeuroFadeDetector.details log10 now d in
    0 <= NeuroFadeDetector.sceneCutScore ds <= 100
    /\ 0 <= NeuroFadeDetector.scrollScore ds <= 100
    /\ 0 <= NeuroFadeDetector.timeScore ds <= 100
    /\ 0 <= NeuroFadeDetector.contentChangeScore ds <= 100
    /\ 0 <= NeuroFadeDetector.videoScore ds <= 100
    /\ 0 <= NeuroFadeDetector.rawScore ds
       <= 100 * (0.5 + NeuroFadeDetector.sensitivity d * 1.5)
    /\ NeuroFadeDetector.rawScore ds <= 200.
Proof.
  intros log10 now d Hlog Hv. apply details_ranges; assumption.
Qed.

Lemma sub_scores_in_range_witness :
  NeuroFadeDetector.rawScore
    (NeuroFadeDetector.details NeuroFadeDetector.floor_log10 1000
       Examples.saturated_detector) <= 200.
Proof.
  apply (sub_scores_in_range NeuroFadeDetector.floor_log10 1000
           Examples.saturated_detector).
  - intros x _. apply floor_log10_nonneg.
  - repeat split; discriminate.
Defined.

(** ** The active video *)

Section ActiveVideo.

Import NeuroFadeDetector DetectorRuns.

Lemma pick_fold (l : list VideoElement) :
  forall (seen : list VideoElement) (b : option VideoElement) (a : Q),
    (forall w, In w seen -> eligible w = true -> visibleArea w <= a) ->
    0 <= a ->
    match b with
    | None => a == 0
    | Some v => In v seen /\ eligible v = true /\ a = visibleArea v /\ 0 < a
    end ->
    let '(b', a') := fold_left pick l (b, a) in
    (forall w, In w (seen ++ l) -> eligible w = true -> visibleArea w <= a')
    /\ match b' with
       | None => a' == 0
       | Some v =>
           In v (seen ++ l) /\ eligible v = true /\ a' = visibleArea v
           /\ 0 < a'
       end.
Proof.
  induction l as [| y l IH]; intros seen b a Hmax Ha Hb.
  - cbn [fold_left]. rewrite app_nil_r. split; assumption.
  - cbn [fold_left].
    assert (Happ : seen ++ y :: l = (seen ++ [y]) ++ l)
      by (rewrite <- app_assoc; reflexivity).
    rewrite Happ. unfold pick at 2. cbn [snd].
    destruct (paused y || ended y || negb (offsetParent y)) eqn:Skip.
    + apply IH; [| exact Ha |].
      * intros w Hw He. apply in_app_or in Hw. destruct Hw as [Hw | [Hw | []]].
        -- apply Hmax; assumption.
        -- subst w. unfold eligible in He. rewrite Skip in He. discriminate.
      * destruct b as [v |]; [| exact Hb].
        destruct Hb as (H1 & H2 & H3 & H4).
        repeat split; try assumption. apply in_or_app. left. exact H1.
    + destruct (Qgt_bool (visibleArea y) a) eqn:G.
      * apply Qgt_bool_iff in G. apply IH.
        -- intros w Hw He. apply in_app_or in Hw.
           destruct Hw as [Hw | [Hw | []]].
           ++ specialize (Hmax w Hw He). lra.
           ++ subst w. apply Qle_refl.
        -- lra.
        -- repeat split.
           ++ apply in_or_app. right. left. reflexivity.
           ++ unfold eligible. rewrite Skip. reflexivity.
           ++ lra.
      * apply Qgt_bool_false_iff in G. apply IH; [| exact Ha |].
        -- intros w Hw He. apply in_app_or in Hw.
           destruct Hw as [Hw | [Hw | []]].
           ++ apply Hmax; assumption.
           ++ subst w. exact G.
        -- destruct b as [v |]; [| exact Hb].
           destruct Hb as (H1 & H2 & H3 & H4).
           repeat split; try assumption. apply in_or_app. left. exact H1.
Qed.

Lemma eligible_true (w : VideoElement) :
  eligible w = true
  <-> paused w = false /\ ended w = false /\ offsetParent w = true.
Proof.
  unfold eligible.
  destruct (paused w), (ended w), (offsetParent w); cbn; intuition congruence.
Qed.

End ActiveVideo.

(** X11. [_getActiveVideo] returns a registered video that is playing
    (not paused, not ended), laid out and visible on a positive area,
    and no playing, laid-out registered video has a larger visible
    area; it returns no video exactly when no playing, laid-out
    registered video has a positive visible area. *)
Theorem getActiveVideo_largest_visible :
  forall d : NeuroFadeDetector.t,
    match NeuroFadeDetector._getActiveVideo d with
    | Some v =>
        In v (NeuroFadeDetector.videos d)
        /\ paused v = false /\ ended v = false /\ offsetParent v = true
        /\ 0 < visibleArea v
        /\ forall w,
             In w (NeuroFadeDetector.videos d) ->
             paused w = false -> ended w = false -> offsetParent w = true ->
             visibleArea w <= visibleArea v
    | None =>
        forall w,
          In w (NeuroFadeDetector.videos d) ->
          paused w = false -> ended w = false -> offsetParent w = true ->
          visibleArea w <= 0
    end.
Proof.
  intro d. unfold NeuroFadeDetector._getActiveVideo.
  pose proof (pick_fold (NeuroFadeDetector.videos d) [] None 0) as H.
  change (fold_left _ (NeuroFadeDetector.videos d) (None, 0))
    with (fold_left DetectorRuns.pick (NeuroFadeDetector.videos d) (None, 0)).
  destruct (fold_left DetectorRuns.pick (NeuroFadeDetector.videos d) (None, 0))
    as [b a].
  destruct H as [Hmax Hb];
    [intros w [] | discriminate | reflexivity |].
  cbn [fst app] in *. destruct b as [v |].
  - destruct Hb as (H1 & H2 & H3 & H4). apply eligible_true in H2.
    destruct H2 as (P & E & O).
    repeat split; try assumption; [rewrite <- H3; exact H4 |].
    intros w Hw Pw Ew Ow. rewrite <- H3. apply Hmax; [exact Hw |].
    apply eligible_true. auto.
  - intros w Hw Pw Ew Ow. rewrite <- Hb. apply Hmax; [exact Hw |].
    apply eligible_true. auto.
Qed.

Lemma getActiveVideo_largest_visible_witness :
  match NeuroFadeDetector._getActiveVideo Examples.saturated_detector with
  | Some v => 0 < visibleArea v
  | None => True
  end.
Proof.
  pose proof (getActiveVideo_largest_visible Examples.saturated_detector) as H.
  destruct (NeuroFadeDetector._getActiveVideo Examples.saturated_detector);
    [apply H | exact I].
Defined.

(** ** The scroll queue *)

Section ScrollQueue.

Import NeuroFadeDetector DetectorRuns.

Lemma scrollHandler_fields (now : Z) (scrollY : Q) (d : t) :
  scrollEvents (_scrollHandler now scrollY d)
  = filter (recent_scroll now)
           (scrollEvents d
            ++ [scroll_event (lastScrollY d) (lastScrollTime d) now scrollY])
  /\ lastScrollY (_scrollHandler now scrollY d) = scrollY
  /\ lastScrollTime (_scrollHandler now scrollY d) = now.
Proof. repeat split. Qed.

(** Filtering for an earlier time first changes nothing. *)
Lemma filter_recent_twice (t1 t2 : Z) (l : list ScrollEvent) :
  (t1 <= t2)%Z ->
  filter (recent_scroll t2) (filter (recent_scroll t1) l)
  = filter (recent_scroll t2) l.
Proof.
  intro H. induction l as [| e l IH]; [reflexivity |].
  cbn [filter].
  destruct (recent_scroll t1 e) eqn:A; destruct (recent_scroll t2 e) eqn:B;
    cbn [filter]; rewrite ?B, ?IH; try reflexivity.
  exfalso. unfold recent_scroll in A, B.
  apply Z.ltb_lt in B. apply Z.ltb_ge in A. lia.
Qed.

Lemma last_time_ge (notes : list (Z * Q)) :
  forall from, nondecreasing from notes -> (from <= last_time from notes)%Z.
Proof.
  induction notes as [| [now y] notes IH]; intros from H; cbn [last_time].
  - lia.
  - destruct H as [H1 H2]. specialize (IH now H2). lia.
Qed.

Lemma scrolls_queue (notes : list (Z * Q)) :
  forall (d : t) (now : Z) (scrollY : Q),
    nondecreasing now notes ->
    let d' := scrolls ((now, scrollY) :: notes) d in
    scrollEvents d'
    = filter (recent_scroll (last_time now notes))
             (scrollEvents d
              ++ scroll_events (lastScrollY d) (lastScrollTime d)
                               ((now, scrollY) :: notes))
    /\ lastScrollTime d' = last_time now notes.
Proof.
  induction notes as [| [now' y'] notes IH]; intros d now scrollY H.
  - cbn. split; reflexivity.
  - destruct H as [H1 H2]. cbv zeta.
    change (scrolls ((now, scrollY) :: (now', y') :: notes) d)
      with (scrolls ((now', y') :: notes) (_scrollHandler now scrollY d)).
    destruct (IH (_scrollHandler now scrollY d) now' y' H2) as [E T].
    cbv zeta in E, T. rewrite E. split; [| exact T].
    destruct (scrollHandler_fields now scrollY d) as (F1 & F2 & F3).
    rewrite F1, F2, F3. cbn [last_time].
    pose proof (last_time_ge notes now' H2) as G.
    set (ev := scroll_event (lastScrollY d) (lastScrollTime d) now scrollY).
    set (rest := scroll_events scrollY now ((now', y') :: notes)).
    change (scroll_events (lastScrollY d) (lastScrollTime d)
              ((now, scrollY) :: (now', y') :: notes))
      with (ev :: rest).
    replace (scrollEvents d ++ ev :: rest)
      with ((scrollEvents d ++ [ev]) ++ rest)
      by (rewrite <- app_assoc; reflexivity).
    rewrite (filter_app _ (filter _ _) rest).
    rewrite (filter_recent_twice now (last_time now' notes)) by lia.
    rewrite <- filter_app. reflexivity.
Qed.

End ScrollQueue.

(** X12. Over a sequence of scroll notifications whose clock does not
    run backwards, the scroll queue is the trailing window of all
    events: it holds, in order, exactly the events of the earlier queue
    and of the notifications that are less than 10000 ms older than the
    last notification, where the event of a notification has the
    velocity [|dy| / dt] over the time since the notification before
    (over 1 ms when no time has passed). *)
Theorem scroll_queue_is_trailing_window :
  forall (d : NeuroFadeDetector.t) (now : Z) (scrollY : Q)
         (notes : list (Z * Q)),
    DetectorRuns.nondecreasing now notes ->
    NeuroFadeDetector.scrollEvents
      (DetectorRuns.scrolls ((now, scrollY) :: notes) d)
    = filter (fun e =>
                (DetectorRuns.last_time now notes - NeuroFadeDetector.time e
                 <? 10000)%Z)
             (NeuroFadeDetector.scrollEvents d
              ++ DetectorRuns.scroll_events
                   (NeuroFadeDetector.lastScrollY d)
                   (NeuroFadeDetector.lastScrollTime d)
                   ((now, scrollY) :: notes)).
Proof.
  intros d now scrollY notes H.
  apply (proj1 (scrolls_queue notes d now scrollY H)).
Qed.

Lemma scroll_queue_is_trailing_window_witness :
  NeuroFadeDetector.scrollEvents
    (DetectorRuns.scrolls [(100%Z, 1000); (400%Z, 1200); (11000%Z, 1300)]
       (NeuroFadeDetector.constructor 0 0 2000))
  = filter (fun e => (11000 - NeuroFadeDetector.time e <? 10000)%Z)
           (DetectorRuns.scroll_events 0 0
              [(100%Z, 1000); (400%Z, 1200); (11000%Z, 1300)]).
Proof.
  apply (scroll_queue_is_trailing_window
           (NeuroFadeDetector.constructor 0 0 2000) 100 1000
           [(400%Z, 1200); (11000%Z, 1300)]).
  cbn. lia.
Defined.

(** ** The histogram of a frame *)

Section FrameHistogram.

Import FrameAnalyzer.

Lemma incr_length (i : nat) : forall h, length (incr i h) = length h.
Proof.
  induction i as [| i IH]; intros [| x h]; cbn [incr length];
    try reflexivity.
  rewrite IH. reflexivity.
Qed.

Lemma incr_out_of_range (i : nat) :
  forall h, (length h <= i)%nat -> incr i h = h.
Proof.
  induction i as [| i IH]; intros [| x h] H; cbn [incr length] in *;
    try reflexivity; try lia.
  rewrite IH by lia. reflexivity.
Qed.

Lemma incr_nonnegative (i : nat) :
  forall h, nonnegative h -> nonnegative (incr i h).
Proof.
  induction i as [| i IH]; intros [| x h] H; cbn [incr];
    try (constructor; fail); inversion H; subst; constructor;
    try assumption.
  - lra.
  - apply IH. assumption.
Qed.

Lemma total_incr (i : nat) :
  forall h, (i < length h)%nat -> total (incr i h) == total h + 1.
Proof.
  induction i as [| i IH]; intros [| x h] H; cbn [incr length] in *;
    try lia.
  - change (x + 1 + total h == x + total h + 1). ring.
  - change (x + total (incr i h) == x + total h + 1).
    rewrite IH by lia. ring.
Qed.

Lemma firstn_incr (n : nat) :
  forall i h, firstn n (incr i h) = incr i (firstn n h).
Proof.
  induction n as [| n IH]; intros i h.
  - cbn [firstn]. destruct i; reflexivity.
  - destruct h as [| x h]; [destruct i; reflexivity |].
    destruct i as [| i]; cbn [incr firstn]; [reflexivity |].
    rewrite IH. reflexivity.
Qed.

Lemma skipn_incr (n : nat) :
  forall i h,
    skipn n (incr i h)
    = if (i <? n)%nat then skipn n h else incr (i - n) (skipn n h).
Proof.
  induction n as [| n IH]; intros i h.
  - cbn [skipn]. rewrite Nat.sub_0_r. reflexivity.
  - destruct h as [| x h].
    + destruct i; cbn [incr skipn]; destruct (_ <? _)%nat;
        try reflexivity; destruct (_ - _)%nat; reflexivity.
    + destruct i as [| i]; cbn [incr skipn]; [reflexivity |].
      rewrite IH. reflexivity.
Qed.

Lemma incr_at_nat (i : nat) (h : list Q) :
  incr_at (Z.of_nat i) h = incr i h.
Proof.
  unfold incr_at.
  destruct (Z.ltb_spec (Z.of_nat i) 0); [lia |].
  rewrite Nat2Z.id. reflexivity.
Qed.

(** A byte falls into one of the [BINS] bins. *)
Lemma bin_of_byte (value : Z) :
  FrameRuns.is_byte value ->
  exists i : nat,
    bin_of (256 / inject_Z (Z.of_nat BINS)) value = Z.of_nat i
    /\ (i < BINS)%nat.
Proof.
  intros [H0 H255]. unfold bin_of.
  set (x := inject_Z value / (256 / inject_Z (Z.of_nat BINS))).
  assert (Ev : x == inject_Z value / 16).
  { unfold x. change (inject_Z (Z.of_nat BINS)) with 16.
    unfold Qdiv. change (/ (256 * / 16)) with (16 # 256).
    change (/ 16) with (1 # 16).
    setoid_replace (16 # 256) with (1 # 16) by reflexivity. reflexivity. }
  assert (V0 : 0 <= inject_Z value)
    by (change 0 with (inject_Z 0); rewrite <- Zle_Qle; exact H0).
  assert (V255 : inject_Z value <= 255)
    by (change 255 with (inject_Z 255); rewrite <- Zle_Qle; exact H255).
  assert (X0 : 0 <= x) by (rewrite Ev; qlra).
  assert (X16 : x < 16) by (rewrite Ev; qlra).
  assert (F0 : (0 <= Qfloor x)%Z).
  { change 0%Z with (Qfloor 0). apply Qfloor_resp_le, X0. }
  assert (F16 : (Qfloor x < 16)%Z).
  { rewrite Zlt_Qlt. apply Qle_lt_trans with x; [apply Qfloor_le |].
    exact X16. }
  exists (Z.to_nat (Qfloor x)). split.
  - rewrite Z2Nat.id by exact F0. reflexivity.
  - change BINS with 16%nat. lia.
Qed.

(** One pixel adds one count to each channel. *)
Lemma pixel_counts (n : Q) (h : list Q) (r g b : nat) :
  FrameRuns.channel_counts n h ->
  (r < BINS)%nat -> (g < BINS)%nat -> (b < BINS)%nat ->
  FrameRuns.channel_counts (n + 1)
    (incr (BINS * 2 + b) (incr (BINS + g) (incr r h))).
Proof.
  intros (N & L & R & G & B) Hr Hg Hb.
  unfold FrameRuns.channel_counts.
  split; [repeat apply incr_nonnegative; exact N |].
  split; [rewrite !incr_length; exact L |].
  assert (L1 : length (firstn BINS h) = BINS)
    by (rewrite length_firstn, L; change BINS with 16%nat; lia).
  assert (L2 : length (firstn BINS (skipn BINS h)) = BINS)
    by (rewrite length_firstn, length_skipn, L; change BINS with 16%nat; lia).
  assert (L3 : length (skipn (BINS * 2) h) = BINS)
    by (rewrite length_skipn, L; change BINS with 16%nat; lia).
  split; [| split].
  - rewrite !firstn_incr.
    rewrite (incr_out_of_range (BINS * 2 + b))
      by (rewrite !incr_length, L1; lia).
    rewrite (incr_out_of_range (BINS + g)) by (rewrite !incr_length, L1; lia).
    rewrite total_incr by (rewrite L1; exact Hr).
    rewrite R. reflexivity.
  - rewrite !skipn_incr.
    replace (BINS * 2 + b <? BINS)%nat with false
      by (symmetry; apply Nat.ltb_ge; lia).
    replace (BINS + g <? BINS)%nat with false
      by (symmetry; apply Nat.ltb_ge; lia).
    replace (r <? BINS)%nat with true by (symmetry; apply Nat.ltb_lt; lia).
    rewrite !firstn_incr.
    rewrite (incr_out_of_range (BINS * 2 + b - BINS))
      by (rewrite !incr_length, L2; lia).
    rewrite total_incr by (rewrite L2; lia).
    rewrite G. reflexivity.
  - rewrite !skipn_incr.
    replace (BINS * 2 + b <? BINS * 2)%nat with false
      by (symmetry; apply Nat.ltb_ge; lia).
    replace (BINS + g <? BINS * 2)%nat with true
      by (symmetry; apply Nat.ltb_lt; lia).
    replace (r <? BINS * 2)%nat with true by (symmetry; apply Nat.ltb_lt; lia).
    rewrite total_incr by (rewrite L3; lia).
    rewrite B. reflexivity.
Qed.

Lemma count_pixels_channel_counts (pixels : nat) :
  forall (data : list Z) (n : Q) (h : list Q),
    FrameRuns.image_data pixels data ->
    FrameRuns.channel_counts n h ->
    FrameRuns.channel_counts (n + inject_Z (Z.of_nat pixels))
      (count_pixels BINS (256 / inject_Z (Z.of_nat BINS)) data h).
Proof.
  induction pixels as [| pixels IH]; intros data n h [L Bs] Hh.
  - destruct data; [| discriminate L]. cbn [count_pixels].
    destruct Hh as (N & Lh & R & G & B).
    repeat split; try assumption; cbn [Z.of_nat inject_Z].
    + rewrite R. unfold inject_Z. ring.
    + rewrite G. unfold inject_Z. ring.
    + rewrite B. unfold inject_Z. ring.
  - destruct data as [| r [| g [| b [| a rest]]]];
      try (cbn [length] in L; lia).
    cbn [count_pixels].
    inversion Bs as [| ? ? Br Bs1]; subst.
    inversion Bs1 as [| ? ? Bg Bs2]; subst.
    inversion Bs2 as [| ? ? Bb Bs3]; subst.
    inversion Bs3 as [| ? ? _ Bs4]; subst.
    destruct (bin_of_byte r Br) as (ir & Er & Hr).
    destruct (bin_of_byte g Bg) as (ig & Eg & Hg).
    destruct (bin_of_byte b Bb) as (ib & Eb & Hb).
    rewrite Er, Eg, Eb.
    replace (Z.of_nat BINS * 2 + Z.of_nat ib)%Z
      with (Z.of_nat (BINS * 2 + ib)) by lia.
    replace (Z.of_nat BINS + Z.of_nat ig)%Z
      with (Z.of_nat (BINS + ig)) by lia.
    rewrite !incr_at_nat.
    pose proof (pixel_counts n h ir ig ib Hh Hr Hg Hb) as Step.
    assert (Irest : FrameRuns.image_data pixels rest).
    { split; [cbn [length] in L; lia | exact Bs4]. }
    pose proof (IH rest _ _ Irest Step) as (N & Lh & R & G & B).
    assert (E : n + inject_Z (Z.of_nat (S pixels))
                == n + 1 + inject_Z (Z.of_nat pixels)).
    { rewrite Nat2Z.inj_succ. unfold Z.succ. rewrite inject_Z_plus.
      change (inject_Z 1) with 1. ring. }
    repeat split; try assumption.
    + rewrite R, E. reflexivity.
    + rewrite G, E. reflexivity.
    + rewrite B, E. reflexivity.
Qed.

Lemma repeat_0_channel_counts :
  FrameRuns.channel_counts 0 (repeat 0 (BINS * 3)).
Proof.
  unfold FrameRuns.channel_counts.
  split; [| vm_compute; repeat split; reflexivity].
  apply Forall_forall. intros x Hx. apply repeat_spec in Hx. subst x.
  apply Qle_refl.
Qed.

Lemma total_scaled (c : Q) (l : list Q) :
  total (map (fun x => x / c) l) == total l / c.
Proof.
  induction l as [| x l IH].
  - change (0 == 0 / c). unfold Qdiv. ring.
  - change (x / c + total (map (fun x => x / c) l) == (x + total l) / c).
    rewrite IH. unfold Qdiv. ring.
Qed.

Lemma scaled_channel_counts (n : Q) (h : list Q) :
  0 < n ->
  FrameRuns.channel_counts n h ->
  channel_normalized (map (fun x => x / n) h).
Proof.
  intros Hn (N & L & R & G & B).
  assert (One : n / n == 1) by (field; lra).
  unfold channel_normalized. cbv zeta.
  split; [| split; [rewrite length_map; exact L |]].
  - unfold nonnegative. rewrite Forall_map.
    eapply Forall_impl; [| exact N]. cbv beta. intros x Hx.
    unfold Qdiv. apply Qmult_le_0_compat; [exact Hx |].
    apply Qlt_le_weak, Qinv_lt_0_compat, Hn.
  - rewrite !skipn_map, !firstn_map, !total_scaled.
    rewrite R, G, B, One. repeat split; reflexivity.
Qed.

Lemma computeHistogram_normalized (pixels : nat) (data : list Z) :
  (0 < pixels)%nat ->
  FrameRuns.image_data pixels data ->
  channel_normalized (_computeHistogram data).
Proof.
  intros Hp Hd. unfold _computeHistogram. cbv zeta.
  pose proof (count_pixels_channel_counts pixels data 0 _ Hd
                repeat_0_channel_counts) as Hc.
  destruct Hd as [L _].
  assert (P : 0 < inject_Z (Z.of_nat pixels))
    by (change 0 with (inject_Z 0); rewrite <- Zlt_Qlt; lia).
  assert (E : inject_Z (Z.of_nat (length data)) / 4
              == inject_Z (Z.of_nat pixels)).
  { rewrite L, Nat2Z.inj_mul, inject_Z_mult.
    change (inject_Z (Z.of_nat 4)) with 4. field. }
  set (counts := count_pixels _ _ _ _) in *.
  assert (Hc' : FrameRuns.channel_counts (inject_Z (Z.of_nat (length data)) / 4)
                  counts).
  { destruct Hc as (N & Lh & R & G & B).
    repeat split; try assumption; rewrite E.
    - rewrite R. ring.
    - rewrite G. ring.
    - rewrite B. ring. }
  apply scaled_channel_counts; [rewrite E; exact P | exact Hc'].
Qed.

End FrameHistogram.

(** ** The motion score of a frame *)

Section FrameMotion.

Import FrameAnalyzer.

Lemma byte_at_range (data : list Z) (i : nat) :
  Forall FrameRuns.is_byte data -> 0 <= byte_at data i <= 255.
Proof.
  intro H. unfold byte_at.
  assert (B : FrameRuns.is_byte (nth i data 0%Z)).
  { destruct (Nat.lt_ge_cases i (length data)) as [Hi | Hi].
    - rewrite Forall_forall in H. apply H, nth_In, Hi.
    - rewrite nth_overflow by exact Hi. unfold FrameRuns.is_byte. lia. }
  destruct B as [B0 B255].
  split.
  - change 0 with (inject_Z 0). rewrite <- Zle_Qle. exact B0.
  - change 255 with (inject_Z 255). rewrite <- Zle_Qle. exact B255.
Qed.

Lemma byte_difference (a b : Q) :
  0 <= a <= 255 -> 0 <= b <= 255 -> 0 <= Qabs (a - b) <= 255.
Proof.
  intros Ha Hb. split; [apply Qabs_nonneg |].
  apply Qabs_Qle_condition. lra.
Qed.

(** The sum of the loop of [_computeMotion] grows by at most one a
    sample. *)
Lemma motion_sum_bounds (last data : list Z) :
  Forall FrameRuns.is_byte last -> Forall FrameRuns.is_byte data ->
  forall (l : list nat) (a : Q),
    a <= fold_left
           (fun diffSum i =>
              let dr := Qabs (byte_at data i - byte_at last i) in
              let dg := Qabs (byte_at data (i + 1) - byte_at last (i + 1)) in
              let db := Qabs (byte_at data (i + 2) - byte_at last (i + 2)) in
              diffSum + (dr + dg + db) / (3 * 255))
           l a
      <= a + inject_Z (Z.of_nat (length l)).
Proof.
  intros Hl Hd. induction l as [| i l IH]; intro a.
  - cbn [fold_left length Z.of_nat]. unfold inject_Z. lra.
  - cbn [fold_left]. cbv zeta.
    pose proof (byte_difference _ _ (byte_at_range data i Hd)
                  (byte_at_range last i Hl)) as R.
    pose proof (byte_difference _ _ (byte_at_range data (i + 1) Hd)
                  (byte_at_range last (i + 1) Hl)) as G.
    pose proof (byte_difference _ _ (byte_at_range data (i + 2) Hd)
                  (byte_at_range last (i + 2) Hl)) as B.
    set (dr := Qabs (byte_at data i - byte_at last i)) in *.
    set (dg := Qabs (byte_at data (i + 1) - byte_at last (i + 1))) in *.
    set (db := Qabs (byte_at data (i + 2) - byte_at last (i + 2))) in *.
    specialize (IH (a + (dr + dg + db) / (3 * 255))).
    cbv zeta in IH.
    assert (E : inject_Z (Z.of_nat (length (i :: l)))
                == 1 + inject_Z (Z.of_nat (length l))).
    { cbn [length]. rewrite Nat2Z.inj_succ. unfold Z.succ.
      rewrite inject_Z_plus. change (inject_Z 1) with 1. ring. }
    rewrite E.
    assert (T0 : 0 <= (dr + dg + db) / (3 * 255)) by qlra.
    assert (T1 : (dr + dg + db) / (3 * 255) <= 1) by qlra.
    lra.
Qed.

(** Against the same buffer the sum does not grow. *)
Lemma motion_sum_same (data : list Z) :
  forall (l : list nat) (a : Q),
    fold_left
      (fun diffSum i =>
         let dr := Qabs (byte_at data i - byte_at data i) in
         let dg := Qabs (byte_at data (i + 1) - byte_at data (i + 1)) in
         let db := Qabs (byte_at data (i + 2) - byte_at data (i + 2)) in
         diffSum + (dr + dg + db) / (3 * 255))
      l a
    == a.
Proof.
  induction l as [| i l IH]; intro a; [reflexivity |].
  cbn [fold_left]. cbv zeta. rewrite IH.
  assert (Z0 : forall x : Q, Qabs (x - x) == 0).
  { intro x. setoid_replace (x - x) with 0 by ring. reflexivity. }
  rewrite !Z0. qlra.
Qed.

Lemma samples_length (k : nat) :
  forall n a,
    (length (filter (fun i => (i <? 64 * k)%nat)
                    (map (fun j => (j * (4 * 16))%nat) (seq a n)))
     <= k - a)%nat.
Proof.
  induction n as [| n IH]; intro a; [cbn; lia |].
  cbn [seq map filter].
  specialize (IH (S a)).
  destruct (Nat.ltb_spec (a * (4 * 16)) (64 * k)); cbn [length]; lia.
Qed.

Lemma computeMotion_bounds (k : nat) (last data : list Z) :
  (0 < k)%nat ->
  FrameRuns.image_data (16 * k) last ->
  FrameRuns.image_data (16 * k) data ->
  0 <= _computeMotion (Some last) data <= 1.
Proof.
  intros Hk [_ Bl] [Ld Bd]. unfold _computeMotion. cbv zeta.
  set (l := filter _ _).
  pose proof (motion_sum_bounds last data Bl Bd l 0) as [S0 S1].
  cbv zeta in S0, S1.
  set (diffSum := fold_left _ l 0) in *.
  assert (Len : (length l <= k)%nat).
  { unfold l. rewrite Ld.
    replace (4 * (16 * k))%nat with (64 * k)%nat by lia.
    replace (64 * k / (4 * 16))%nat with k
      by (symmetry; rewrite Nat.mul_comm; apply Nat.div_mul; discriminate).
    pose proof (samples_length k (S k) 0). lia. }
  assert (LenQ : inject_Z (Z.of_nat (length l)) <= inject_Z (Z.of_nat k))
    by (rewrite <- Zle_Qle; lia).
  assert (K : 0 < inject_Z (Z.of_nat k))
    by (change 0 with (inject_Z 0); rewrite <- Zlt_Qlt; lia).
  assert (E : inject_Z (Z.of_nat (length data)) / 4 / inject_Z (Z.of_nat 16)
              == inject_Z (Z.of_nat k)).
  { rewrite Ld, !Nat2Z.inj_mul, !inject_Z_mult.
    change (inject_Z (Z.of_nat 4)) with 4.
    change (inject_Z (Z.of_nat 16)) with 16. field. }
  rewrite E. split.
  - apply Qle_shift_div_l; [exact K | lra].
  - apply Qle_shift_div_r; [exact K | lra].
Qed.

Lemma computeMotion_still (pixels : nat) (data : list Z) :
  _computeMotion (Some data) data == 0.
Proof.
  unfold _computeMotion. cbv zeta.
  rewrite motion_sum_same. unfold Qdiv. ring.
Qed.

End FrameMotion.

(** ** Runs of the frame analyzer *)

Section AnalyzerRuns.

Import FrameAnalyzer.

(** The decision of the histogram comparison. *)
Lemma detect_cut_value (previous current : list Q) (fa : t) :
  exists bridge,
    detect_cut previous current fa
    = (Returned match _histogramDiff previous current with
                | Some d => Qgt_bool d DIFF_THRESHOLD
                | None => false
                end,
       mk (previousHistogram fa) (sceneCuts fa) (motionScores fa)
          (frameCount fa) (lastFrameData fa) bridge).
Proof.
  unfold detect_cut, bind, gets, modify, ret.
  destruct fa as [ph cuts ms fc lf [b |]]; cbn [npuBridge].
  - destruct (NPUBridge.available b); eexists; reflexivity.
  - eexists; reflexivity.
Qed.

(** A frame is either skipped, leaving the analyzer as it was, or
    analysed. *)
Lemma analyzeFrame_cases (v : option VideoElement) (now : Z) (fa : t) :
  (FrameRuns.readable (v, now) = false
   /\ analyzeFrame v now fa = (Returned None, fa))
  \/ (exists (video : VideoElement) (data : list Z) (cut : bool)
             (bridge : option NPUBridge.t),
        v = Some video
        /\ FrameRuns.readable (v, now) = true
        /\ capture video = Returned data
        /\ cut = match previousHistogram fa with
                 | Some prev =>
                     match _histogramDiff prev (_computeHistogram data) with
                     | Some d => Qgt_bool d DIFF_THRESHOLD
                     | None => false
                     end
                 | None => false
                 end
        /\ let cuts :=
             filter (in_window now CUT_WINDOW)
                    (if cut then sceneCuts fa ++ [now] else sceneCuts fa) in
           let scores :=
             motionScores fa ++ [_computeMotion (lastFrameData fa) data] in
           let scores :=
             if (20 <? length scores)%nat then tl scores else scores in
           analyzeFrame v now fa
           = (Returned
                (Some (mkResult cut (_computeMotion (lastFrameData fa) data)
                         (length_Q cuts / (inject_Z CUT_WINDOW / 1000) * 10)
                         (_average scores) (frameCount fa + 1)%Z
                         (_computeHistogram data))),
              mk (Some (_computeHistogram data)) cuts scores
                 (frameCount fa + 1)%Z (Some data) bridge)).
Proof.
  destruct v as [video |]; [| left; split; reflexivity].
  unfold FrameRuns.readable, analyzeFrame. cbn [fst].
  destruct (paused video || ended video || (readyState video <? 2)%Z
            || (videoWidth video =? 0)%Z); [left; split; reflexivity |].
  cbn [negb andb]. unfold try_catch.
  destruct (capture video) as [data |] eqn:Hcap.
  - right. unfold analyzeFrame_try.
    unfold bind at 1. unfold lift. rewrite Hcap.
    unfold bind at 1. unfold gets at 1.
    unfold bind at 1. unfold gets at 1.
    destruct (previousHistogram fa) as [prev |] eqn:Hprev.
    + destruct (detect_cut_value prev (_computeHistogram data) fa)
        as (bridge & E).
      eexists video, data, _, bridge.
      split; [reflexivity |]. split; [reflexivity |].
      split; [exact Hcap |]. split; [reflexivity |].
      unfold bind at 1. rewrite E. reflexivity.
    + exists video, data, false, (npuBridge fa).
      split; [reflexivity |]. split; [reflexivity |].
      split; [exact Hcap |]. split; [reflexivity |].
      destruct fa. reflexivity.
  - left. split; [reflexivity |].
    unfold analyzeFrame_try, bind, lift. rewrite Hcap. reflexivity.
Qed.

Lemma sum_from (l : list Q) :
  forall a, fold_left Qplus l a == a + sum l.
Proof.
  unfold sum. induction l as [| x l IH]; intro a; cbn [fold_left].
  - ring.
  - rewrite IH, (IH (0 + x)). ring.
Qed.

Lemma sum_bounds (l : list Q) :
  Forall (fun m => 0 <= m <= 1) l ->
  0 <= sum l <= inject_Z (Z.of_nat (length l)).
Proof.
  induction 1 as [| x l Hx _ IH].
  - unfold sum. cbn. split; apply Qle_refl.
  - unfold sum. cbn [fold_left]. rewrite sum_from.
    cbn [length]. rewrite Nat2Z.inj_succ. unfold Z.succ.
    rewrite inject_Z_plus. change (inject_Z 1) with 1. lra.
Qed.

(** The average of scores in [0, 1] is in [0, 1]. *)
Lemma average_bounds (l : list Q) :
  Forall (fun m => 0 <= m <= 1) l -> 0 <= _average l <= 1.
Proof.
  intro H. unfold _average. destruct l as [| x l]; [split; discriminate |].
  pose proof (sum_bounds _ H) as [S0 S1].
  assert (P : 0 < inject_Z (Z.of_nat (length (x :: l)))).
  { change 0 with (inject_Z 0). rewrite <- Zlt_Qlt. cbn [length]. lia. }
  split.
  - apply Qle_shift_div_l; [exact P | lra].
  - apply Qle_shift_div_r; [exact P | lra].
Qed.

Lemma Forall_tl {A} (P : A -> Prop) (l : list A) :
  Forall P l -> Forall P (tl l).
Proof. intro H. destruct H; [constructor | assumption]. Qed.

(** One sampling tick: a frame that is read records no cut, adds a
    motion score in [0, 1] to a list of at most 20, and counts. *)
Lemma analyzeFrame_step (k : nat) (v : option VideoElement) (now : Z)
      (fa : t) :
  (0 < k)%nat ->
  FrameRuns.captures (16 * k) v ->
  FrameRuns.consistent (16 * k) fa ->
  let fa' := snd (analyzeFrame v now fa) in
  let read := FrameRuns.readable (v, now) in
  FrameRuns.consistent (16 * k) fa'
  /\ sceneCuts fa'
     = (if read then filter (in_window now CUT_WINDOW) (sceneCuts fa)
        else sceneCuts fa)
  /\ frameCount fa' = (frameCount fa + (if read then 1 else 0))%Z
  /\ length (motionScores fa')
     = (if read then Nat.min 20 (S (length (motionScores fa)))
        else length (motionScores fa))
  /\ (forall r,
        fst (analyzeFrame v now fa) = Returned (Some r) ->
        isSceneCut r = false
        /\ cutRate r == length_Q (sceneCuts fa') / 3 * 10
        /\ 0 <= motionScore r <= 1
        /\ 0 <= avgMotion r <= 1).
Proof.
  intros Hk Hv (Hh & Hl & Hm & Hn). cbv zeta.
  destruct (analyzeFrame_cases v now fa)
    as [[R E] | (video & data & cut & bridge & Ev & R & Hcap & Hcut & E)].
  - rewrite E, R. cbn [fst snd].
    split; [repeat split; assumption |].
    split; [reflexivity |]. split; [lia |]. split; [reflexivity |].
    intros r Hr. discriminate Hr.
  - cbv zeta in E. rewrite E, R. cbn [fst snd]. clear E.
    subst v. cbn [FrameRuns.captures] in Hv. rewrite Hcap in Hv.
    assert (Hp : (0 < 16 * k)%nat) by lia.
    pose proof (computeHistogram_normalized _ data Hp Hv) as Hnew.
    assert (Hcut' : cut = false).
    { rewrite Hcut. destruct (previousHistogram fa) as [prev |];
        [| reflexivity].
      destruct (channel_normalized_never_cut prev _ Hh Hnew)
        as (d & Ed & _ & Hd).
      rewrite Ed. exact Hd. }
    clear Hcut. subst cut.
    assert (Hmotion : 0 <= _computeMotion (lastFrameData fa) data <= 1).
    { destruct (lastFrameData fa) as [last |].
      - apply (computeMotion_bounds k); assumption.
      - cbn [_computeMotion]. split; discriminate. }
    set (m := _computeMotion (lastFrameData fa) data) in *.
    assert (Hscores : Forall (fun m => 0 <= m <= 1) (motionScores fa ++ [m])).
    { apply Forall_app. split; [exact Hm |]. constructor; [exact Hmotion |].
      constructor. }
    assert (Hlen : length (motionScores fa ++ [m])
                   = S (length (motionScores fa)))
      by (rewrite length_app; cbn [length]; lia).
    set (scores := motionScores fa ++ [m]) in *.
    assert (Hkept : Forall (fun m => 0 <= m <= 1)
                      (if (20 <? length scores)%nat then tl scores
                       else scores)).
    { destruct (20 <? length scores)%nat;
        [apply Forall_tl |]; exact Hscores. }
    assert (Hkeptlen : length (if (20 <? length scores)%nat then tl scores
                               else scores)
                       = Nat.min 20 (S (length (motionScores fa)))).
    { destruct (Nat.ltb_spec 20 (length scores)) as [L | L].
      - destruct scores as [| x scores']; [cbn [length] in L; lia |].
        cbn [tl length] in *. lia.
      - lia. }
    unfold FrameRuns.consistent.
    cbn [previousHistogram lastFrameData motionScores sceneCuts frameCount].
    split.
    { split; [exact Hnew |]. split; [exact Hv |].
      split; [exact Hkept |]. rewrite Hkeptlen. lia. }
    split; [reflexivity |]. split; [reflexivity |].
    split; [exact Hkeptlen |].
    intros r Hr. inversion Hr; subst r.
    cbn [isSceneCut cutRate motionScore avgMotion].
    split; [reflexivity |].
    split; [apply per_window_seconds |].
    split; [exact Hmotion |]. apply average_bounds, Hkept.
Qed.

(** The invariant and the counters over a run of sampling ticks. *)
Lemma analyze_run (k : nat) (frames : list (option VideoElement * Z)) :
  (0 < k)%nat ->
  Forall (fun frame => FrameRuns.captures (16 * k) (fst frame)) frames ->
  forall fa,
    FrameRuns.consistent (16 * k) fa ->
    let fa' := FrameRuns.analyze frames fa in
    let read := length (filter FrameRuns.readable frames) in
    FrameRuns.consistent (16 * k) fa'
    /\ incl (sceneCuts fa') (sceneCuts fa)
    /\ frameCount fa' = (frameCount fa + Z.of_nat read)%Z
    /\ length (motionScores fa')
       = Nat.min 20 (length (motionScores fa) + read).
Proof.
  intros Hk Hf. induction Hf as [| [v now] frames Hv _ IH]; intros fa Hc.
  - cbn [FrameRuns.analyze fold_left filter length Z.of_nat].
    split; [exact Hc |]. split; [apply incl_refl |].
    split; [lia |]. destruct Hc as (_ & _ & _ & Hn). lia.
  - cbn [fst] in Hv. unfold FrameRuns.analyze. cbn [fold_left fst snd].
    fold (FrameRuns.analyze frames (snd (analyzeFrame v now fa))).
    pose proof (analyzeFrame_step k v now fa Hk Hv Hc)
      as (Hc1 & Hcuts & Hcount & Hlen & _).
    cbv zeta in Hc1, Hcuts, Hcount, Hlen.
    specialize (IH _ Hc1). cbv zeta in IH.
    destruct IH as (Hc2 & Hincl & Hcount2 & Hlen2).
    split; [exact Hc2 |].
    split; [| split].
    + eapply incl_tran; [exact Hincl |]. rewrite Hcuts.
      destruct (FrameRuns.readable (v, now)); [| apply incl_refl].
      apply incl_filter.
    + rewrite Hcount2, Hcount. cbn [filter].
      destruct (FrameRuns.readable (v, now)); cbn [length]; lia.
    + rewrite Hlen2, Hlen. cbn [filter].
      destruct (FrameRuns.readable (v, now)); cbn [length]; lia.
Qed.

End AnalyzerRuns.

(** X13. The histogram that [_computeHistogram] builds from the image
    data of a canvas of at least one and at most 2^24 pixels (the
    canvas of the analyzer has 14400) has [3 * 16] non-negative bins,
    and the bins of each colour channel sum to 1 within 1e-6. *)
Theorem computeHistogram_channels_sum_to_1 :
  forall (pixels : nat) (data : list Z),
    (0 < Z.of_nat pixels <= 16777216)%Z ->
    FrameRuns.image_data pixels data ->
    channel_normalized_within 0.000001 (FrameAnalyzer._computeHistogram data).
Proof.
  intros pixels data [Hp _] Hd.
  destruct (computeHistogram_normalized pixels data ltac:(lia) Hd)
    as (N & L & R & G & B).
  split; [exact N |]. split; [exact L |].
  cbv zeta in R, G, B. cbv zeta.
  rewrite R, G, B. repeat split; vm_compute; discriminate.
Qed.

Lemma computeHistogram_channels_sum_to_1_witness :
  channel_normalized_within 0.000001
    (FrameAnalyzer._computeHistogram FrameRuns.dark_frame).
Proof.
  apply (computeHistogram_channels_sum_to_1 16); [cbn; lia |].
  split; [reflexivity |]. unfold FrameRuns.is_byte. repeat constructor; lia.
Defined.

(** X14. The motion score: 0 for the first frame; 0 against an
    identical buffer; and, for two buffers of one canvas whose pixel
    count is a positive multiple of 16 (the canvas of the analyzer has
    14400 pixels), between 0 and 1. *)
Theorem computeMotion_range :
  (forall data : list Z, FrameAnalyzer._computeMotion None data = 0)
  /\ (forall (pixels : nat) (data : list Z),
        (0 < pixels)%nat ->
        FrameRuns.image_data pixels data ->
        FrameAnalyzer._computeMotion (Some data) data == 0)
  /\ (forall (k : nat) (last data : list Z),
        (0 < k)%nat ->
        FrameRuns.image_data (16 * k) last ->
        FrameRuns.image_data (16 * k) data ->
        0 <= FrameAnalyzer._computeMotion (Some last) data <= 1).
Proof.
  split; [reflexivity |]. split.
  - intros pixels data _ _. apply (computeMotion_still pixels).
  - exact computeMotion_bounds.
Qed.

Lemma computeMotion_range_witness :
  0 <= FrameAnalyzer._computeMotion (Some FrameRuns.dark_frame)
         FrameRuns.bright_frame <= 1.
Proof.
  apply (proj2 (proj2 computeMotion_range) 1%nat); [lia | |];
    (split; [reflexivity |]); unfold FrameRuns.is_byte;
    repeat constructor; lia.
Defined.

(** X15. The analyzer records no scene cut.  Over any run of sampling
    ticks whose frames come from a canvas of [16 * k] pixels, started
    with an empty cut queue (as the constructor leaves it), the queue
    stays empty and [getMetrics] reports the cut rate 0; and a further
    frame is reported with [isSceneCut = false] and cut rate 0: the
    distance of two histograms normalised per channel is at most
    0.125, below [DIFF_THRESHOLD = 0.35]. *)
Theorem analyzer_records_no_cut :
  forall (k : nat) (frames : list (option VideoElement * Z))
         (fa : FrameAnalyzer.t),
    (0 < k)%nat ->
    Forall (fun frame => FrameRuns.captures (16 * k) (fst frame)) frames ->
    FrameRuns.consistent (16 * k) fa ->
    FrameAnalyzer.sceneCuts fa = [] ->
    let fa' := FrameRuns.analyze frames fa in
    FrameAnalyzer.sceneCuts fa' = []
    /\ FrameAnalyzer.metricsCutRate (FrameAnalyzer.getMetrics fa') = 0
    /\ FrameAnalyzer.recentCuts (FrameAnalyzer.getMetrics fa') = 0%Z
    /\ (forall (v : option VideoElement) (now : Z)
               (r : FrameAnalyzer.FrameResult),
          FrameRuns.captures (16 * k) v ->
          fst (FrameAnalyzer.analyzeFrame v now fa') = Returned (Some r) ->
          FrameAnalyzer.isSceneCut r = false
          /\ FrameAnalyzer.cutRate r == 0).
Proof.
  intros k frames fa Hk Hf Hc Hcuts. cbv zeta.
  destruct (analyze_run k frames Hk Hf fa Hc) as (Hc' & Hincl & _ & _).
  assert (E : FrameAnalyzer.sceneCuts (FrameRuns.analyze frames fa) = []).
  { rewrite Hcuts in Hincl. apply incl_l_nil, Hincl. }
  split; [exact E |].
  unfold FrameAnalyzer.getMetrics.
  cbn [FrameAnalyzer.metricsCutRate FrameAnalyzer.recentCuts].
  rewrite E. split; [reflexivity |]. split; [reflexivity |].
  intros v now r Hv Hr.
  destruct (analyzeFrame_step k v now _ Hk Hv Hc')
    as (_ & Hnext & _ & _ & Hres).
  cbv zeta in Hnext. destruct (Hres r Hr) as (Hcut & Hrate & _).
  split; [exact Hcut |]. rewrite Hrate, Hnext, E.
  destruct (FrameRuns.readable (v, now)); reflexivity.
Qed.

Lemma analyzer_records_no_cut_witness :
  FrameAnalyzer.sceneCuts
    (FrameRuns.analyze
       [(Some (Examples.playing_video FrameRuns.dark_frame), 0%Z);
        (Some (Examples.playing_video FrameRuns.bright_frame), 500%Z)]
       FrameAnalyzer.constructor)
  = [].
Proof.
  refine (proj1 (analyzer_records_no_cut 1%nat _ _ _ _ _ _)).
  - lia.
  - repeat constructor; unfold FrameRuns.is_byte; lia.
  - unfold FrameRuns.consistent. cbn. repeat split; [constructor | lia].
  - reflexivity.
Defined.

(** X16. The motion window of the analyzer.  Over any run of sampling
    ticks whose frames come from a canvas of [16 * k] pixels, the
    analyzer keeps at most 20 motion scores, each between 0 and 1: as
    many as frames were read, up to 20; the frame count grows by the
    number of frames read; and the average motion that [getMetrics]
    reports is between 0 and 1. *)
Theorem analyzer_motion_window :
  forall (k : nat) (frames : list (option VideoElement * Z))
         (fa : FrameAnalyzer.t),
    (0 < k)%nat ->
    Forall (fun frame => FrameRuns.captures (16 * k) (fst frame)) frames ->
    FrameRuns.consistent (16 * k) fa ->
    let fa' := FrameRuns.analyze frames fa in
    let read := length (filter FrameRuns.readable frames) in
    Forall (fun m => 0 <= m <= 1) (FrameAnalyzer.motionScores fa')
    /\ length (FrameAnalyzer.motionScores fa')
       = Nat.min 20 (length (FrameAnalyzer.motionScores fa) + read)
    /\ FrameAnalyzer.frameCount fa'
       = (FrameAnalyzer.frameCount fa + Z.of_nat read)%Z
    /\ 0 <= FrameAnalyzer.metricsAvgMotion (FrameAnalyzer.getMetrics fa') <= 1.
Proof.
  intros k frames fa Hk Hf Hc. cbv zeta.
  destruct (analyze_run k frames Hk Hf fa Hc)
    as ((_ & _ & Hm & _) & _ & Hcount & Hlen).
  split; [exact Hm |]. split; [exact Hlen |]. split; [exact Hcount |].
  apply average_bounds, Hm.
Qed.

Lemma analyzer_motion_window_witness :
  FrameAnalyzer.frameCount
    (FrameRuns.analyze
       [(Some (Examples.playing_video FrameRuns.dark_frame), 0%Z);
        (Some Examples.cross_origin_video, 250%Z);
        (Some (Examples.playing_video FrameRuns.bright_frame), 500%Z)]
       FrameAnalyzer.constructor)
  = 2%Z.
Proof.
  refine (proj1 (proj2 (proj2
            (analyzer_motion_window 1%nat _ FrameAnalyzer.constructor
               _ _ _)))).
  - lia.
  - repeat constructor; unfold FrameRuns.is_byte; lia.
  - unfold FrameRuns.consistent. cbn. repeat split; [constructor | lia].
Defined.

(** ** Indicator, badge and popup status *)

Section Bands.

Import String.
#[local] Open Scope string_scope.

Lemma round_lt (x : Q) (n : Z) : x + (1 # 2) < inject_Z n -> (round x < n)%Z.
Proof.
  intro H. unfold round. rewrite Zlt_Qlt.
  apply Qle_lt_trans with (x + (1 # 2)); [apply Qfloor_le | exact H].
Qed.

Lemma round_ge (x : Q) (n : Z) : inject_Z n <= x + (1 # 2) -> (n <= round x)%Z.
Proof.
  intro H. unfold round.
  rewrite <- (Qfloor_Z n). apply Qfloor_resp_le, H.
Qed.

Lemma Qlt_bool_inject_Z (a b : Z) :
  Qlt_bool (inject_Z a) (inject_Z b) = (a <? b)%Z.
Proof.
  destruct (Z.ltb_spec a b) as [H | H].
  - apply Qlt_bool_iff. rewrite <- Zlt_Qlt. exact H.
  - apply Qlt_bool_false_iff. rewrite <- Zle_Qle. exact H.
Qed.

Lemma Qlt_bool_true (a b : Q) : a < b -> Qlt_bool a b = true.
Proof. apply Qlt_bool_iff. Qed.

Lemma Qlt_bool_false (a b : Q) : b <= a -> Qlt_bool a b = false.
Proof. apply Qlt_bool_false_iff. Qed.

(** The colour of the badge for an integer score. *)
Lemma badge_color (n : Z) :
  snd (ServiceWorker.updateBadge (inject_Z n))
  = if (n <? 25)%Z then "#22c55e"
    else if (n <? 45)%Z then "#eab308"
    else if (n <? 65)%Z then "#f97316"
    else "#ef4444".
Proof.
  unfold ServiceWorker.updateBadge. cbn [snd].
  change 25 with (inject_Z 25). change 45 with (inject_Z 45).
  change 65 with (inject_Z 65). rewrite !Qlt_bool_inject_Z. reflexivity.
Qed.

Lemma or_else_0 (x : Q) : Popup.or_else x 0 == x.
Proof.
  unfold Popup.or_else. destruct (Qeq_bool x 0) eqn:E; [| reflexivity].
  apply Qeq_bool_iff in E. symmetry. exact E.
Qed.

Lemma Qlt_bool_compat (a b c : Q) : a == b -> Qlt_bool a c = Qlt_bool b c.
Proof.
  intro E. destruct (Qlt_bool b c) eqn:H.
  - apply Qlt_bool_iff. apply Qlt_bool_iff in H. rewrite E. exact H.
  - apply Qlt_bool_false_iff. apply Qlt_bool_false_iff in H.
    rewrite E. exact H.
Qed.

(** Level of the indicator and colour of the badge, band by band. *)
Lemma bands_of_score (score : Q) :
  let level := fst (ContentScript.updateIndicator score) in
  let color :=
    snd (ServiceWorker.updateBadge
           (inject_Z (ContentScript.sendStateUpdate score))) in
  (score < 24.5 -> level = "low" /\ color = "#22c55e")
  /\ (24.5 <= score < 25 -> level = "low" /\ color = "#eab308")
  /\ (25 <= score < 44.5 -> level = "moderate" /\ color = "#eab308")
  /\ (44.5 <= score < 45 -> level = "moderate" /\ color = "#f97316")
  /\ (45 <= score < 64.5 -> level = "high" /\ color = "#f97316")
  /\ (64.5 <= score < 65 -> level = "high" /\ color = "#ef4444")
  /\ (65 <= score -> level = "critical" /\ color = "#ef4444").
Proof.
  cbv zeta. rewrite badge_color.
  unfold ContentScript.updateIndicator, ContentScript.sendStateUpdate.
  cbn [fst]. unfold C.THRESHOLDS.LOW, C.THRESHOLDS.MODERATE, C.THRESHOLDS.HIGH.
  assert (Lt : forall n : Z, score + (1 # 2) < inject_Z n ->
                             (round score <? n)%Z = true)
    by (intros n H; apply Z.ltb_lt, round_lt, H).
  assert (Ge : forall n : Z, inject_Z n <= score + (1 # 2) ->
                             (round score <? n)%Z = false)
    by (intros n H; apply Z.ltb_ge, round_ge, H).
  repeat split.
  all: repeat
         (first [ rewrite (Qlt_bool_true score _) by lra
                | rewrite (Qlt_bool_false score _) by lra
                | rewrite (Lt 25%Z) by (unfold inject_Z; lra)
                | rewrite (Ge 25%Z) by (unfold inject_Z; lra)
                | rewrite (Lt 45%Z) by (unfold inject_Z; lra)
                | rewrite (Ge 45%Z) by (unfold inject_Z; lra)
                | rewrite (Lt 65%Z) by (unfold inject_Z; lra)
                | rewrite (Ge 65%Z) by (unfold inject_Z; lra) ]).
  all: reflexivity.
Qed.

Lemma popup_status_color (score : Q) (effects : Effects) :
  Popup.statusColor (Popup.updateUI score effects)
  = snd (ServiceWorker.updateBadge score).
Proof.
  unfold Popup.updateUI, ServiceWorker.updateBadge.
  cbn [Popup.statusColor snd].
  rewrite !(Qlt_bool_compat _ _ _ (or_else_0 score)). reflexivity.
Qed.

(** X17. One score, four displays.  The indicator of the content
    script takes its level from the score itself, the badge of the
    service worker and the status line of the popup take their colour
    from the rounded score of the message, and the engine takes its
    target from the score itself.  The popup always shows the colour
    of the badge.  The indicator is at its lowest level exactly for a
    score below 25, and then the engine targets the neutral effects.
    The badge has its lowest colour exactly for a score below 24.5.
    Level and colour name the same band unless the score lies within
    half a point below one of the thresholds 25, 45, 65; from 24.5 up
    to 25 the badge already has the colour of the second band while
    the indicator is at its lowest level and the engine targets the
    neutral effects. *)
Theorem indicator_and_badge_bands :
  forall score : Q,
    let level := fst (ContentScript.updateIndicator score) in
    let color :=
      snd (ServiceWorker.updateBadge
             (inject_Z (ContentScript.sendStateUpdate score))) in
    (forall effects : Effects,
        Popup.statusColor
          (Popup.updateUI (inject_Z (ContentScript.sendStateUpdate score))
             effects)
        = color)
    /\ (level = "low" <-> score < 25)
    /\ (level = "low" -> FadeEngine.score_target score = neutral)
    /\ (color = "#22c55e" <-> score < 24.5)
    /\ ((forall T : Q, In T [25; 45; 65] -> ~ (T - 0.5 <= score < T)) ->
        In (level, color)
           [("low", "#22c55e"); ("moderate", "#eab308");
            ("high", "#f97316"); ("critical", "#ef4444")])
    /\ (24.5 <= score < 25 ->
        level = "low" /\ color = "#eab308"
        /\ FadeEngine.score_target score = neutral).
Proof.
  intro score. cbv zeta.
  destruct (bands_of_score score) as (B1 & B2 & B3 & B4 & B5 & B6 & B7).
  cbv zeta in B1, B2, B3, B4, B5, B6, B7.
  assert (Low : fst (ContentScript.updateIndicator score) = "low"
                <-> score < 25).
  { unfold ContentScript.updateIndicator. cbn [fst].
    unfold C.THRESHOLDS.LOW.
    destruct (Qlt_bool score 25) eqn:E.
    - apply Qlt_bool_iff in E. split; [intros _; exact E | reflexivity].
    - apply Qlt_bool_false_iff in E. split; [| intro H; lra].
      destruct (Qlt_bool score C.THRESHOLDS.MODERATE);
        [discriminate |].
      destruct (Qlt_bool score C.THRESHOLDS.HIGH); discriminate. }
  assert (Neutral : score < 25 -> FadeEngine.score_target score = neutral).
  { intro H. unfold FadeEngine.score_target, C.THRESHOLDS.LOW.
    rewrite (Qlt_bool_true _ _ H). reflexivity. }
  split; [intro effects; apply popup_status_color |].
  split; [exact Low |].
  split; [intro H; apply Neutral, Low, H |].
  split; [| split].
  - split.
    + intro H.
      destruct (Qlt_le_dec score 24.5) as [L | L]; [exact L |]. exfalso.
      destruct (Qlt_le_dec score 25) as [L1 | L1];
        [destruct B2 as [_ E]; [lra |]; rewrite E in H; discriminate |].
      destruct (Qlt_le_dec score 44.5) as [L2 | L2];
        [destruct B3 as [_ E]; [lra |]; rewrite E in H; discriminate |].
      destruct (Qlt_le_dec score 45) as [L3 | L3];
        [destruct B4 as [_ E]; [lra |]; rewrite E in H; discriminate |].
      destruct (Qlt_le_dec score 64.5) as [L4 | L4];
        [destruct B5 as [_ E]; [lra |]; rewrite E in H; discriminate |].
      destruct (Qlt_le_dec score 65) as [L5 | L5];
        [destruct B6 as [_ E]; [lra |]; rewrite E in H; discriminate |].
      destruct B7 as [_ E]; [lra |]. rewrite E in H. discriminate.
    + intro H. apply B1, H.
  - intro Away.
    assert (A25 : ~ (25 - 0.5 <= score < 25)) by (apply Away; cbn; auto).
    assert (A45 : ~ (45 - 0.5 <= score < 45)) by (apply Away; cbn; auto).
    assert (A65 : ~ (65 - 0.5 <= score < 65)) by (apply Away; cbn; auto).
    destruct (Qlt_le_dec score 24.5) as [L | L];
      [destruct B1 as [E1 E2]; [lra |]; rewrite E1, E2; cbn; auto |].
    destruct (Qlt_le_dec score 25) as [L1 | L1];
      [exfalso; apply A25; lra |].
    destruct (Qlt_le_dec score 44.5) as [L2 | L2];
      [destruct B3 as [E1 E2]; [lra |]; rewrite E1, E2; cbn; auto |].
    destruct (Qlt_le_dec score 45) as [L3 | L3];
      [exfalso; apply A45; lra |].
    destruct (Qlt_le_dec score 64.5) as [L4 | L4];
      [destruct B5 as [E1 E2]; [lra |]; rewrite E1, E2; cbn; auto |].
    destruct (Qlt_le_dec score 65) as [L5 | L5];
      [exfalso; apply A65; lra |].
    destruct B7 as [E1 E2]; [lra |]. rewrite E1, E2. cbn. auto.
  - intro H. destruct (B2 H) as [E1 E2].
    split; [exact E1 |]. split; [exact E2 |]. apply Neutral. lra.
Qed.

Lemma indicator_and_badge_bands_witness :
  fst (ContentScript.updateIndicator 24.6) = "low"
  /\ snd (ServiceWorker.updateBadge
            (inject_Z (ContentScript.sendStateUpdate 24.6)))
     = "#eab308"
  /\ FadeEngine.score_target 24.6 = neutral.
Proof.
  apply (indicator_and_badge_bands 24.6). split; [| reflexivity].
  discriminate.
Defined.

End Bands.

(** ** The session log of the service worker *)

Section SessionLog.

Import ServiceWorker.

Lemma keep_last_100_skipn (fuel : nat) :
  forall log : list Session,
    (length log - 100 <= fuel)%nat ->
    keep_last_100 fuel log = skipn (length log - 100) log.
Proof.
  induction fuel as [| fuel IH]; intros log H; cbn [keep_last_100].
  - replace (length log - 100)%nat with 0%nat by lia. reflexivity.
  - destruct (Nat.ltb_spec 100 (length log)) as [L | L].
    + destruct log as [| x log]; [cbn [length] in L; lia |].
      cbn [tl length] in *. rewrite IH by lia.
      replace (S (length log) - 100)%nat with (S (length log - 100)) by lia.
      reflexivity.
    + replace (length log - 100)%nat with 0%nat by lia. reflexivity.
Qed.

Lemma keep_last_100_all (log : list Session) :
  keep_last_100 (length log) log = skipn (length log - 100) log.
Proof. apply keep_last_100_skipn. lia. Qed.

Lemma last_Some {A} (l : list A) (x : A) :
  List.last (map Some (l ++ [x])) None = Some x.
Proof.
  rewrite map_app. cbn [map]. apply last_last.
Qed.

Lemma last_None {A} (l : list A) :
  List.last (map Some l) None = None -> l = [].
Proof.
  destruct l as [| x l] using rev_ind; [reflexivity |].
  rewrite last_Some. discriminate.
Qed.

Lemma last_Some_inv {A} (l : list A) (x : A) :
  List.last (map Some l) None = Some x ->
  l = removelast l ++ [x].
Proof.
  destruct l as [| y l _] using rev_ind; [discriminate |].
  rewrite last_Some. intro E. inversion E; subst.
  rewrite removelast_last. reflexivity.
Qed.

(** What a recorded message appends to the log, before the log is cut
    to 100 entries: the entries before the last one stay, and the last
    one is the merged or the fresh session. *)
Lemma trackSession_recorded (tab : Z) (data_score : Q) (now : Z)
      (st : Storage) (u : unit) :
  25 <= data_score ->
  exists (kept : list Session) (s : Session),
    trackSession (Returned u) tab data_score now st
    = mkStorage (skipn (length (kept ++ [s]) - 100) (kept ++ [s]))
                (interventions st + 1)
    /\ (kept = sessions st
        /\ s = mkSession tab now now 0 data_score data_score
        \/ exists lastSession,
             sessions st = kept ++ [lastSession]
             /\ (now - timestamp lastSession < 60000)%Z
             /\ tabId lastSession = tab
             /\ s = mkSession tab (startTime lastSession) now
                      (now - startTime lastSession)
                      (Qmax (peakScore lastSession) data_score)
                      (score lastSession)).
Proof.
  intro H. unfold trackSession.
  rewrite (proj2 (Qlt_bool_false_iff data_score 25) H).
  destruct (List.last (map Some (sessions st)) None) as [lastSession |] eqn:E.
  - pose proof (last_Some_inv _ _ E) as Es.
    destruct ((now - timestamp lastSession <? 60000)%Z
              && (tabId lastSession =? tab)%Z) eqn:M.
    + apply andb_true_iff in M. destruct M as [M1 M2].
      apply Z.ltb_lt in M1. apply Z.eqb_eq in M2.
      eexists (removelast (sessions st)), _.
      split; [rewrite keep_last_100_all; reflexivity |].
      right. exists lastSession.
      split; [exact Es |]. split; [exact M1 |]. split; [exact M2 |].
      rewrite M2. reflexivity.
    + eexists (sessions st), _.
      split; [rewrite keep_last_100_all; reflexivity |].
      left. split; reflexivity.
  - eexists (sessions st), _.
    split; [rewrite keep_last_100_all; reflexivity |].
    left. split; reflexivity.
Qed.

Lemma skipn_last {A} (kept : list A) (s : A) :
  skipn (length (kept ++ [s]) - 100) (kept ++ [s])
  = skipn (length kept - 99) kept ++ [s].
Proof.
  rewrite length_app. cbn [length].
  replace (length kept + 1 - 100)%nat with (length kept - 99)%nat by lia.
  rewrite skipn_app.
  replace (length kept - 99 - length kept)%nat with 0%nat by lia.
  reflexivity.
Qed.

(** The invariant of the log. *)
Lemma trackSession_invariant (storage : outcome unit) (tab : Z)
      (data_score : Q) (now : Z) (st : Storage) :
  let ok s :=
    25 <= score s <= peakScore s
    /\ duration s = (timestamp s - startTime s)%Z in
  Forall ok (sessions st) ->
  (Z.of_nat (length (sessions st)) <= interventions st)%Z ->
  let st' := trackSession storage tab data_score now st in
  Forall ok (sessions st')
  /\ (Z.of_nat (length (sessions st')) <= interventions st')%Z
  /\ interventions st'
     = (interventions st
        + if recorded (mkMessage tab data_score now storage) then 1 else 0)%Z.
Proof.
  cbv zeta. intros Hok Hlen.
  unfold recorded. cbn [sent ServiceWorker.storage].
  destruct (Qlt_bool data_score 25) eqn:E.
  - unfold trackSession. rewrite E. cbn [negb andb].
    split; [exact Hok |]. split; [exact Hlen | lia].
  - destruct storage as [u |].
    + apply Qlt_bool_false_iff in E.
      destruct (trackSession_recorded tab data_score now st u E)
        as (kept & s & Est & Hs).
      rewrite Est. cbn [sessions interventions negb andb].
      rewrite skipn_last.
      assert (Hkept : Forall
                        (fun s => 25 <= score s <= peakScore s
                                  /\ duration s
                                     = (timestamp s - startTime s)%Z) kept
                      /\ (length kept <= length (sessions st))%nat).
      { destruct Hs as [[-> _] | (lastSession & El & _)].
        - split; [exact Hok | lia].
        - rewrite El in Hok. apply Forall_app in Hok.
          split; [apply Hok |]. rewrite El, length_app. lia. }
      destruct Hkept as [Hkept Hklen].
      assert (Hnew : 25 <= score s <= peakScore s
                     /\ duration s = (timestamp s - startTime s)%Z).
      { destruct Hs as [[_ ->] | (lastSession & El & _ & _ & ->)];
          cbn [score peakScore duration timestamp startTime].
        - split; [split; [exact E | apply Qle_refl] | lia].
        - rewrite El in Hok. apply Forall_app in Hok.
          destruct Hok as [_ Hl]. inversion Hl as [| ? ? [[L1 L2] _] _]; subst.
          split; [| reflexivity]. split; [exact L1 |].
          apply Qle_trans with (peakScore lastSession); [exact L2 |].
          apply Q.le_max_l. }
      split; [| split; [| reflexivity]].
      * apply Forall_app. split; [| constructor; [exact Hnew | constructor]].
        rewrite <- (firstn_skipn (length kept - 99) kept) in Hkept.
        apply Forall_app in Hkept. apply Hkept.
      * rewrite length_app, length_skipn. cbn [length]. lia.
    + unfold trackSession. rewrite E. cbn [negb andb].
      split; [exact Hok |]. split; [exact Hlen | lia].
Qed.

Lemma trackSession_length (storage : outcome unit) (tab : Z)
      (data_score : Q) (now : Z) (st : Storage) :
  (length (sessions (trackSession storage tab data_score now st))
   <= Nat.max 100 (length (sessions st)))%nat.
Proof.
  destruct (Qlt_bool data_score 25) eqn:E.
  - unfold trackSession. rewrite E. lia.
  - destruct storage as [u |]; [| unfold trackSession; rewrite E; lia].
    apply Qlt_bool_false_iff in E.
    destruct (trackSession_recorded tab data_score now st u E)
      as (kept & s & Est & Hs).
    rewrite Est. cbn [sessions]. rewrite length_skipn, length_app.
    cbn [length]. lia.
Qed.

Lemma tracked_invariant (messages : list Message) :
  forall st : Storage,
    let ok s :=
      25 <= score s <= peakScore s
      /\ duration s = (timestamp s - startTime s)%Z in
    Forall ok (sessions st) ->
    (Z.of_nat (length (sessions st)) <= interventions st)%Z ->
    (length (sessions st) <= 100)%nat ->
    let st' := tracked messages st in
    Forall ok (sessions st')
    /\ (length (sessions st') <= 100)%nat
    /\ (Z.of_nat (length (sessions st')) <= interventions st')%Z
    /\ interventions st'
       = (interventions st + Z.of_nat (length (filter recorded messages)))%Z.
Proof.
  induction messages as [| m messages IH]; intros st ok Hok Hlen H100;
    cbv zeta.
  - cbn [tracked fold_left filter length Z.of_nat].
    split; [exact Hok |]. split; [exact H100 |]. split; [exact Hlen | lia].
  - unfold tracked. cbn [fold_left]. fold (tracked messages (track st m)).
    destruct m as [tab data_score now storage]. unfold track.
    cbn [sender sent arrival ServiceWorker.storage].
    pose proof (trackSession_invariant storage tab data_score now st Hok Hlen)
      as (Hok' & Hlen' & Hi).
    pose proof (trackSession_length storage tab data_score now st) as H100'.
    cbv zeta in Hok', Hlen', Hi.
    specialize (IH (trackSession storage tab data_score now st) Hok' Hlen'
                  ltac:(lia)).
    cbv zeta in IH. destruct IH as (I1 & I2 & I3 & I4).
    split; [exact I1 |]. split; [exact I2 |]. split; [exact I3 |].
    rewrite I4, Hi. cbn [filter].
    destruct (recorded (mkMessage tab data_score now storage));
      cbn [length]; lia.
Qed.

End SessionLog.

(** X18. The session log over any sequence of score messages, from the
    storage as the install listener leaves it (one [trackSession] at a
    time): the log never holds more than 100 sessions; every session
    in it has a first score of at least 25, a peak score that is not
    below its first score, and a duration that is the time from its
    start to its last update; and the intervention counter counts the
    messages with a score of at least 25 whose storage round trip
    succeeded, so it is never below the number of sessions. *)
Theorem tracked_sessions_invariant :
  forall messages : list ServiceWorker.Message,
    let st := ServiceWorker.tracked messages ServiceWorker.installed in
    Forall (fun s =>
              25 <= ServiceWorker.score s <= ServiceWorker.peakScore s
              /\ ServiceWorker.duration s
                 = (ServiceWorker.timestamp s - ServiceWorker.startTime s)%Z)
           (ServiceWorker.sessions st)
    /\ (length (ServiceWorker.sessions st) <= 100)%nat
    /\ (Z.of_nat (length (ServiceWorker.sessions st))
        <= ServiceWorker.interventions st)%Z
    /\ ServiceWorker.interventions st
       = Z.of_nat (length (filter ServiceWorker.recorded messages)).
Proof.
  intro messages. cbv zeta.
  destruct (tracked_invariant messages ServiceWorker.installed)
    as (H1 & H2 & H3 & H4); try (cbn; lia); [constructor |].
  split; [exact H1 |]. split; [exact H2 |]. split; [exact H3 |].
  rewrite H4. cbn [ServiceWorker.installed ServiceWorker.interventions]. lia.
Qed.

(** X19. What one score message does to the session log.  A message
    with a score below 25, or whose storage round trip fails, changes
    nothing.  Any other message adds one to the intervention counter
    and leaves a log of at most 100 sessions (whatever its length
    before) whose last session belongs to the sender, was updated at
    the time of the message and has a peak score of at least the score
    of the message; the sessions before it are the newest of the
    earlier sessions, in order.  The message is merged into the last
    session exactly when that session belongs to the same tab and was
    updated less than 60000 ms before; the merged session keeps its
    start and its first score, and its peak is the larger of the old
    peak and the new score. *)
Theorem trackSession_one_message :
  forall (storage : outcome unit) (tab : Z) (data_score : Q) (now : Z)
         (st : ServiceWorker.Storage),
    let st' := ServiceWorker.trackSession storage tab data_score now st in
    (data_score < 25 \/ storage = Thrown -> st' = st)
    /\ (25 <= data_score -> storage <> Thrown ->
        ServiceWorker.interventions st'
        = (ServiceWorker.interventions st + 1)%Z
        /\ (length (ServiceWorker.sessions st') <= 100)%nat
        /\ exists (kept : list ServiceWorker.Session)
                  (s : ServiceWorker.Session),
             ServiceWorker.sessions st'
             = skipn (length kept - 99) kept ++ [s]
             /\ ServiceWorker.tabId s = tab
             /\ ServiceWorker.timestamp s = now
             /\ data_score <= ServiceWorker.peakScore s
             /\ (kept = ServiceWorker.sessions st
                 /\ s = ServiceWorker.mkSession tab now now 0
                          data_score data_score
                 \/ exists lastSession,
                      ServiceWorker.sessions st = kept ++ [lastSession]
                      /\ (now - ServiceWorker.timestamp lastSession < 60000)%Z
                      /\ ServiceWorker.tabId lastSession = tab
                      /\ s = ServiceWorker.mkSession tab
                               (ServiceWorker.startTime lastSession) now
                               (now - ServiceWorker.startTime lastSession)
                               (Qmax (ServiceWorker.peakScore lastSession)
                                     data_score)
                               (ServiceWorker.score lastSession))).
Proof.
  intros storage tab data_score now st. cbv zeta. split.
  - intros [H | H]; unfold ServiceWorker.trackSession.
    + rewrite (proj2 (Qlt_bool_iff data_score 25) H). reflexivity.
    + rewrite H. destruct (Qlt_bool data_score 25); reflexivity.
  - intros H Hs. destruct storage as [u |]; [| contradiction].
    destruct (trackSession_recorded tab data_score now st u H)
      as (kept & s & Est & Hcase).
    rewrite Est. cbn [ServiceWorker.sessions ServiceWorker.interventions].
    rewrite skipn_last.
    split; [reflexivity |].
    split; [rewrite length_app, length_skipn; cbn [length]; lia |].
    exists kept, s. split; [reflexivity |].
    assert (Hf : ServiceWorker.tabId s = tab
                 /\ ServiceWorker.timestamp s = now
                 /\ data_score <= ServiceWorker.peakScore s).
    { destruct Hcase as [[_ ->] | (lastSession & _ & _ & _ & ->)];
        cbn [ServiceWorker.tabId ServiceWorker.timestamp
             ServiceWorker.peakScore];
        (split; [reflexivity |]; split; [reflexivity |]);
        [apply Qle_refl | apply Q.le_max_r]. }
    destruct Hf as (F1 & F2 & F3).
    split; [exact F1 |]. split; [exact F2 |]. split; [exact F3 |].
    exact Hcase.
Qed.

Lemma trackSession_one_message_witness :
  ServiceWorker.interventions
    (ServiceWorker.trackSession (Returned tt) 7 30 1000
       ServiceWorker.installed)
  = 1%Z.
Proof.
  refine (proj1 (proj2 (trackSession_one_message (Returned tt) 7 30 1000
                          ServiceWorker.installed) _ _)).
  - discriminate.
  - discriminate.
Defined.

(** ** The popup *)

Section PopupView.

Lemma round_range (x : Q) (a b : Z) :
  inject_Z a <= x <= inject_Z b -> (a <= round x <= b)%Z.
Proof.
  intros [Ha Hb]. split.
  - apply round_ge. lra.
  - assert (H : (round x < b + 1)%Z); [| lia].
    apply round_lt. rewrite inject_Z_plus. change (inject_Z 1) with 1. lra.
Qed.

Lemma round_monotone (x y : Q) : x <= y -> (round x <= round y)%Z.
Proof.
  intro H. unfold round. apply Qfloor_resp_le. lra.
Qed.

Lemma round_inject_Z (n : Z) : round (inject_Z n) = n.
Proof.
  pose proof (round_range (inject_Z n) n n) as H.
  assert (inject_Z n <= inject_Z n <= inject_Z n) by (split; apply Qle_refl).
  intuition lia.
Qed.

Lemma or_else_nonzero (x fallback : Q) : ~ x == 0 -> Popup.or_else x fallback = x.
Proof.
  intro H. unfold Popup.or_else. destruct (Qeq_bool x 0) eqn:E; [| reflexivity].
  apply Qeq_bool_iff in E. contradiction.
Qed.

End PopupView.

(** X20. The popup stays inside its gauge and its bars.  For a score
    between 0 and 100 and effects inside their declared ranges (as the
    engine keeps them), the gauge offset is between 0 and the arc
    length, and the grayscale, audio and slow-down bars are between 0
    and 100 percent wide; the slow-down bar is full at the lowest
    playback rate 0.85. *)
Theorem popup_view_in_range :
  forall (score : Q) (effects : Effects),
    0 <= score <= 100 ->
    in_range effects ->
    let view := Popup.updateUI score effects in
    0 <= Popup.offset view <= Popup.GAUGE_TOTAL
    /\ (0 <= Popup.grayscaleBar view <= 100)%Z
    /\ (0 <= Popup.audioBar view <= 100)%Z
    /\ 0 <= Popup.speedBar view <= 100
    /\ (playbackRate effects == 0.85 -> Popup.speedBar view == 100).
Proof.
  intros score effects Hs He. cbv zeta. unfold Popup.updateUI.
  cbn [Popup.offset Popup.grayscaleBar Popup.audioBar Popup.speedBar].
  pose proof (He Grayscale) as Hg. pose proof (He AudioIntensity) as Ha.
  pose proof (He PlaybackRate) as Hr.
  cbn [range_of get fst snd C.min C.max C.EFFECTS.GRAYSCALE
       C.EFFECTS.PLAYBACK_RATE] in Hg, Ha, Hr.
  pose proof (or_else_0 score) as Es.
  pose proof (or_else_0 (grayscale effects)) as Eg.
  pose proof (or_else_0 (audioIntensity effects)) as Ea.
  rewrite (or_else_nonzero (playbackRate effects) 1) by lra.
  split; [| split; [| split; [| split]]].
  - unfold Popup.GAUGE_TOTAL. split; qlra.
  - apply round_range. unfold inject_Z. split; lra.
  - apply round_range. unfold inject_Z. split; lra.
  - assert (R : (0 <= round ((1 - playbackRate effects) * 1000) <= 150)%Z)
      by (apply round_range; unfold inject_Z; split; lra).
    destruct R as [R0 R1]. rewrite Zle_Qle in R0, R1.
    set (r := inject_Z (round ((1 - playbackRate effects) * 1000))) in *.
    unfold inject_Z in R0, R1. split; qlra.
  - intro E.
    assert (R : round ((1 - playbackRate effects) * 1000) = 150%Z).
    { assert (H : (150 <= round ((1 - playbackRate effects) * 1000) <= 150)%Z);
        [| lia].
      apply round_range. unfold inject_Z. split; lra. }
    rewrite R. reflexivity.
Qed.

Lemma popup_view_in_range_witness :
  0 <= Popup.speedBar (Popup.updateUI 50 calming) <= 100.
Proof.
  refine (proj1 (proj2 (proj2 (proj2
            (popup_view_in_range 50 calming _ _))))).
  - split; discriminate.
  - apply calming_in_range.
Defined.

(** ** The number animation of the popup *)

Section NumberAnimation.

Lemma last_nonempty {A} (l : list A) :
  forall x d d', List.last (x :: l) d = List.last (x :: l) d'.
Proof.
  induction l as [| y l IH]; intros x d d'; [reflexivity |].
  change (List.last (y :: l) d = List.last (y :: l) d'). apply IH.
Qed.

(** Upwards: once the target is within [n] steps, the animation ends
    within [n] frames, on the target, without leaving the interval
    from its start to the target. *)
Lemma animation_up (target step : Q) :
  0 < step ->
  forall (n : nat) (value : Q),
    value < target ->
    target - value <= inject_Z (Z.of_nat n) * step ->
    exists values : list Q,
      (forall m, (n <= m)%nat ->
                 Popup.animation m target step value = (values, true))
      /\ (length values <= n)%nat
      /\ Forall (fun x => value <= x <= target) values
      /\ List.last values value = target.
Proof.
  intro Hstep. induction n as [| n IH]; intros value Hlt Hn.
  - exfalso. change (inject_Z (Z.of_nat 0)) with 0 in Hn. lra.
  - assert (Up : forall v, Popup.animate target step v
                           = if Qle_bool target (v + step) then target
                             else v + step).
    { intro v. unfold Popup.animate, Qgt_bool.
      rewrite (Qlt_bool_true 0 step Hstep).
      rewrite (Qlt_bool_false step 0) by lra.
      cbn [andb orb]. destruct (Qle_bool target (v + step)); reflexivity. }
    destruct (Qle_bool target (value + step)) eqn:E.
    + exists [target]. split; [| split; [| split]].
      * intros m Hm. destruct m as [| m]; [lia |].
        cbn [Popup.animation]. rewrite Up, E.
        rewrite (proj2 (Qeq_bool_iff target target) (Qeq_refl _)).
        reflexivity.
      * cbn [length]. lia.
      * constructor; [| constructor]. split; [lra | apply Qle_refl].
      * reflexivity.
    + assert (Hnext : value + step < target).
      { destruct (Qlt_le_dec (value + step) target) as [H | H]; [exact H |].
        apply Qle_bool_iff in H. congruence. }
      assert (Hsucc : inject_Z (Z.of_nat (S n))
                      == inject_Z (Z.of_nat n) + 1).
      { rewrite Nat2Z.inj_succ. unfold Z.succ. rewrite inject_Z_plus.
        reflexivity. }
      destruct (IH (value + step) Hnext) as (values & Hrun & Hlen & Hin & Hlast).
      { rewrite Hsucc in Hn. lra. }
      exists ((value + step) :: values). split; [| split; [| split]].
      * intros m Hm. destruct m as [| m]; [lia |].
        cbn [Popup.animation]. rewrite Up, E.
        destruct (Qeq_bool (value + step) target) eqn:Q.
        { apply Qeq_bool_iff in Q. lra. }
        rewrite (Hrun m) by lia. reflexivity.
      * cbn [length]. lia.
      * constructor; [split; lra |].
        eapply Forall_impl; [| exact Hin]. cbv beta. intros x Hx. lra.
      * destruct values as [| x values];
          [| change (List.last (x :: values) value = target);
             rewrite (last_nonempty values x value (value + step));
             exact Hlast].
        cbn in Hlast. rewrite <- Hlast in Hnext.
        destruct (Qlt_irrefl _ Hnext).
Qed.

(** Downwards, likewise. *)
Lemma animation_down (target step : Q) :
  step < 0 ->
  forall (n : nat) (value : Q),
    target < value ->
    value - target <= inject_Z (Z.of_nat n) * - step ->
    exists values : list Q,
      (forall m, (n <= m)%nat ->
                 Popup.animation m target step value = (values, true))
      /\ (length values <= n)%nat
      /\ Forall (fun x => target <= x <= value) values
      /\ List.last values value = target.
Proof.
  intro Hstep. induction n as [| n IH]; intros value Hlt Hn.
  - exfalso. change (inject_Z (Z.of_nat 0)) with 0 in Hn. lra.
  - assert (Down : forall v, Popup.animate target step v
                             = if Qle_bool (v + step) target then target
                               else v + step).
    { intro v. unfold Popup.animate, Qgt_bool.
      rewrite (Qlt_bool_false 0 step) by lra.
      rewrite (Qlt_bool_true step 0 Hstep).
      cbn [andb orb]. destruct (Qle_bool (v + step) target); reflexivity. }
    destruct (Qle_bool (value + step) target) eqn:E.
    + exists [target]. split; [| split; [| split]].
      * intros m Hm. destruct m as [| m]; [lia |].
        cbn [Popup.animation]. rewrite Down, E.
        rewrite (proj2 (Qeq_bool_iff target target) (Qeq_refl _)).
        reflexivity.
      * cbn [length]. lia.
      * constructor; [| constructor]. split; [apply Qle_refl | lra].
      * reflexivity.
    + assert (Hnext : target < value + step).
      { destruct (Qlt_le_dec target (value + step)) as [H | H]; [exact H |].
        apply Qle_bool_iff in H. congruence. }
      assert (Hsucc : inject_Z (Z.of_nat (S n))
                      == inject_Z (Z.of_nat n) + 1).
      { rewrite Nat2Z.inj_succ. unfold Z.succ. rewrite inject_Z_plus.
        reflexivity. }
      destruct (IH (value + step) Hnext) as (values & Hrun & Hlen & Hin & Hlast).
      { rewrite Hsucc in Hn. lra. }
      exists ((value + step) :: values). split; [| split; [| split]].
      * intros m Hm. destruct m as [| m]; [lia |].
        cbn [Popup.animation]. rewrite Down, E.
        destruct (Qeq_bool (value + step) target) eqn:Q.
        { apply Qeq_bool_iff in Q. lra. }
        rewrite (Hrun m) by lia. reflexivity.
      * cbn [length]. lia.
      * constructor; [split; lra |].
        eapply Forall_impl; [| exact Hin]. cbv beta. intros x Hx. lra.
      * destruct values as [| x values];
          [| change (List.last (x :: values) value = target);
             rewrite (last_nonempty values x value (value + step));
             exact Hlast].
        cbn in Hlast. rewrite <- Hlast in Hnext.
        destruct (Qlt_irrefl _ Hnext).
Qed.

Lemma last_map {A B} (f : A -> B) (l : list A) (d : A) :
  List.last (map f l) (f d) = f (List.last l d).
Proof.
  induction l as [| x l IH]; [reflexivity |].
  destruct l as [| y l]; [reflexivity |]. exact IH.
Qed.

End NumberAnimation.

(** The animation in exact arithmetic: over within 10 frames, between
    the number shown and the rounded target, ending on the rounded
    target. *)
Lemma animateNumber_run :
  forall (current : Z) (target : Q),
    exists texts : list Z,
      (forall frames, (10 <= frames)%nat ->
                      Popup.animateNumber frames current target = (texts, true))
      /\ (length texts <= 10)%nat
      /\ Forall (fun t => (Z.min current (round target) <= t
                           <= Z.max current (round target))%Z) texts
      /\ (inject_Z current == target <-> texts = [])
      /\ (~ inject_Z current == target ->
          List.last texts current = round target).
Proof.
  intros current target. unfold Popup.animateNumber.
  destruct (Qeq_bool (inject_Z current) target) eqn:E.
  - apply Qeq_bool_iff in E. exists []. split; [reflexivity |].
    split; [cbn; lia |]. split; [constructor |].
    split; [split; [reflexivity | intros _; exact E] | contradiction].
  - apply Qeq_bool_false_neq in E.
    set (diff := target - inject_Z current).
    set (size := Qmax 1 (Qabs diff / 10)).
    assert (S1 : 1 <= size) by apply Q.le_max_l.
    assert (S2 : Qabs diff / 10 <= size) by apply Q.le_max_r.
    destruct (Qlt_le_dec 0 diff) as [Hpos | Hneg].
    + assert (Hsign : sign diff = 1).
      { unfold sign. rewrite (Qlt_bool_true 0 diff Hpos). reflexivity. }
      rewrite Hsign.
      assert (Habs : Qabs diff == diff) by (apply Qabs_pos; lra).
      destruct (animation_up target (1 * size) ltac:(lra) 10
                  (inject_Z current)) as (values & Hrun & Hlen & Hin & Hlast).
      { unfold diff in Hpos. lra. }
      { change (inject_Z (Z.of_nat 10)) with 10. rewrite Habs in S2.
        unfold diff in S2. qlra. }
      exists (map round values). split; [| split; [| split; [| split]]].
      * intros frames Hf. rewrite (Hrun frames Hf). reflexivity.
      * rewrite length_map. exact Hlen.
      * rewrite Forall_map. eapply Forall_impl; [| exact Hin].
        cbv beta. intros x [X1 X2].
        apply round_monotone in X1, X2. rewrite round_inject_Z in X1. lia.
      * split; [intro H; contradiction |].
        intro H. exfalso. destruct values; [| discriminate H].
        cbn in Hlast. apply E. rewrite Hlast. reflexivity.
      * intros _. rewrite <- (round_inject_Z current) at 1.
        rewrite last_map, Hlast. reflexivity.
    + assert (Hlt : diff < 0).
      { destruct (Qlt_le_dec diff 0) as [H | H]; [exact H |].
        exfalso. apply E. unfold diff in *. lra. }
      assert (Hsign : sign diff = -1).
      { unfold sign. rewrite (Qlt_bool_false 0 diff) by lra.
        rewrite (Qlt_bool_true diff 0 Hlt). reflexivity. }
      rewrite Hsign.
      assert (Habs : Qabs diff == - diff) by (apply Qabs_neg; lra).
      destruct (animation_down target (-1 * size) ltac:(lra) 10
                  (inject_Z current)) as (values & Hrun & Hlen & Hin & Hlast).
      { unfold diff in Hlt. lra. }
      { change (inject_Z (Z.of_nat 10)) with 10. rewrite Habs in S2.
        unfold diff in S2. qlra. }
      exists (map round values). split; [| split; [| split; [| split]]].
      * intros frames Hf. rewrite (Hrun frames Hf). reflexivity.
      * rewrite length_map. exact Hlen.
      * rewrite Forall_map. eapply Forall_impl; [| exact Hin].
        cbv beta. intros x [X1 X2].
        apply round_monotone in X1, X2. rewrite round_inject_Z in X2. lia.
      * split; [intro H; contradiction |].
        intro H. exfalso. destruct values; [| discriminate H].
        cbn in Hlast. apply E. rewrite Hlast. reflexivity.
      * intros _. rewrite <- (round_inject_Z current) at 1.
        rewrite last_map, Hlast. reflexivity.
Qed.

(** X21. The number animation of the popup ends.  For a number shown
    and a target between 0 and 100, the range of the scores, the
    animation is over within 11 animation frames; it writes at most 11
    numbers, none outside the interval between the number shown at the
    start and the rounded target, and the last number it writes is the
    rounded target.  When the element already shows the target nothing
    is written. *)
Theorem animateNumber_ends_within_11_frames :
  forall (current : Z) (target : Q),
    (0 <= current <= 100)%Z ->
    0 <= target <= 100 ->
    exists texts : list Z,
      (forall frames, (11 <= frames)%nat ->
                      Popup.animateNumber frames current target = (texts, true))
      /\ (length texts <= 11)%nat
      /\ Forall (fun t => (Z.min current (round target) <= t
                           <= Z.max current (round target))%Z) texts
      /\ (inject_Z current == target <-> texts = [])
      /\ (~ inject_Z current == target ->
          List.last texts current = round target).
Proof.
  intros current target _ _.
  destruct (animateNumber_run current target)
    as (texts & Hrun & Hlen & Hin & Hnone & Hlast).
  exists texts. split; [| split; [| split; [| split]]].
  - intros frames Hf. apply Hrun. lia.
  - lia.
  - exact Hin.
  - exact Hnone.
  - exact Hlast.
Qed.

Lemma animateNumber_ends_within_11_frames_witness :
  exists texts : list Z,
    Popup.animateNumber 11 0 11 = (texts, true)
    /\ (length texts <= 11)%nat
    /\ List.last texts 0%Z = 11%Z.
Proof.
  destruct (animateNumber_ends_within_11_frames 0 11)
    as (texts & Hrun & Hlen & _ & _ & Hlast).
  - lia.
  - split; discriminate.
  - exists texts. split; [apply Hrun; lia |]. split; [exact Hlen |].
    apply Hlast. discriminate.
Defined.

(** ** The accelerated distance and its fallback *)

Section BridgeDistance.

Import NPUBridge.

(** [computeHistogramDistance] does not raise and counts the call. *)
Lemma computeHistogramDistance_returns (hist1 hist2 : list Q) (b : t) :
  computeHistogramDistance hist1 hist2 b
  = (Returned
       (if graph b then
          match graph_compute hist1 hist2 with
          | Returned d => Some d
          | Thrown => _jsHistogramDistance hist1 hist2
          end
        else _jsHistogramDistance hist1 hist2),
     mk (available b) (graph b) (framesProcessed b + 1)%Z).
Proof.
  unfold computeHistogramDistance, bind, gets, modify, ret, try_catch, lift.
  destruct b as [a [|] n]; cbn [graph available framesProcessed];
    [| reflexivity].
  destruct (graph_compute hist1 hist2); reflexivity.
Qed.

End BridgeDistance.

(** X22. [computeHistogramDistance] never raises and counts every
    call.  Without a graph, or when the graph rejects the inputs (any
    shape but 48 bins), it returns the JavaScript distance.  On the
    histograms that the analyzer computes from two frames of its
    canvas (160 x 90 pixels, 57600 bytes) it returns a number within
    the relative tolerance 1e-4 of [_histogramDiff], the distance that
    [analyzeFrame] decides on, whether the graph is built or not. *)
Theorem computeHistogramDistance_agrees_with_fallback :
  (forall (hist1 hist2 : list Q) (b : NPUBridge.t),
      exists r,
        NPUBridge.computeHistogramDistance hist1 hist2 b
        = (Returned r,
           NPUBridge.mk (NPUBridge.available b) (NPUBridge.graph b)
                        (NPUBridge.framesProcessed b + 1)%Z)
        /\ (NPUBridge.graph b = false
            \/ length hist1 <> NPUBridge.GRAPH_BINS
            \/ length hist2 <> NPUBridge.GRAPH_BINS ->
            r = NPUBridge._jsHistogramDistance hist1 hist2))
  /\ (forall (data1 data2 : list Z) (b : NPUBridge.t),
        Z.of_nat (length data1) = FrameRuns.CANVAS_BYTES ->
        Z.of_nat (length data2) = FrameRuns.CANVAS_BYTES ->
        let h1 := FrameAnalyzer._computeHistogram data1 in
        let h2 := FrameAnalyzer._computeHistogram data2 in
        exists d d_js,
          fst (NPUBridge.computeHistogramDistance h1 h2 b)
          = Returned (Some d)
          /\ FrameAnalyzer._histogramDiff h1 h2 = Some d_js
          /\ within_relative_tolerance 0.0001 d d_js
          /\ (NPUBridge.graph b = false -> d = d_js)).
Proof.
  split.
  - intros hist1 hist2 b. eexists. split;
      [apply computeHistogramDistance_returns |].
    intros [H | H].
    + rewrite H. reflexivity.
    + destruct (NPUBridge.graph b); [| reflexivity].
      unfold NPUBridge.graph_compute.
      replace ((length hist1 =? NPUBridge.GRAPH_BINS)%nat
               && (length hist2 =? NPUBridge.GRAPH_BINS)%nat) with false;
        [reflexivity |].
      symmetry. apply andb_false_iff.
      destruct H as [H | H]; [left | right]; apply Nat.eqb_neq, H.
  - intros data1 data2 b Hlen1 Hlen2 h1 h2.
    assert (Hlen : length data1 = length data2) by lia.
    assert (Hsize : (0 < Z.of_nat (length data1) <= 4000000)%Z)
      by (rewrite Hlen1; vm_compute; split; [reflexivity | discriminate]).
    destruct (analyzer_histograms_dual_path_close data1 data2 Hlen Hsize)
      as (d_graph & d_js & Eg & Ej & Hclose).
    fold h1 h2 in Eg, Ej.
    rewrite computeHistogramDistance_returns. cbn [fst].
    destruct (NPUBridge.graph b) eqn:G.
    + exists d_graph, d_js. rewrite Eg.
      split; [reflexivity |]. split; [exact Ej |].
      split; [exact Hclose | discriminate].
    + exists d_js, d_js. unfold NPUBridge._jsHistogramDistance in Ej |- *.
      unfold FrameAnalyzer._histogramDiff.
      split; [rewrite Ej; reflexivity |]. split; [exact Ej |].
      split; [| reflexivity].
      unfold within_relative_tolerance.
      setoid_replace (d_js - d_js) with 0 by ring.
      change (Qabs 0) with 0.
      apply Qmult_le_0_compat; [discriminate |].
      apply Qle_trans with (Qabs d_js); [apply Qabs_nonneg | apply Q.le_max_l].
Qed.

Lemma computeHistogramDistance_agrees_with_fallback_witness :
  exists d d_js,
    fst (NPUBridge.computeHistogramDistance
           (FrameAnalyzer._computeHistogram (FrameRuns.canvas_frame 0))
           (FrameAnalyzer._computeHistogram (FrameRuns.canvas_frame 255))
           (NPUBridge.mk true true 0))
    = Returned (Some d)
    /\ FrameAnalyzer._histogramDiff
         (FrameAnalyzer._computeHistogram (FrameRuns.canvas_frame 0))
         (FrameAnalyzer._computeHistogram (FrameRuns.canvas_frame 255))
       = Some d_js
    /\ within_relative_tolerance 0.0001 d d_js
    /\ (NPUBridge.graph (NPUBridge.mk true true 0) = false -> d = d_js).
Proof.
  apply (proj2 computeHistogramDistance_agrees_with_fallback
           (FrameRuns.canvas_frame 0) (FrameRuns.canvas_frame 255)).
  - unfold FrameRuns.canvas_frame. rewrite repeat_length.
    apply Z2Nat.id. discriminate.
  - unfold FrameRuns.canvas_frame. rewrite repeat_length.
    apply Z2Nat.id. discriminate.
Defined.

(** ** The detector under the events of a page *)

Section MonitoredDetector.

Import NeuroFadeDetector Monitoring.

Variable log10 : Q -> Q.
Hypothesis log10_nonneg : forall x, 1 <= x -> 0 <= log10 x.

Lemma getActiveVideo_registered (d : t) (v : VideoElement) :
  _getActiveVideo d = Some v -> In v (videos d).
Proof.
  unfold _getActiveVideo.
  pose proof (pick_fold (videos d) [] None 0) as H.
  change (fold_left _ (videos d) (None, 0))
    with (fold_left DetectorRuns.pick (videos d) (None, 0)).
  destruct (fold_left DetectorRuns.pick (videos d) (None, 0)) as [b a].
  destruct H as [_ Hb]; [intros w [] | discriminate | reflexivity |].
  cbn [fst app] in *. intro E. subst b. apply Hb.
Qed.

(** With no recorded cut the scene-cut score is the motion part, at
    most 30. *)
Lemma sceneCutScore_without_cuts (now : Z) (d : t) :
  FrameAnalyzer.sceneCuts (frameAnalyzer d) = [] ->
  0 <= FrameAnalyzer.metricsAvgMotion
         (FrameAnalyzer.getMetrics (frameAnalyzer d)) ->
  0 <= sceneCutScore (details log10 now d) <= 30.
Proof.
  intros Hcuts Hm. unfold details. cbn [sceneCutScore].
  unfold FrameAnalyzer.getMetrics in *.
  cbn [FrameAnalyzer.metricsCutRate FrameAnalyzer.metricsAvgMotion] in *.
  rewrite Hcuts.
  set (m := FrameAnalyzer._average _) in *.
  assert (C0 : Qmin (0 / C.SCENE_CUT.HIGH_CUT_RATE) 1 == 0).
  { unfold C.SCENE_CUT.HIGH_CUT_RATE.
    rewrite Q.min_l; [reflexivity | discriminate]. }
  rewrite C0.
  assert (M0 : 0 <= Qmin (m / C.SCENE_CUT.MOTION_THRESHOLD) 1).
  { apply Qmin_1_nonneg. unfold C.SCENE_CUT.MOTION_THRESHOLD. qlra. }
  pose proof (Q.le_min_r (m / C.SCENE_CUT.MOTION_THRESHOLD) 1) as M1.
  split; lra.
Qed.

Lemma steady_valid_signals (start : Z) (k : nat) (now : Z) (d : t) :
  steady start (16 * k) d -> (start <= now)%Z -> valid_signals (now, d).
Proof.
  intros (_ & Hs & Ht & _ & (_ & _ & Hm & _) & _) Hnow.
  split; [exact Hs |]. split; [lia |].
  unfold FrameAnalyzer.getMetrics. cbn [FrameAnalyzer.metricsAvgMotion].
  apply average_bounds, Hm.
Qed.

Lemma handle_steady (start : Z) (k : nat) (d : t) (ev : Event) :
  (0 < k)%nat ->
  steady start (16 * k) d ->
  admissible start (16 * k) ev ->
  steady start (16 * k) (handle log10 d ev).
Proof.
  intros k_pos Hd Hev.
  pose proof Hd as ([Hs0 Hs1] & [Hv0 Hv1] & Hstart & Hvid & Hcons & Hcuts).
  assert (Keep : forall d',
             dopamineScore d' = dopamineScore d ->
             sensitivity d' = sensitivity d ->
             startTime d' = startTime d ->
             videos d' = videos d ->
             frameAnalyzer d' = frameAnalyzer d ->
             steady start (16 * k) d').
  { intros d' E1 E2 E3 E4 E5. unfold steady.
    rewrite E1, E2, E3, E4, E5. exact Hd. }
  destruct ev as [now scrollY | now height | now | now | value | | vs];
    cbn [handle admissible] in *.
  - apply Keep; reflexivity.
  - unfold domInterval.
    destruct (negb (Qeq_bool height (lastDOMHeight d))); [| exact Hd].
    apply Keep; reflexivity.
  - unfold frameInterval. destruct (enabled d); [| exact Hd].
    unfold _analyzeActiveVideo.
    destruct (_getActiveVideo d) as [v |] eqn:Ev; [| exact Hd].
    apply getActiveVideo_registered in Ev.
    assert (Hv : FrameRuns.captures (16 * k) (Some v)).
    { rewrite Forall_forall in Hvid. apply Hvid, Ev. }
    pose proof (analyzeFrame_step k (Some v) now (frameAnalyzer d) k_pos Hv
                  Hcons) as (Hc' & Hcuts' & _).
    cbv zeta in Hc', Hcuts'.
    assert (Hcuts'' : FrameAnalyzer.sceneCuts
                        (snd (FrameAnalyzer.analyzeFrame (Some v) now
                                (frameAnalyzer d))) = []).
    { rewrite Hcuts', Hcuts.
      destruct (FrameRuns.readable (Some v, now)); reflexivity. }
    destruct (FrameAnalyzer.analyzeFrame (Some v) now (frameAnalyzer d))
      as [[r |] fa'] eqn:Ea; cbn [snd] in *;
      unfold steady, set_frameAnalyzer;
      cbn [dopamineScore sensitivity startTime videos frameAnalyzer];
      (split; [split; assumption |]); (split; [split; assumption |]);
      (split; [assumption |]); (split; [assumption |]);
      (split; assumption).
  - unfold scoreInterval. destruct (enabled d); [| exact Hd].
    pose proof (update_bounded log10 log10_nonneg now d
                  (steady_valid_signals start k now d Hd Hev)
                  (conj Hs0 Hs1)) as Hb.
    unfold _updateDopamineScore in *. cbn [fst] in *.
    unfold steady, set_dopamineScore in *.
    cbn [dopamineScore sensitivity startTime videos frameAnalyzer] in *.
    split; [exact Hb |]. split; [split; assumption |].
    split; [assumption |]. split; [assumption |]. split; assumption.
  - unfold steady, set_sensitivity.
    cbn [dopamineScore sensitivity startTime videos frameAnalyzer].
    split; [split; assumption |]. split; [exact Hev |].
    split; [assumption |]. split; [assumption |]. split; assumption.
  - apply Keep; reflexivity.
  - unfold steady, set_videos.
    cbn [dopamineScore sensitivity startTime videos frameAnalyzer].
    split; [split; assumption |]. split; [split; assumption |].
    split; [assumption |]. split; [exact Hev |]. split; assumption.
Qed.

Lemma run_steady (start : Z) (k : nat) (events : list Event) :
  (0 < k)%nat ->
  Forall (admissible start (16 * k)) events ->
  forall d, steady start (16 * k) d ->
            steady start (16 * k) (run log10 events d).
Proof.
  intro k_pos.
  induction 1 as [| ev events Hev _ IH]; intros d Hd; [exact Hd |].
  unfold run. cbn [fold_left]. apply IH, handle_steady; assumption.
Qed.

(** A disabled detector ignores its two intervals; the listeners and
    the poll change the queues only. *)
Lemma handle_disabled (d : t) (ev : Event) :
  enabled d = false ->
  passive ev = true ->
  let d' := handle log10 d ev in
  enabled d' = false
  /\ dopamineScore d' = dopamineScore d
  /\ frameAnalyzer d' = frameAnalyzer d
  /\ (match ev with
      | Scroll _ _ | DomPoll _ _ | Videos _ => True
      | _ => d' = d
      end).
Proof.
  intros Hoff Hev. cbv zeta.
  destruct ev as [now scrollY | now height | now | now | value | | vs];
    try discriminate Hev; cbn [handle].
  - unfold _scrollHandler. cbn. auto.
  - unfold domInterval.
    destruct (negb (Qeq_bool height (lastDOMHeight d))); cbn; auto.
  - unfold frameInterval. rewrite Hoff. cbn [snd]. auto.
  - unfold scoreInterval. rewrite Hoff. auto.
  - unfold set_videos. cbn. auto.
Qed.

Lemma run_disabled (events : list Event) :
  forallb passive events = true ->
  forall d,
    enabled d = false ->
    let d' := run log10 events d in
    enabled d' = false
    /\ dopamineScore d' = dopamineScore d
    /\ frameAnalyzer d' = frameAnalyzer d.
Proof.
  induction events as [| ev events IH]; intros Hp d Hoff; cbv zeta.
  - cbn. auto.
  - cbn [forallb] in Hp. apply andb_true_iff in Hp. destruct Hp as [P1 P2].
    unfold run. cbn [fold_left].
    destruct (handle_disabled d ev Hoff P1) as (E1 & E2 & E3 & _).
    cbv zeta in E1, E2, E3.
    destruct (IH P2 _ E1) as (F1 & F2 & F3). cbv zeta in F1, F2, F3.
    unfold run in F1, F2, F3.
    split; [exact F1 |]. split; congruence.
Qed.

End MonitoredDetector.

(** X23. The detector at work.  Start a detector at [start] and let
    any sequence of events reach it: scroll notifications, polls of
    the document height, frame-sampling ticks, score ticks not before
    [start], sensitivities in [0, 1], toggles, and changes of the
    registered videos, whose frames are read from a canvas of [16 * k]
    pixels.  Then the score is between 0 and 100 at every moment, the
    analyzer has recorded no scene cut (its cut rate is 0) and reports
    an average motion between 0 and 1; and at a score tick the signals
    are valid, the scene-cut score is at most 30 (its motion part), and
    the score handed to [onScoreUpdate] is between 0 and 100. *)
Theorem monitored_detector_stays_in_range :
  forall (log10 : Q -> Q),
    (forall x, 1 <= x -> 0 <= log10 x) ->
    forall (start : Z) (scrollY height : Q) (k : nat)
           (events : list Monitoring.Event),
      (0 < k)%nat ->
      Forall (Monitoring.admissible start (16 * k)) events ->
      let d := Monitoring.run log10 events
                 (NeuroFadeDetector.constructor start scrollY height) in
      let metrics :=
        FrameAnalyzer.getMetrics (NeuroFadeDetector.frameAnalyzer d) in
      0 <= NeuroFadeDetector.dopamineScore d <= 100
      /\ FrameAnalyzer.metricsCutRate metrics = 0
      /\ 0 <= FrameAnalyzer.metricsAvgMotion metrics <= 1
      /\ forall now : Z,
           (start <= now)%Z ->
           NeuroFadeDetector.valid_signals (now, d)
           /\ 0 <= NeuroFadeDetector.sceneCutScore
                     (NeuroFadeDetector.details log10 now d) <= 30
           /\ 0 <= fst (snd (NeuroFadeDetector._updateDopamineScore
                               log10 now d)) <= 100.
Proof.
  intros log10 Hlog start scrollY height k events Hk Hev. cbv zeta.
  assert (H0 : Monitoring.steady start (16 * k)
                 (NeuroFadeDetector.constructor start scrollY height)).
  { unfold Monitoring.steady, NeuroFadeDetector.constructor.
    cbn [NeuroFadeDetector.dopamineScore NeuroFadeDetector.sensitivity
         NeuroFadeDetector.startTime NeuroFadeDetector.videos
         NeuroFadeDetector.frameAnalyzer].
    split; [split; discriminate |]. split; [split; discriminate |].
    split; [reflexivity |]. split; [constructor |].
    split; [| reflexivity].
    unfold FrameRuns.consistent, FrameAnalyzer.constructor. cbn.
    repeat split; [constructor | lia]. }
  pose proof (run_steady log10 Hlog start k events Hk Hev _ H0) as Hd.
  set (d := Monitoring.run log10 events _) in *.
  pose proof Hd as (Hscore & Hsens & Hstart & Hvid & Hcons & Hcuts).
  assert (Hm : 0 <= FrameAnalyzer.metricsAvgMotion
                      (FrameAnalyzer.getMetrics
                         (NeuroFadeDetector.frameAnalyzer d)) <= 1).
  { unfold FrameAnalyzer.getMetrics. cbn [FrameAnalyzer.metricsAvgMotion].
    apply average_bounds. apply Hcons. }
  split; [exact Hscore |]. split; [| split; [exact Hm |]].
  - unfold FrameAnalyzer.getMetrics. cbn [FrameAnalyzer.metricsCutRate].
    rewrite Hcuts. reflexivity.
  - intros now Hnow.
    pose proof (steady_valid_signals start k now d Hd Hnow) as Hvalid.
    split; [exact Hvalid |]. split.
    + apply sceneCutScore_without_cuts; [exact Hcuts | apply Hm].
    + apply (update_bounded log10 Hlog now d Hvalid Hscore).
Qed.

Lemma monitored_detector_stays_in_range_witness :
  0 <= NeuroFadeDetector.dopamineScore
         (Monitoring.run NeuroFadeDetector.floor_log10
            [Monitoring.Videos [Examples.playing_video FrameRuns.dark_frame];
             Monitoring.FrameTick 500; Monitoring.Scroll 600 4000;
             Monitoring.ScoreTick 1000]
            (NeuroFadeDetector.constructor 0 0 2000)) <= 100.
Proof.
  refine (proj1 (monitored_detector_stays_in_range
                   NeuroFadeDetector.floor_log10
                   (fun x _ => floor_log10_nonneg x)
                   0 0 2000 1%nat _ _ _)).
  - lia.
  - repeat constructor; unfold FrameRuns.is_byte; cbn; lia.
Defined.

(** X24. A disabled detector is frozen.  While the detector is
    disabled, no sequence of scroll notifications, height polls, frame
    ticks, score ticks and video changes moves the score or the frame
    analyzer, and the detector stays disabled; a frame tick or a score
    tick leaves the whole detector as it was.  (The scroll listener
    and the height poll are not gated: their queues go on filling.) *)
Theorem disabled_detector_is_frozen :
  forall (log10 : Q -> Q) (events : list Monitoring.Event)
         (d : NeuroFadeDetector.t),
    NeuroFadeDetector.enabled d = false ->
    forallb Monitoring.passive events = true ->
    let d' := Monitoring.run log10 events d in
    NeuroFadeDetector.enabled d' = false
    /\ NeuroFadeDetector.dopamineScore d' = NeuroFadeDetector.dopamineScore d
    /\ NeuroFadeDetector.frameAnalyzer d' = NeuroFadeDetector.frameAnalyzer d
    /\ (forall now, Monitoring.handle log10 d' (Monitoring.FrameTick now) = d')
    /\ (forall now, Monitoring.handle log10 d' (Monitoring.ScoreTick now) = d').
Proof.
  intros log10 events d Hoff Hp. cbv zeta.
  destruct (run_disabled log10 events Hp d Hoff) as (E1 & E2 & E3).
  cbv zeta in E1, E2, E3.
  split; [exact E1 |]. split; [exact E2 |]. split; [exact E3 |].
  split; intro now.
  - apply (handle_disabled log10 _ (Monitoring.FrameTick now) E1 eq_refl).
  - apply (handle_disabled log10 _ (Monitoring.ScoreTick now) E1 eq_refl).
Qed.

Lemma disabled_detector_is_frozen_witness :
  NeuroFadeDetector.dopamineScore
    (Monitoring.run NeuroFadeDetector.floor_log10
       [Monitoring.Scroll 600 4000; Monitoring.ScoreTick 1000]
       (Monitoring.handle NeuroFadeDetector.floor_log10
          Examples.saturated_detector Monitoring.Toggle))
  = NeuroFadeDetector.dopamineScore
      (Monitoring.handle NeuroFadeDetector.floor_log10
         Examples.saturated_detector Monitoring.Toggle).
Proof.
  refine (proj1 (proj2 (disabled_detector_is_frozen _ _ _ _ _)));
    reflexivity.
Defined.

(** ** The engine with the page that it writes *)

Section EngineAndPage.

Lemma EnginePage_frames_engine (n : nat) (p : EnginePage.t) :
  fst (EnginePage.frames n p) = FadeEngine.frames n (fst p).
Proof.
  induction n as [| n IH]; [reflexivity |].
  change (EnginePage.frames (S n) p)
    with (EnginePage.frame (EnginePage.frames n p)).
  change (FadeEngine.frames (S n) (fst p))
    with (FadeEngine.frame (FadeEngine.frames n (fst p))).
  rewrite <- IH. unfold EnginePage.frame, FadeEngine.frame.
  destruct (FadeEngine.isAnimating (fst (EnginePage.frames n p)));
    reflexivity.
Qed.

(** What [_applyEffects] leaves on the page. *)
Lemma applyEffects_shows (e : Effects) (r : Rendering.t) :
  EnginePage.shows e (Rendering._applyEffects e r)
  /\ map Rendering.element (Rendering.videos (Rendering._applyEffects e r))
     = map Rendering.element (Rendering.videos r).
Proof.
  unfold EnginePage.shows, Rendering._applyEffects.
  cbn [Rendering.cssVariables Rendering.bodyFilter Rendering.videos
       Rendering.audioProcessor].
  split; [| rewrite map_map; reflexivity].
  split; [reflexivity |]. split; [reflexivity |].
  rewrite Forall_map, Forall_forall. intros v Hv.
  split; [reflexivity |]. split.
  - apply (apply_to_video_rate e v).
  - change (Rendering.element (Rendering.apply_to_video e v))
      with (Rendering.element v).
    intro Hhas. rewrite fold_applyFade_has in Hhas.
    apply fold_applyFade_state; [exact Hhas |].
    left. apply in_map, Hv.
Qed.

(** Once the loop has run a frame, the page shows the current
    effects. *)
Lemma frames_show_current (p : EnginePage.t) (n : nat) :
  FadeEngine.isAnimating (fst p) = true ->
  let q := EnginePage.frames (S n) p in
  EnginePage.shows (FadeEngine.currentEffects (fst q)) (snd q)
  /\ map Rendering.element (Rendering.videos (snd q))
     = map Rendering.element (Rendering.videos (snd p)).
Proof.
  intro Hstart. cbv zeta. induction n as [| n IH].
  - change (EnginePage.frames 1 p) with (EnginePage.frame p).
    unfold EnginePage.frame. rewrite Hstart. cbn [fst snd].
    apply applyEffects_shows.
  - change (EnginePage.frames (S (S n)) p)
      with (EnginePage.frame (EnginePage.frames (S n) p)).
    set (q := EnginePage.frames (S n) p) in *.
    unfold EnginePage.frame.
    destruct (FadeEngine.isAnimating (fst q)); [| exact IH].
    cbn [fst snd].
    destruct (applyEffects_shows
                (FadeEngine.currentEffects (FadeEngine.step (fst q)))
                (snd q)) as [S1 S2].
    split; [exact S1 |]. rewrite S2. apply IH.
Qed.

Lemma reset_fields (e : FadeEngine.t) :
  FadeEngine.isAnimating (FadeEngine.reset e) = true
  /\ FadeEngine.targetEffects (FadeEngine.reset e) = neutral
  /\ FadeEngine.currentEffects (FadeEngine.reset e)
     = FadeEngine.currentEffects e.
Proof.
  unfold FadeEngine.reset, FadeEngine._startAnimation.
  cbn [FadeEngine.isAnimating].
  destruct (FadeEngine.isAnimating e); cbn; auto.
Qed.

Lemma settled_within_120 (e : FadeEngine.t) (n : nat) :
  FadeEngine.isAnimating e = true ->
  in_range (FadeEngine.currentEffects e) ->
  in_range (FadeEngine.targetEffects e) ->
  (120 <= n)%nat ->
  FadeEngine.isAnimating (FadeEngine.frames n e) = false
  /\ forall ch, get ch (FadeEngine.currentEffects (FadeEngine.frames n e))
                = get ch (FadeEngine.targetEffects e).
Proof.
  intros Hstart Hc Ht Hn.
  apply (frames_stop_decay e n 119 Hstart); [| lia].
  intro ch. pose proof (distance_in_range e ch Hc Ht) as D.
  pose proof (Qpow_nonneg 119) as P.
  apply Qle_trans with (FadeEngine.Qpow 0.94 119 * 1.5); [| apply decay_119].
  rewrite !(Qmult_comm (FadeEngine.Qpow 0.94 119)).
  apply Qmult_le_compat_r; assumption.
Qed.

Lemma Effects_channels (a b : Effects) :
  (forall ch, get ch a = get ch b) -> a = b.
Proof.
  intro H.
  pose proof (H Grayscale) as H1. pose proof (H Saturation) as H2.
  pose proof (H Brightness) as H3. pose proof (H Blur) as H4.
  pose proof (H PlaybackRate) as H5. pose proof (H AudioIntensity) as H6.
  destruct a as [a1 a2 a3 a4 a5 a6], b as [b1 b2 b3 b4 b5 b6].
  cbn in H1, H2, H3, H4, H5, H6. congruence.
Qed.

End EngineAndPage.

(** X25. [reset] brings the page back.  From any engine with its
    current effects inside their declared ranges and any page, after
    [reset] and 120 or more animation frames (and nothing else) the
    loop has stopped, the current effects are the neutral ones, and
    the page shows them: CSS variables (0, 1, 1, 0), that filter on
    every registered video, every playing video within 0.01 of
    playback rate 1, every audio chain at intensity 0; the registered
    videos are the same.  The empty body filter that [reset] writes
    lasts until the next animation frame only: after one frame or more
    the body carries a filter again, in the end the neutral one. *)
Theorem reset_settles_on_neutral_page :
  forall (e : FadeEngine.t) (r : Rendering.t) (n : nat),
    in_range (FadeEngine.currentEffects e) ->
    (120 <= n)%nat ->
    let p := EnginePage.frames n (EnginePage.reset (e, r)) in
    FadeEngine.isAnimating (fst p) = false
    /\ FadeEngine.currentEffects (fst p) = neutral
    /\ EnginePage.shows neutral (snd p)
    /\ map Rendering.element (Rendering.videos (snd p))
       = map Rendering.element (Rendering.videos r)
    /\ Rendering.bodyFilter (snd (EnginePage.reset (e, r))) = None
    /\ forall m, (1 <= m)%nat ->
                 Rendering.bodyFilter
                   (snd (EnginePage.frames m (EnginePage.reset (e, r))))
                 <> None.
Proof.
  intros e r n Hc Hn. cbv zeta.
  destruct (reset_fields e) as (Ra & Rt & Rc).
  set (p0 := EnginePage.reset (e, r)).
  assert (Hstart : FadeEngine.isAnimating (fst p0) = true) by exact Ra.
  assert (Hshow : forall m, (1 <= m)%nat ->
            EnginePage.shows
              (FadeEngine.currentEffects (fst (EnginePage.frames m p0)))
              (snd (EnginePage.frames m p0))
            /\ map Rendering.element
                   (Rendering.videos (snd (EnginePage.frames m p0)))
               = map Rendering.element (Rendering.videos (snd p0))).
  { intros m Hm. destruct m as [| m]; [lia |].
    apply (frames_show_current p0 m Hstart). }
  assert (Hsettle : FadeEngine.isAnimating (fst (EnginePage.frames n p0))
                    = false
                    /\ FadeEngine.currentEffects
                         (fst (EnginePage.frames n p0)) = neutral).
  { rewrite EnginePage_frames_engine. unfold p0, EnginePage.reset.
    cbn [fst].
    destruct (settled_within_120 (FadeEngine.reset e) n Ra) as [S1 S2];
      [rewrite Rc; exact Hc | rewrite Rt; apply neutral_in_range | exact Hn |].
    split; [exact S1 |]. apply Effects_channels. intro ch.
    rewrite S2, Rt. reflexivity. }
  destruct Hsettle as [S1 S2].
  destruct (Hshow n ltac:(lia)) as [H1 H2]. rewrite S2 in H1.
  split; [exact S1 |]. split; [exact S2 |]. split; [exact H1 |].
  split; [| split].
  - rewrite H2. unfold p0, EnginePage.reset, Rendering.reset.
    cbn [snd Rendering.videos]. rewrite map_map. reflexivity.
  - reflexivity.
  - intros m Hm. destruct (Hshow m Hm) as [(_ & B & _) _].
    rewrite B. discriminate.
Qed.

Lemma reset_settles_on_neutral_page_witness :
  FadeEngine.currentEffects
    (fst (EnginePage.frames 120
            (EnginePage.reset
               (FadeEngine.update 100 FadeEngine.constructor,
                Rendering.constructor))))
  = neutral.
Proof.
  refine (proj1 (proj2 (reset_settles_on_neutral_page _ _ 120 _ _))).
  - apply neutral_in_range.
  - apply le_n.
Defined.

(** ** The timing rows of the benchmark *)

Section BenchmarkRows.

Import Benchmark.

Lemma insert_In (x : Q) (l : list Q) (z : Q) :
  In z (insert x l) <-> z = x \/ In z l.
Proof.
  induction l as [| y l IH]; cbn [insert].
  - cbn. intuition.
  - destruct (Qle_bool x y); cbn [In]; [intuition |].
    rewrite IH. intuition.
Qed.

Lemma insert_length (x : Q) (l : list Q) :
  length (insert x l) = S (length l).
Proof.
  induction l as [| y l IH]; cbn [insert]; [reflexivity |].
  destruct (Qle_bool x y); cbn [length]; [reflexivity |].
  rewrite IH. reflexivity.
Qed.

Lemma sort_In (l : list Q) (z : Q) : In z (sort l) <-> In z l.
Proof.
  induction l as [| x l IH]; [reflexivity |].
  cbn [sort fold_right]. fold (sort l). rewrite insert_In, IH. cbn [In].
  intuition.
Qed.

Lemma sort_length (l : list Q) : length (sort l) = length l.
Proof.
  induction l as [| x l IH]; [reflexivity |].
  cbn [sort fold_right]. fold (sort l). rewrite insert_length, IH.
  reflexivity.
Qed.

(** In the sorted copy an element is at most every later one. *)
Lemma insert_ascending (x : Q) (l : list Q) :
  (forall i j a b, (i <= j)%nat -> nth_error l i = Some a ->
                   nth_error l j = Some b -> a <= b) ->
  forall i j a b, (i <= j)%nat -> nth_error (insert x l) i = Some a ->
                  nth_error (insert x l) j = Some b -> a <= b.
Proof.
  induction l as [| y l IH]; intros Hl i j a b Hij Hi Hj.
  - cbn [insert] in *. destruct i as [| i]; [| destruct i; discriminate].
    destruct j as [| j]; [| destruct j; discriminate].
    cbn in Hi, Hj. inversion Hi; inversion Hj; subst. apply Qle_refl.
  - assert (Hhead : forall z, In z l -> y <= z).
    { intros z Hz. apply In_nth_error in Hz. destruct Hz as [n Hn].
      apply (Hl 0%nat (S n) y z); [lia | reflexivity | exact Hn]. }
    assert (Htail : forall i j a b, (i <= j)%nat -> nth_error l i = Some a ->
                                    nth_error l j = Some b -> a <= b).
    { intros i' j' a' b' H1 H2 H3.
      apply (Hl (S i') (S j') a' b'); [lia | exact H2 | exact H3]. }
    cbn [insert] in *. destruct (Qle_bool x y) eqn:E.
    + apply Qle_bool_iff in E.
      destruct i as [| i]; destruct j as [| j]; try lia.
      * cbn in Hi, Hj. inversion Hi; inversion Hj; subst. apply Qle_refl.
      * cbn in Hi. inversion Hi; subst a.
        cbn [nth_error] in Hj. apply nth_error_In in Hj.
        destruct Hj as [Hj | Hj]; [subst b; exact E |].
        apply Qle_trans with y; [exact E | apply Hhead, Hj].
      * cbn [nth_error] in Hi, Hj. apply (Hl i j a b); [lia | | ]; assumption.
    + assert (Hyx : y <= x).
      { destruct (Qlt_le_dec y x) as [H | H]; [apply Qlt_le_weak, H |].
        apply Qle_bool_iff in H. congruence. }
      destruct i as [| i]; destruct j as [| j]; try lia.
      * cbn in Hi, Hj. inversion Hi; inversion Hj; subst. apply Qle_refl.
      * cbn in Hi. inversion Hi; subst a.
        cbn [nth_error] in Hj. apply nth_error_In, insert_In in Hj.
        destruct Hj as [Hj | Hj]; [subst b; exact Hyx | apply Hhead, Hj].
      * cbn [nth_error] in Hi, Hj.
        apply (IH Htail i j a b); [lia | | ]; assumption.
Qed.

Lemma sort_ascending (l : list Q) :
  forall i j a b, (i <= j)%nat -> nth_error (sort l) i = Some a ->
                  nth_error (sort l) j = Some b -> a <= b.
Proof.
  induction l as [| x l IH].
  - intros i j a b _ Hi. destruct i; discriminate Hi.
  - cbn [sort fold_right]. fold (sort l). apply insert_ascending, IH.
Qed.

Lemma fold_Qmin_bounds (rest : list Q) :
  forall x, fold_left Qmin rest x <= x
            /\ Forall (fun t => fold_left Qmin rest x <= t) rest.
Proof.
  induction rest as [| y rest IH]; intro x; cbn [fold_left].
  - split; [apply Qle_refl | constructor].
  - destruct (IH (Qmin x y)) as [H1 H2].
    pose proof (Q.le_min_l x y). pose proof (Q.le_min_r x y).
    split; [lra |]. constructor; [lra | exact H2].
Qed.

Lemma fold_Qmax_bounds (rest : list Q) :
  forall x, x <= fold_left Qmax rest x
            /\ Forall (fun t => t <= fold_left Qmax rest x) rest.
Proof.
  induction rest as [| y rest IH]; intro x; cbn [fold_left].
  - split; [apply Qle_refl | constructor].
  - destruct (IH (Qmax x y)) as [H1 H2].
    pose proof (Q.le_max_l x y). pose proof (Q.le_max_r x y).
    split; [lra |]. constructor; [lra | exact H2].
Qed.

Lemma total_between (lo hi : Q) (l : list Q) :
  Forall (fun t => lo <= t <= hi) l ->
  inject_Z (Z.of_nat (length l)) * lo <= total l
  /\ total l <= inject_Z (Z.of_nat (length l)) * hi.
Proof.
  unfold total. change (fold_left Qplus l 0) with (FrameAnalyzer.sum l).
  induction 1 as [| x l Hx _ IH].
  - unfold FrameAnalyzer.sum. cbn [fold_left length Z.of_nat].
    change (inject_Z 0) with 0. split; lra.
  - unfold FrameAnalyzer.sum in *. cbn [fold_left]. rewrite sum_from.
    unfold FrameAnalyzer.sum.
    cbn [length]. rewrite Nat2Z.inj_succ. unfold Z.succ.
    rewrite inject_Z_plus. change (inject_Z 1) with 1. split; lra.
Qed.

Lemma at_index_valid (l : list Q) (i : Z) :
  (0 <= i < Z.of_nat (length l))%Z ->
  exists a, at_index l i = Some a
            /\ nth_error l (Z.to_nat i) = Some a /\ In a l.
Proof.
  intros [H0 H1]. unfold at_index.
  destruct (Z.ltb_spec i 0); [lia |].
  destruct (nth_error l (Z.to_nat i)) as [a |] eqn:E.
  - exists a. split; [reflexivity |]. split; [reflexivity |].
    apply nth_error_In in E. exact E.
  - apply nth_error_None in E. lia.
Qed.

(** The index of the 95th percentile is in range, at or after the
    middle. *)
Lemma p95_index (n : Z) :
  (1 <= n)%Z ->
  (n / 2 <= Qceiling (95 / 100 * inject_Z n) - 1 < n)%Z.
Proof.
  intro Hn.
  set (x := 95 / 100 * inject_Z n).
  pose proof (Qle_ceiling x) as C1. pose proof (Qceiling_lt x) as C2.
  assert (N1 : 1 <= inject_Z n)
    by (change 1 with (inject_Z 1); rewrite <- Zle_Qle; exact Hn).
  assert (Hhalf : inject_Z (n / 2) <= inject_Z n / 2).
  { apply Qle_shift_div_l; [reflexivity |].
    change 2 with (inject_Z 2). rewrite <- inject_Z_mult, <- Zle_Qle.
    pose proof (Z.mul_div_le n 2). lia. }
  split.
  - assert (H : (n / 2 < Qceiling x)%Z); [| lia].
    rewrite Zlt_Qlt. apply Qle_lt_trans with (inject_Z n / 2); [exact Hhalf |].
    apply Qlt_le_trans with x; [| exact C1]. unfold x. qlra.
  - assert (H : (Qceiling x - 1 < n)%Z); [| lia].
    rewrite Zlt_Qlt. apply Qlt_le_trans with x; [exact C2 |].
    unfold x. qlra.
Qed.

End BenchmarkRows.

(** X26. The rows of the benchmark report are in order.  For any
    non-empty list of measured times every number of the row is
    defined, minimum <= median <= 95th percentile <= maximum, and the
    95th percentile is one of the measured times. *)
Theorem benchmark_row_is_ordered :
  forall times : list Q,
    times <> [] ->
    exists r : Benchmark.Row,
      Benchmark.row times = Some r
      /\ Benchmark.minMs r <= Benchmark.medianMs r
      /\ Benchmark.medianMs r <= Benchmark.p95Ms r
      /\ Benchmark.p95Ms r <= Benchmark.maxMs r
      /\ In (Benchmark.p95Ms r) times.
Proof.
  intros times Hne.
  destruct times as [| t0 rest] eqn:Et; [contradiction |].
  rewrite <- Et in *. clear Hne.
  assert (Hn : (1 <= Z.of_nat (length times))%Z)
    by (rewrite Et; cbn [length]; lia).
  set (lo := fold_left Qmin rest t0). set (hi := fold_left Qmax rest t0).
  assert (Hlo : Benchmark.minimum times = Some lo) by (rewrite Et; reflexivity).
  assert (Hhi : Benchmark.maximum times = Some hi) by (rewrite Et; reflexivity).
  assert (Hall : Forall (fun t => lo <= t <= hi) times).
  { destruct (fold_Qmin_bounds rest t0) as [L1 L2].
    destruct (fold_Qmax_bounds rest t0) as [U1 U2].
    rewrite Et. constructor; [split; assumption |].
    rewrite Forall_forall in *. intros t Ht. split; [apply L2 | apply U2];
      exact Ht. }
  assert (Hin : forall a, In a (Benchmark.sort times) -> lo <= a <= hi).
  { intros a Ha. apply (proj1 (sort_In _ _)) in Ha.
    rewrite Forall_forall in Hall.
    apply Hall, Ha. }
  pose proof (sort_length times) as Hlen.
  pose proof (sort_ascending times) as Hasc.
  (* the average *)
  assert (Havg : Benchmark._avg times
                 = Some (Benchmark.total times
                         / inject_Z (Z.of_nat (length times))))
    by (rewrite Et; reflexivity).
  assert (Npos : 0 < inject_Z (Z.of_nat (length times)))
    by (change 0 with (inject_Z 0); rewrite <- Zlt_Qlt; lia).
  destruct (total_between lo hi times Hall) as [T1 T2].
  (* the percentile *)
  destruct (p95_index _ Hn) as [P1 P2].
  assert (Hp : exists p95,
             Benchmark._percentile times 95 = Some p95
             /\ nth_error (Benchmark.sort times)
                  (Z.to_nat (Qceiling (95 / 100
                                       * inject_Z (Z.of_nat (length times)))
                             - 1))
                = Some p95
             /\ In p95 (Benchmark.sort times)).
  { unfold Benchmark._percentile. cbv zeta. rewrite Hlen.
    apply at_index_valid. rewrite Hlen.
    pose proof (Z.div_pos (Z.of_nat (length times)) 2). lia. }
  destruct Hp as (p95 & Ep & Np & Ip).
  (* the median *)
  assert (Hm : exists median,
             Benchmark._median times = Some median
             /\ lo <= median /\ median <= p95).
  { unfold Benchmark._median. cbv zeta. rewrite Hlen.
    set (n := Z.of_nat (length times)) in *.
    assert (Hmid : (0 <= n / 2 < n)%Z).
    { split; [apply Z.div_pos; lia | apply Z.div_lt_upper_bound; lia]. }
    destruct (Benchmark.at_index (Benchmark.sort times) (n / 2)) as [b |] eqn:Eb.
    2:{ destruct (at_index_valid (Benchmark.sort times) (n / 2))
          as (b & Eb' & _); [rewrite Hlen; exact Hmid | congruence]. }
    destruct (at_index_valid (Benchmark.sort times) (n / 2))
      as (b' & Eb' & Nb & Ib); [rewrite Hlen; exact Hmid |].
    assert (b' = b) by congruence. subst b'.
    assert (Hb : b <= p95).
    { apply (Hasc (Z.to_nat (n / 2))
                   (Z.to_nat (Qceiling (95 / 100 * inject_Z n) - 1)) b p95);
        [lia | exact Nb | exact Np]. }
    destruct (Z.eqb_spec (n mod 2) 0) as [Even | Odd].
    - assert (Hn2 : (1 <= n / 2)%Z).
      { pose proof (Z.div_mod n 2 ltac:(lia)). lia. }
      destruct (at_index_valid (Benchmark.sort times) (n / 2 - 1))
        as (a & Ea & Na & Ia); [rewrite Hlen; lia |].
      rewrite Ea. exists ((a + b) / 2). split; [reflexivity |].
      assert (Hab : a <= b).
      { apply (Hasc (Z.to_nat (n / 2 - 1)) (Z.to_nat (n / 2)) a b);
          [lia | exact Na | exact Nb]. }
      pose proof (Hin a Ia). pose proof (Hin b Ib).
      split; qlra.
    - exists b. split; [reflexivity |]. split; [apply Hin, Ib | exact Hb]. }
  destruct Hm as (median & Em & M1 & M2).
  exists (Benchmark.mkRow
            (Benchmark.total times / inject_Z (Z.of_nat (length times)))
            lo hi median p95 (Benchmark.total times)).
  cbn [Benchmark.avgMs Benchmark.minMs Benchmark.maxMs Benchmark.medianMs
       Benchmark.p95Ms Benchmark.totalMs].
  split; [unfold Benchmark.row; rewrite Havg, Hlo, Hhi, Em, Ep; reflexivity |].
  split; [exact M1 |]. split; [exact M2 |].
  split; [apply Hin, Ip |].
  apply (proj1 (sort_In _ _)), Ip.
Qed.

Lemma benchmark_row_is_ordered_witness :
  exists r : Benchmark.Row,
    Benchmark.row [3; 1; 2; 10] = Some r
    /\ Benchmark.minMs r <= Benchmark.medianMs r
    /\ Benchmark.medianMs r <= Benchmark.p95Ms r
    /\ Benchmark.p95Ms r <= Benchmark.maxMs r
    /\ In (Benchmark.p95Ms r) [3; 1; 2; 10].
Proof.
  apply benchmark_row_is_ordered. discriminate.
Defined.

(** ** The queue of height changes *)

Section DomQueue.

Import NeuroFadeDetector DetectorRuns DomRuns.

Lemma filter_recent_change_twice (t1 t2 : Z) (l : list Z) :
  (t1 <= t2)%Z ->
  filter (recent_change t2) (filter (recent_change t1) l)
  = filter (recent_change t2) l.
Proof.
  intro H. induction l as [| e l IH]; [reflexivity |].
  cbn [filter].
  destruct (recent_change t1 e) eqn:A; destruct (recent_change t2 e) eqn:B;
    cbn [filter]; rewrite ?B, ?IH; try reflexivity.
  exfalso. unfold recent_change in A, B.
  apply Z.ltb_lt in B. apply Z.ltb_ge in A. lia.
Qed.

Lemma changes_not_before (polls : list (Z * Q)) :
  forall from lastHeight,
    nondecreasing from polls ->
    Forall (fun t => (from <= t)%Z) (changes lastHeight polls).
Proof.
  induction polls as [| [now height] polls IH]; intros from lastHeight H;
    cbn [changes]; [constructor |].
  destruct H as [H1 H2].
  assert (Hrest : forall h, Forall (fun t => (from <= t)%Z) (changes h polls)).
  { intro h. eapply Forall_impl; [| apply (IH now h H2)].
    cbv beta. intros. lia. }
  destruct (Qeq_bool height lastHeight); [apply Hrest |].
  constructor; [exact H1 | apply Hrest].
Qed.

Lemma last_not_before (from : Z) (l : list Z) (d : Z) :
  Forall (fun t => (from <= t)%Z) l -> (from <= d)%Z ->
  (from <= List.last l d)%Z.
Proof.
  induction 1 as [| x l Hx _ IH]; intro Hd; [exact Hd |].
  destruct l as [| y l]; [exact Hx |]. apply IH, Hd.
Qed.

Lemma polled_queue (polls : list (Z * Q)) :
  forall (d : t) (from : Z),
    nondecreasing from polls ->
    let times := changes (lastDOMHeight d) polls in
    domHeightChanges (polled polls d)
    = match times with
      | [] => domHeightChanges d
      | t :: _ =>
          filter (recent_change (List.last times t))
                 (domHeightChanges d ++ times)
      end.
Proof.
  induction polls as [| [now height] polls IH]; intros d from H; cbv zeta.
  - reflexivity.
  - destruct H as [H1 H2].
    change (polled ((now, height) :: polls) d)
      with (polled polls (domInterval now height d)).
    rewrite (IH (domInterval now height d) now H2).
    cbn [changes]. unfold domInterval.
    destruct (Qeq_bool height (lastDOMHeight d)) eqn:E; cbn [negb];
      [reflexivity |].
    cbn [lastDOMHeight domHeightChanges].
    pose proof (changes_not_before polls now height H2) as Hge.
    destruct (changes height polls) as [| t ts] eqn:Ec.
    + reflexivity.
    + assert (Hlast : (now <= List.last (t :: ts) t)%Z).
      { apply last_not_before; [exact Hge |].
        inversion Hge; assumption. }
      change (List.last (now :: t :: ts) now) with (List.last (t :: ts) now).
      rewrite (last_nonempty ts t now t).
      replace (domHeightChanges d ++ now :: t :: ts)
        with ((domHeightChanges d ++ [now]) ++ t :: ts)
        by (rewrite <- app_assoc; reflexivity).
      rewrite (filter_app _ (filter _ _) (t :: ts)).
      rewrite (filter_recent_change_twice now _) by exact Hlast.
      rewrite <- filter_app. reflexivity.
Qed.

End DomQueue.

(** X27. The queue of height changes is a window that moves with the
    changes, not with the clock.  Over a sequence of polls whose clock
    does not run backwards, the queue holds, in order, exactly the
    earlier entries and the times of the polls that found the height
    changed which are less than 10000 ms older than the last such
    poll; polls that find the height unchanged leave the queue as it
    is, however old its entries are. *)
Theorem dom_queue_moves_with_changes :
  forall (d : NeuroFadeDetector.t) (from : Z) (polls : list (Z * Q)),
    DetectorRuns.nondecreasing from polls ->
    let times := DomRuns.changes (NeuroFadeDetector.lastDOMHeight d) polls in
    NeuroFadeDetector.domHeightChanges (DomRuns.polled polls d)
    = match times with
      | [] => NeuroFadeDetector.domHeightChanges d
      | t :: _ =>
          filter (fun t' => (List.last times t - t' <? 10000)%Z)
                 (NeuroFadeDetector.domHeightChanges d ++ times)
      end.
Proof.
  intros d from polls H. apply (polled_queue polls d from H).
Qed.

Lemma dom_queue_moves_with_changes_witness :
  NeuroFadeDetector.domHeightChanges
    (DomRuns.polled [(500%Z, 2100); (1000%Z, 2100); (30000%Z, 2100)]
       (NeuroFadeDetector.constructor 0 0 2000))
  = [500%Z].
Proof.
  refine (dom_queue_moves_with_changes
            (NeuroFadeDetector.constructor 0 0 2000) 0
            [(500%Z, 2100); (1000%Z, 2100); (30000%Z, 2100)] _).
  cbn. lia.
Defined.

(** ** The start of the NPU bridge *)

Section BridgeStart.

Import String.
#[local] Open Scope string_scope.

(** X28. [init] takes the first device that gives a context, and takes
    it once.  On a bridge that is not yet initialised, [init] returns
    whether the bridge is available and marks it initialised.  When
    WebNN is present and a context can be created for one of npu, gpu,
    cpu, the bridge is available on the first such device, in this
    order, and has a graph exactly if the graph could be built;
    otherwise it is unavailable, on the cpu back end, with context and
    graph as they were, and only then the status reads
    "CPU (JavaScript)".  A second [init] returns the same answer and
    changes nothing, whatever the browser offers by then.  Started
    from the constructor, a bridge with a graph is available. *)
Theorem init_takes_first_device_once :
  forall (env : BridgeInit.Browser) (s : BridgeInit.t),
    BridgeInit.initialized s = false ->
    let r := fst (BridgeInit.init env s) in
    let s' := snd (BridgeInit.init env s) in
    BridgeInit.initialized s' = true
    /\ r = BridgeInit.available s'
    /\ match BridgeInit.first_device env with
       | Some device =>
           BridgeInit.available s' = true
           /\ BridgeInit.backend s' = device
           /\ BridgeInit.context s' = Some device
           /\ BridgeInit.graph s'
              = match BridgeInit.build env with
                | Returned _ => true
                | Thrown => false
                end
       | None =>
           BridgeInit.available s' = false
           /\ BridgeInit.backend s' = BridgeInit.cpu
           /\ BridgeInit.context s' = BridgeInit.context s
           /\ BridgeInit.graph s' = BridgeInit.graph s
       end
    /\ (BridgeInit.getStatusString s' = "CPU (JavaScript)"
        <-> BridgeInit.first_device env = None)
    /\ (forall env', BridgeInit.init env' s' = (r, s'))
    /\ (s = BridgeInit.constructor ->
        BridgeInit.graph s' = true -> BridgeInit.available s' = true).
Proof.
  intros env s Hs. cbv zeta.
  unfold BridgeInit.init, BridgeInit.first_device, BridgeInit.attempt,
    BridgeInit.fallback, BridgeInit._buildSceneCutGraph,
    BridgeInit.getStatusString.
  rewrite Hs. cbn [find].
  destruct (BridgeInit.ml env); cbn [negb].
  - destruct (BridgeInit.createContext env BridgeInit.npu);
      [| destruct (BridgeInit.createContext env BridgeInit.gpu);
         [| destruct (BridgeInit.createContext env BridgeInit.cpu)]];
      cbn;
      (split; [reflexivity |]); (split; [reflexivity |]);
      (split; [repeat split; reflexivity |]);
      (split; [split; intro H; (discriminate H || reflexivity) |]);
      (split; [intro env'; reflexivity |]);
      intros E G; try reflexivity;
      subst s; discriminate G.
  - cbn.
    (split; [reflexivity |]); (split; [reflexivity |]).
    (split; [repeat split; reflexivity |]).
    (split; [split; intro H; reflexivity |]).
    (split; [intro env'; reflexivity |]).
    intros E G. subst s. discriminate G.
Qed.

Lemma init_takes_first_device_once_witness :
  BridgeInit.backend
    (snd (BridgeInit.init
            (BridgeInit.mkBrowser true
               (fun device =>
                  match device with
                  | BridgeInit.npu => Thrown
                  | _ => Returned tt
                  end)
               Thrown)
            BridgeInit.constructor))
  = BridgeInit.gpu.
Proof.
  pose proof (init_takes_first_device_once
                (BridgeInit.mkBrowser true
                   (fun device =>
                      match device with
                      | BridgeInit.npu => Thrown
                      | _ => Returned tt
                      end)
                   Thrown)
                BridgeInit.constructor eq_refl) as H.
  cbv zeta in H. apply H.
Defined.

End BridgeStart.

(** ** The heuristic classifier *)

Section HeuristicClassifier.

Import String.
#[local] Open Scope string_scope.

(** X29. The heuristic classifier.  For saturation, colour variance,
    edge density and brightness between 0 and 1 the heuristic score is
    between 0 and 100 and the confidence between 0.5 and 1.  The
    category is "high_dopamine" exactly above 60, with a confidence of
    at most 0.95, "calming" exactly up to 35, and "moderate" between.
    The confidence is not continuous in the score: at the score 60 it
    is 1 (moderate), right above 60 it is at most 0.95, and at most
    0.61 up to the score 61. *)
Theorem heuristic_confidence_range :
  forall (satMax colorVariance edgeDensity avgBrightness : Q)
         (warmPixels coolPixels : Z),
    0 <= satMax <= 1 -> 0 <= colorVariance <= 1 ->
    0 <= edgeDensity <= 1 -> 0 <= avgBrightness <= 1 ->
    let result :=
      Classifier.heuristic satMax colorVariance edgeDensity avgBrightness
        warmPixels coolPixels in
    let score := fst (fst result) in
    let category := snd (fst result) in
    let confidence := snd result in
    0 <= score <= 100
    /\ 0.5 <= confidence <= 1
    /\ (category = "high_dopamine" <-> 60 < score)
    /\ (category = "calming" <-> score <= 35)
    /\ (category = "moderate" <-> 35 < score <= 60)
    /\ (60 < score -> confidence <= 0.95)
    /\ (60 < score <= 61 -> confidence <= 0.61)
    /\ (score == 60 -> confidence == 1).
Proof.
  intros satMax colorVariance edgeDensity avgBrightness warmPixels coolPixels
         Hs Hc He Hb.
  cbv zeta. unfold Classifier.heuristic. cbv zeta.
  set (score := 0 + satMax * 30 + colorVariance * 25 + edgeDensity * 20
                + avgBrightness * 15
                + (if (coolPixels <? warmPixels)%Z then 10 else 0)).
  assert (Hscore : 0 <= score <= 100).
  { unfold score. destruct (coolPixels <? warmPixels)%Z; split; lra. }
  destruct (Qgt_bool score 60) eqn:H60.
  - apply Qgt_bool_iff in H60. cbn [fst snd].
    pose proof (Q.le_min_l (score / 100) 0.95) as M1.
    pose proof (Q.le_min_r (score / 100) 0.95) as M2.
    assert (M3 : 0.5 <= Qmin (score / 100) 0.95)
      by (apply Q.min_glb; qlra).
    split; [exact Hscore |]. split; [split; lra |].
    split; [split; [intros _; exact H60 | reflexivity] |].
    split; [split; [discriminate | intro; lra] |].
    split; [split; [discriminate | intro; lra] |].
    split; [intros _; exact M2 |].
    split; [intros [_ H61]; apply Qle_trans with (score / 100);
            [exact M1 | qlra] |].
    intro E. lra.
  - apply Qgt_bool_false_iff in H60.
    destruct (Qgt_bool score 35) eqn:H35.
    + apply Qgt_bool_iff in H35. cbn [fst snd].
      split; [exact Hscore |]. split; [split; qlra |].
      split; [split; [discriminate | intro; lra] |].
      split; [split; [discriminate | intro; lra] |].
      split; [split; [intros _; split; assumption | reflexivity] |].
      split; [intro; lra |]. split; [intro; lra |].
      intro E. rewrite E. reflexivity.
    + apply Qgt_bool_false_iff in H35. cbn [fst snd].
      pose proof (Q.le_max_r (1 - score / 35) 0.5) as M1.
      assert (M2 : Qmax (1 - score / 35) 0.5 <= 1)
        by (apply Q.max_lub; qlra).
      split; [exact Hscore |]. split; [split; assumption |].
      split; [split; [discriminate | intro; lra] |].
      split; [split; [intros _; exact H35 | reflexivity] |].
      split; [split; [discriminate | intro; lra] |].
      split; [intro; lra |]. split; [intro; lra |].
      intro E. lra.
Qed.

Lemma heuristic_confidence_range_witness :
  0.5 <= snd (Classifier.heuristic 1 0.4 0.5 0.8 10 3) <= 1.
Proof.
  refine (proj1 (proj2 (heuristic_confidence_range 1 0.4 0.5 0.8 10 3
                          _ _ _ _)));
    split; discriminate.
Defined.

End HeuristicClassifier.

(** ** The chip table *)

Section ChipTable.

Import String.
#[local] Open Scope string_scope.

Lemma includes_AI_9 (rest : string) :
  Hardware.includes ("AMD Ryzen AI 9 HX (" ++ rest) "AI 9" = true.
Proof. reflexivity. Qed.

Lemma chip_of_many_cores (n : nat) :
  (25 <= n)%nat ->
  Hardware._inferChipModel (Some n)
  = "AMD Ryzen AI 9 HX (" ++ Hardware.decimal n ++ " threads)".
Proof.
  intro H. do 25 (destruct n as [| n]; [lia |]). reflexivity.
Qed.

(** X30. The performance class inferred for a core count.  Through
    [_inferChipModel] and [_inferTOPS], 16 and 12 to 15 threads give
    "39 TOPS", 17 threads or more "50+ TOPS", 8 to 11 threads
    "16 TOPS", fewer threads and an unknown count "10+ TOPS"; no core
    count gives "33 TOPS". *)
Theorem inferred_performance_class :
  forall cores : option nat,
    let tops := Hardware._inferTOPS (Hardware._inferChipModel cores) in
    tops
    = match cores with
      | Some n =>
          if (17 <=? n)%nat then "50+ TOPS"
          else if (12 <=? n)%nat then "39 TOPS"
          else if (8 <=? n)%nat then "16 TOPS"
          else "10+ TOPS"
      | None => "10+ TOPS"
      end
    /\ tops <> "33 TOPS".
Proof.
  intro cores. cbv zeta.
  assert (E : Hardware._inferTOPS (Hardware._inferChipModel cores)
              = match cores with
                | Some n =>
                    if (17 <=? n)%nat then "50+ TOPS"
                    else if (12 <=? n)%nat then "39 TOPS"
                    else if (8 <=? n)%nat then "16 TOPS"
                    else "10+ TOPS"
                | None => "10+ TOPS"
                end).
  { destruct cores as [n |]; [| reflexivity].
    destruct (le_lt_dec 25 n) as [Many | Few].
    - rewrite (chip_of_many_cores n Many).
      unfold Hardware._inferTOPS. rewrite includes_AI_9, orb_true_r.
      replace (17 <=? n)%nat with true
        by (symmetry; apply Nat.leb_le; lia).
      reflexivity.
    - do 25 (destruct n as [| n]; [vm_compute; reflexivity |]). lia. }
  split; [exact E |]. rewrite E.
  destruct cores as [n |]; [| discriminate].
  destruct (17 <=? n)%nat; [discriminate |].
  destruct (12 <=? n)%nat; [discriminate |].
  destruct (8 <=? n)%nat; discriminate.
Qed.

End ChipTable.
